(** * hashtable.c: a chained hash table from C strings to C strings

    A shallow embedding of [hashtable.c] and the verification of its
    specification.  The C functions [hash], [ht_init], [ht_create_entry],
    [ht_set], [ht_get] and [print_hashtable] are translated one by one into
    computations over an explicit memory: a heap of [malloc]ed blocks, the
    [entries] array of the table, and the answers [malloc] is going to give. *)

From Stdlib Require Import ZArith Lia Sorting.Sorted.
From Stdlib Require Import Strings.Byte Strings.String.
From stdpp Require Import gmap list fin_maps.

Local Open Scope Z_scope.

(** ** The platform

    The C standard leaves open whether plain [char] is a signed type.  The
    integer widths are those of the LP64 data model: [size_t] has 64 bits and
    [unsigned int] has 32. *)

Class Platform := MkPlatform { char_is_signed : bool }.

(** x86-64 (System V and Darwin): plain [char] is signed. *)
Definition signed_char : Platform := {| char_is_signed := true |}.
(** AArch64 Linux: plain [char] is unsigned. *)
Definition unsigned_char : Platform := {| char_is_signed := false |}.

Definition SIZE_BITS : Z := 64.
Definition UINT_BITS : Z := 32.

(** Conversion of an integer to [size_t] and to [unsigned int]. *)
Definition to_size_t (z : Z) : Z := z mod 2 ^ SIZE_BITS.
Definition to_uint (z : Z) : Z := z mod 2 ^ UINT_BITS.

(** ** C strings

    A C string is modelled by the bytes that come before its terminating NUL. *)

Abbreviation cstring := (list byte).

Definition byte_val (b : byte) : Z := Z.of_N (Byte.to_N b).

(** No byte of the string is the terminator. *)
Definition is_cstring (s : cstring) : Prop := Forall (fun b => b <> x00) s.

Definition is_cstringb (s : cstring) : bool :=
  forallb (fun b => negb (Byte.eqb b x00)) s.

(** The keys of a list of calls are C strings. *)
Definition keys_ok (ops : list (cstring * cstring)) : bool :=
  forallb (fun op => is_cstringb (fst op)) ops.

(** The value of an expression of type [char] holding the byte [b]. *)
Definition char_val `{Platform} (b : byte) : Z :=
  if char_is_signed && (128 <=? byte_val b) then byte_val b - 256 else byte_val b.

(** [s[i]]: the byte at index [i], the terminator right after the last one. *)
Definition char_at (s : cstring) (i : nat) : byte := nth i s x00.

Definition strlen (s : cstring) : Z := Z.of_nat (length s).

(** [strcmp]: the difference of the first two bytes that differ, compared as
    [unsigned char]; the end of a string reads as the terminator. *)
Fixpoint strcmp (s1 s2 : cstring) : Z :=
  match s1, s2 with
  | [], [] => 0
  | [], b2 :: _ => 0 - byte_val b2
  | b1 :: _, [] => byte_val b1
  | b1 :: r1, b2 :: r2 =>
      if byte_val b1 =? byte_val b2 then strcmp r1 r2
      else byte_val b1 - byte_val b2
  end.

(** ** The hash function *)

(** [#define TABLE_SIZE 100000] *)
Definition TABLE_SIZE : Z := 100000.

(** [hash]: the loop body [value = value * 37 + key[i]], in [size_t]. *)
Definition hash_step `{Platform} (key : cstring) (value : Z) (i : nat) : Z :=
  to_size_t (value * 37 + char_val (char_at key i)).

(** [hash]: [key_len] is an [unsigned int] that receives [strlen(key)]; the loop
    runs [i] from 0 up to [key_len]. *)
Definition hash `{Platform} (key : cstring) : Z :=
  let value := 0 in
  let key_len := to_uint (strlen key) in
  let value := fold_left (hash_step key) (seq 0 (Z.to_nat key_len)) value in
  let value := value mod TABLE_SIZE in
  value.

(** The accumulation of [hash] over a byte of the key, without the index. *)
Definition hash_acc `{Platform} (acc : Z) (b : byte) : Z :=
  to_size_t (acc * 37 + char_val b).

(** The hash function in the words of the specification: over the bytes of the
    key from left to right, [acc = acc * 37 + byte] with unsigned wrap-around,
    then the remainder modulo the capacity. *)
Definition spec_hash (capacity : Z) (key : cstring) : Z :=
  fold_left (fun acc b => to_size_t (acc * 37 + byte_val b)) key 0 mod capacity.

(** ** Memory

    A pointer is [NULL] or the address of a block obtained from [malloc].  A
    block is an [entry_t] or an array of [char] of a known size that holds a
    string. *)

Definition addr := positive.
Abbreviation ptr := (option addr).
Abbreviation NULL := (@None addr).

Record entry_t := Entry_t { key : ptr; value : ptr; next : ptr }.

Inductive block :=
  | Node (e : entry_t)
  | Buf (size : Z) (s : cstring).

(** The memory: the heap; the array [hashtable->entries], as the map from the
    indices of the slots that are not [NULL] to the pointers they hold; and the
    answers of the coming calls of [malloc] ([false]: that call returns [NULL];
    past the end of the list every call succeeds). *)
Record state := State {
  heap : gmap addr block;
  entries : gmap Z addr;
  mallocs : list bool
}.

(** A computation returns a result and a memory, or has undefined behaviour
    (an access through [NULL] or through a pointer to no block of the right
    kind), or loops for ever. *)
Inductive outcome (A : Type) :=
  | Ret (a : A) (s : state)
  | Fault
  | Diverge.
Arguments Ret {A} a s.
Arguments Fault {A}.
Arguments Diverge {A}.

Definition M (A : Type) : Type := state -> outcome A.

Definition ret {A} (a : A) : M A := fun s => Ret a s.

Definition bind {A B} (c : M A) (k : A -> M B) : M B :=
  fun s => match c s with
           | Ret a s' => k a s'
           | Fault => Fault
           | Diverge => Diverge
           end.

Declare Scope machine_scope.
Delimit Scope machine_scope with M.
Notation "'do' x <- c ; k" := (bind c (fun x => k))
  (at level 10, x name, c at level 100, k at level 200) : machine_scope.
Local Open Scope machine_scope.

Definition diverge {A} : M A := fun _ => Diverge.

(** The coming call of [malloc] is going to return a block. *)
Definition malloc_ok (l : list bool) : bool :=
  match l with false :: _ => false | _ => true end.

(** [malloc]: [NULL], or the address of a new block.  The content [b] of the
    new block stands for the indeterminate bytes that C leaves there; the code
    writes every field before it reads it. *)
Definition malloc (b : block) : M ptr := fun s =>
  match mallocs s with
  | false :: rest => Ret NULL (State (heap s) (entries s) rest)
  | _ =>
      let a := fresh (dom (heap s)) in
      Ret (Some a) (State (<[a := b]> (heap s)) (entries s) (tail (mallocs s)))
  end.

(** [free(p)]: nothing for [NULL], undefined for a pointer to no block. *)
Definition free (p : ptr) : M unit := fun s =>
  match p with
  | None => Ret tt s
  | Some a =>
      match heap s !! a with
      | Some _ => Ret tt (State (delete a (heap s)) (entries s) (mallocs s))
      | None => Fault
      end
  end.

(** [*entry]: the fields of the entry that [entry] points to. *)
Definition load_entry (entry : ptr) : M entry_t := fun s =>
  match entry with
  | Some a => match heap s !! a with
              | Some (Node e) => Ret e s
              | _ => Fault
              end
  | None => Fault
  end.

Definition store_entry (entry : ptr) (e : entry_t) : M unit := fun s =>
  match entry with
  | Some a => match heap s !! a with
              | Some (Node _) =>
                  Ret tt (State (<[a := Node e]> (heap s)) (entries s) (mallocs s))
              | _ => Fault
              end
  | None => Fault
  end.

(** Reads of [entry->key], [entry->value] and [entry->next]. *)
Definition get_key (entry : ptr) : M ptr :=
  do e <- load_entry entry ; ret (key e).
Definition get_value (entry : ptr) : M ptr :=
  do e <- load_entry entry ; ret (value e).
Definition get_next (entry : ptr) : M ptr :=
  do e <- load_entry entry ; ret (next e).

(** The assignments [entry->key = p], [entry->value = p], [entry->next = p]. *)
Definition set_key (entry p : ptr) : M unit :=
  do e <- load_entry entry ; store_entry entry (Entry_t p (value e) (next e)).
Definition set_value (entry p : ptr) : M unit :=
  do e <- load_entry entry ; store_entry entry (Entry_t (key e) p (next e)).
Definition set_next (entry p : ptr) : M unit :=
  do e <- load_entry entry ; store_entry entry (Entry_t (key e) (value e) p).

(** The string a [char *] points to. *)
Definition load_string (p : ptr) : M cstring := fun s =>
  match p with
  | Some a => match heap s !! a with
              | Some (Buf _ str) => Ret str s
              | _ => Fault
              end
  | None => Fault
  end.

(** [strcpy(dst, src)]: undefined when the array at [dst] is too small for the
    string and its terminator. *)
Definition strcpy (dst : ptr) (src : cstring) : M unit := fun s =>
  match dst with
  | Some a => match heap s !! a with
              | Some (Buf size _) =>
                  if strlen src + 1 <=? size
                  then Ret tt (State (<[a := Buf size src]> (heap s)) (entries s) (mallocs s))
                  else Fault
              | _ => Fault
              end
  | None => Fault
  end.

(** [hashtable->entries[i]], read and assigned; an index outside the array is
    undefined behaviour. *)
Definition in_table (i : Z) : bool := (0 <=? i) && (i <? TABLE_SIZE).

Definition get_slot (i : Z) : M ptr := fun s =>
  if in_table i then Ret (entries s !! i) s else Fault.

Definition set_slot (i : Z) (p : ptr) : M unit := fun s =>
  if in_table i then
    let entries' := match p with
                    | Some a => <[i := a]> (entries s)
                    | None => delete i (entries s)
                    end in
    Ret tt (State (heap s) entries' (mallocs s))
  else Fault.

(** [for (size_t i = start; i < start + count; ++i) body(i)]. *)
Fixpoint for_loop (count : nat) (i : Z) (body : Z -> M unit) : M unit :=
  match count with
  | O => ret tt
  | S count => do _ <- body i ; for_loop count (i + 1) body
  end.

(** A walk along a chain does not change the heap, so a walk that has not
    reached [NULL] after more steps than the heap has blocks has been at some
    entry twice and goes on for ever. *)
Definition walk_bound (s : state) : nat := S (size (heap s)).

(** ** The functions of [hashtable.c] *)

Definition ht_init : M unit :=
  for_loop (Z.to_nat TABLE_SIZE) 0 (fun i => set_slot i NULL).

(** [ht_create_entry]: [ok] is the condition
    [entry != NULL && entry->key != NULL && entry->value != NULL], which reads
    a field only when what stands before it holds. *)
Definition ht_create_entry (key value : cstring) : M ptr :=
  do entry <- malloc (Node (Entry_t NULL NULL NULL)) ;
  do k <- malloc (Buf (strlen key + 1) []) ;
  do _ <- set_key entry k ;
  do v <- malloc (Buf (strlen value + 1) []) ;
  do _ <- set_value entry v ;
  do ok <- match entry with
           | None => ret false
           | Some _ =>
               do ekey <- get_key entry ;
               match ekey with
               | None => ret false
               | Some _ =>
                   do evalue <- get_value entry ;
                   match evalue with
                   | None => ret false
                   | Some _ => ret true
                   end
               end
           end ;
  if ok then
    do ekey <- get_key entry ;
    do _ <- strcpy ekey key ;
    do evalue <- get_value entry ;
    do _ <- strcpy evalue value ;
    do _ <- set_next entry NULL ;
    ret entry
  else
    match entry with
    | Some _ =>
        do ekey <- get_key entry ;
        do _ <- match ekey with Some _ => free ekey | None => ret tt end ;
        do evalue <- get_value entry ;
        do _ <- match evalue with Some _ => free evalue | None => ret tt end ;
        do _ <- free entry ;
        ret NULL
    | None => ret entry
    end.

(** [ht_set], the key exists: the statements under
    [if (strcmp(entry->key, key) == 0)]. *)
Definition ht_set_replace (entry : ptr) (value : cstring) : M ptr :=
  do tmp <- malloc (Buf (strlen value + 1) []) ;
  match tmp with
  | Some _ =>
      do old <- get_value entry ;
      do _ <- free old ;
      do _ <- set_value entry tmp ;
      do dst <- get_value entry ;
      do _ <- strcpy dst value ;
      ret entry
  | None => ret NULL
  end.

(** [ht_set], the chain has no such key: the two statements after the loop. *)
Definition ht_set_append (prev : ptr) (key value : cstring) : M ptr :=
  do e <- ht_create_entry key value ;
  do _ <- set_next prev e ;
  get_next prev.

(** The [do ... while (entry != NULL)] of [ht_set] and what follows it;
    [entry] is not [NULL] when the loop is entered. *)
Fixpoint ht_set_loop (fuel : nat) (key value : cstring) (entry : ptr) : M ptr :=
  match fuel with
  | O => diverge
  | S fuel =>
      do ekey <- get_key entry ;
      do str <- load_string ekey ;
      if strcmp str key =? 0 then ht_set_replace entry value
      else
        let prev := entry in
        do entry <- get_next entry ;
        match entry with
        | Some _ => ht_set_loop fuel key value entry
        | None => ht_set_append prev key value
        end
  end.

Definition ht_set `{Platform} (key value : cstring) : M ptr :=
  let slot := hash key in
  do entry <- get_slot slot ;
  match entry with
  | None =>
      do e <- ht_create_entry key value ;
      do _ <- set_slot slot e ;
      get_slot slot
  | Some _ => fun s => ht_set_loop (walk_bound s) key value entry s
  end.

(** The [for] loop of [ht_get]. *)
Fixpoint ht_get_loop (fuel : nat) (key : cstring) (entry : ptr) : M ptr :=
  match fuel with
  | O => diverge
  | S fuel =>
      match entry with
      | None => ret NULL
      | Some _ =>
          do ekey <- get_key entry ;
          do str <- load_string ekey ;
          if strcmp str key =? 0 then get_value entry
          else
            do entry <- get_next entry ;
            ht_get_loop fuel key entry
      end
  end.

Definition ht_get `{Platform} (key : cstring) : M ptr :=
  let slot := hash key in
  do entry <- get_slot slot ;
  fun s => ht_get_loop (walk_bound s) key entry s.

(** What [print_hashtable] writes: one line for every slot that is not empty,
    with the index of the slot and its [key=value] pairs. *)
Definition line : Type := Z * list (cstring * cstring).

(** The inner [for] loop of [print_hashtable]. *)
Fixpoint print_chain (fuel : nat) (entry : ptr) : M (list (cstring * cstring)) :=
  match fuel with
  | O => diverge
  | S fuel =>
      match entry with
      | None => ret []
      | Some _ =>
          do ekey <- get_key entry ;
          do k <- load_string ekey ;
          do evalue <- get_value entry ;
          do v <- load_string evalue ;
          do entry <- get_next entry ;
          do rest <- print_chain fuel entry ;
          ret ((k, v) :: rest)
      end
  end.

(** The outer [for] loop of [print_hashtable]. *)
Fixpoint print_slots (count : nat) (i : Z) : M (list line) :=
  match count with
  | O => ret []
  | S count =>
      do entry <- get_slot i ;
      match entry with
      | Some _ =>
          do pairs <- (fun s => print_chain (walk_bound s) entry s) ;
          do rest <- print_slots count (i + 1) ;
          ret ((i, pairs) :: rest)
      | None => print_slots count (i + 1)
      end
  end.

Definition print_hashtable : M (list line) :=
  print_slots (Z.to_nat TABLE_SIZE) 0.

(** ** Callers *)

(** A caller that reads the string [ht_get] points to: [None] for [NULL]. *)
Definition lookup_value `{Platform} (key : cstring) : M (option cstring) :=
  do p <- ht_get key ;
  match p with
  | Some _ => do v <- load_string p ; ret (Some v)
  | None => ret None
  end.

(** The entries of the table as [print_hashtable] lists them, each with the
    index of its slot. *)
Definition triples (lines : list line) : list (Z * cstring * cstring) :=
  flat_map (fun l : line => map (fun kv => (fst l, fst kv, snd kv)) (snd l)) lines.

Definition enumerate : M (list (Z * cstring * cstring)) :=
  do lines <- print_hashtable ; ret (triples lines).

(** The pairs in the chain of slot [i], from its head. *)
Definition slot_pairs (i : Z) : M (list (cstring * cstring)) :=
  do entry <- get_slot i ;
  fun s => print_chain (walk_bound s) entry s.

(** A sequence of calls of [ht_set], as in [main]; the result lists what the
    calls returned. *)
Fixpoint run_sets `{Platform} (ops : list (cstring * cstring)) : M (list ptr) :=
  match ops with
  | [] => ret []
  | (key, value) :: ops =>
      do r <- ht_set key value ;
      do rs <- run_sets ops ;
      ret (r :: rs)
  end.

(** [ht_init] and then a sequence of calls of [ht_set]. *)
Definition ht_session `{Platform} (ops : list (cstring * cstring)) : M (list ptr) :=
  do _ <- ht_init ; run_sets ops.

(** The result of a computation that returns. *)
Definition result {A} (o : outcome A) : option A :=
  match o with Ret a _ => Some a | _ => None end.

(** ** The history of a session, in the words of the specification *)

#[global] Instance byte_eq_dec : EqDecision byte := Byte.byte_eq_dec.

(** A call of [ht_set]: its key, its value, and the pointer it returned. *)
Definition call : Type := cstring * cstring * ptr.

Definition call_key (c : call) : cstring := fst (fst c).
Definition call_value (c : call) : cstring := snd (fst c).

(** The call returned an entry, not [NULL]. *)
Definition succeeded (c : call) : bool :=
  match snd c with Some _ => true | None => false end.

(** The calls of a session, oldest first, with their results. *)
Definition history (ops : list (cstring * cstring)) (rs : list ptr) : list call :=
  zip ops rs.

(** The value of the most recent successful call of [ht_set] on [key]. *)
Fixpoint latest (key : cstring) (hist : list call) : option cstring :=
  match hist with
  | [] => None
  | c :: hist =>
      match latest key hist with
      | Some v => Some v
      | None =>
          if succeeded c && bool_decide (call_key c = key)
          then Some (call_value c) else None
      end
  end.

(** A list without the later repetitions of its elements. *)
Fixpoint first_occurrences (l : list cstring) : list cstring :=
  match l with
  | [] => []
  | x :: l => x :: filter (fun y => y <> x) (first_occurrences l)
  end.

(** The keys that were inserted, in the order of their insertion. *)
Definition inserted_keys (hist : list call) : list cstring :=
  first_occurrences (call_key <$> filter (fun c => succeeded c = true) hist).

(** The enumeration the specification describes: slot by slot in ascending
    order and, within a slot, the keys in the order of their insertion, each
    with its latest value. *)
Definition spec_enumerate `{Platform} (hist : list call) : list (Z * cstring * cstring) :=
  flat_map
    (fun i => map (fun k => (i, k, default [] (latest k hist)))
                  (filter (fun k => hash k = i) (inserted_keys hist)))
    (seqZ 0 TABLE_SIZE).

(** ** The table as a list of pairs

    The abstract content of a table: its pairs in the order of insertion. *)

Definition pairs_lookup (key : cstring) (al : list (cstring * cstring)) : option cstring :=
  snd <$> List.find (fun kv => bool_decide (fst kv = key)) al.

Definition pairs_set (key value : cstring) (al : list (cstring * cstring))
  : list (cstring * cstring) :=
  if decide (key ∈ fst <$> al)
  then (fun kv => if decide (fst kv = key) then (key, value) else kv) <$> al
  else al ++ [(key, value)].

(** The content after the calls of a history. *)
Definition replay (al : list (cstring * cstring)) (hist : list call)
  : list (cstring * cstring) :=
  fold_left (fun al c => if succeeded c then pairs_set (call_key c) (call_value c) al else al)
            hist al.

(** ** The representation of a table in memory

    A cell stands for an entry of a chain: the addresses of its three blocks
    and the two strings. *)

Record cell := Cell {
  c_node : addr;
  c_kaddr : addr;
  c_vaddr : addr;
  c_key : cstring;
  c_val : cstring
}.

Definition cell_addrs (c : cell) : list addr := [c_node c; c_kaddr c; c_vaddr c].
Definition cell_kv (c : cell) : cstring * cstring := (c_key c, c_val c).

(** The blocks of the cell [c] are in the heap, and its entry has the [next]
    pointer [nxt]. *)
Definition cell_in (h : gmap addr block) (c : cell) (nxt : ptr) : Prop :=
  h !! c_node c = Some (Node (Entry_t (Some (c_kaddr c)) (Some (c_vaddr c)) nxt)) /\
  h !! c_kaddr c = Some (Buf (strlen (c_key c) + 1) (c_key c)) /\
  h !! c_vaddr c = Some (Buf (strlen (c_val c) + 1) (c_val c)).

(** The pointer [p] heads a chain of the cells [cs] that ends with [NULL]. *)
Fixpoint chain (h : gmap addr block) (p : ptr) (cs : list cell) : Prop :=
  match cs with
  | [] => p = NULL
  | c :: cs =>
      p = Some (c_node c) /\ exists nxt, cell_in h c nxt /\ chain h nxt cs
  end.

(** The cells of slot [i] among the cells of the table. *)
Definition slot_cells `{Platform} (i : Z) (cells : list cell) : list cell :=
  filter (fun c => hash (c_key c) = i) cells.

(** The memory holds a table of the cells [cells], listed in the order of
    their insertion: every slot heads the chain of its cells, no block is
    shared, no key is repeated. *)
Record ht_repr `{Platform} (s : state) (cells : list cell) : Prop := {
  repr_chain : forall i, 0 <= i < TABLE_SIZE ->
    chain (heap s) (entries s !! i) (slot_cells i cells);
  repr_addrs : NoDup (cells ≫= cell_addrs);
  repr_keys : NoDup (c_key <$> cells);
  repr_cstring : Forall (fun c => is_cstring (c_key c)) cells
}.

(** The three blocks of a cell whose entry has the [next] pointer [nxt], put
    in a heap. *)
Definition cell_blocks (c : cell) (nxt : ptr) (h : gmap addr block) : gmap addr block :=
  <[c_vaddr c := Buf (strlen (c_val c) + 1) (c_val c)]>
    (<[c_kaddr c := Buf (strlen (c_key c) + 1) (c_key c)]>
       (<[c_node c := Node (Entry_t (Some (c_kaddr c)) (Some (c_vaddr c)) nxt)]> h)).

(** The cell [ht_create_entry] makes in the heap [h], with the addresses that
    its three calls of [malloc] return. *)
Definition new_cell (h : gmap addr block) (k v : cstring) : cell :=
  let a1 := fresh (dom h) in
  let a2 := fresh ({[a1]} ∪ dom h) in
  let a3 := fresh ({[a2]} ∪ ({[a1]} ∪ dom h)) in
  Cell a1 a2 a3 k v.

(** The cell [c] after [ht_set] has replaced its value by [v] in the heap [h]. *)
Definition new_value (h : gmap addr block) (v : cstring) (c : cell) : cell :=
  Cell (c_node c) (c_kaddr c) (fresh (dom h)) (c_key c) v.

(** The cells of a table after [ht_set] has replaced the value of the key [k]. *)
Definition set_cells (h : gmap addr block) (k v : cstring) (cells : list cell) : list cell :=
  (fun c => if decide (c_key c = k) then new_value h v c else c) <$> cells.

(** The lines [print_hashtable] writes for the slots [i], [i + 1], ... ([count]
    of them) of a table of the cells [cells]. *)
Fixpoint table_lines `{Platform} (cells : list cell) (count : nat) (i : Z) : list line :=
  match count with
  | O => []
  | S count =>
      match slot_cells i cells with
      | [] => table_lines cells count (i + 1)
      | cs => (i, cell_kv <$> cs) :: table_lines cells count (i + 1)
      end
  end.

(** The entries of slot [i] as [print_hashtable] lists them. *)
Definition slot_triples `{Platform} (cells : list cell) (i : Z)
  : list (Z * cstring * cstring) :=
  (fun c => (i, c_key c, c_val c)) <$> slot_cells i cells.

(** A computation that returns leaves the memory as it was. *)
Definition readonly {A} (c : M A) : Prop :=
  forall s a s', c s = Ret a s' -> s' = s.

(** The first cell with the key [key]. *)
Definition find_cell (key : cstring) (cs : list cell) : option cell :=
  List.find (fun c => bool_decide (c_key c = key)) cs.

(** The step of the specification's hash over a byte [c], as the function
    [acc => (a * acc + b) mod 2^64] given by its two coefficients, and the
    coefficients of [2^k] steps over the same byte. *)
Definition affine_twice (ab : Z * Z) : Z * Z :=
  (to_size_t (fst ab * fst ab), to_size_t (fst ab * snd ab + snd ab)).

Fixpoint affine_pow2 (c : byte) (k : nat) : Z * Z :=
  match k with
  | O => (37, byte_val c)
  | S k => affine_twice (affine_pow2 c k)
  end.

(** A key of [2^32] bytes. *)
Definition long_key : cstring := replicate (2 ^ 32)%nat "a"%byte.

(** ** Sample sessions *)

(** A memory with no block, where the coming calls of [malloc] answer [l]. *)
Definition memory (l : list bool) : state := State ∅ ∅ l.

(** The memory a computation leaves, and what it returns ([d] if it does not
    return). *)
Definition final {A} (c : M A) (s : state) : state :=
  match c s with Ret _ s' => s' | _ => s end.

Definition returned {A} (c : M A) (s : state) (d : A) : A :=
  match c s with Ret a _ => a | _ => d end.

(** The calls of [main]. *)
Definition main_calls : list (cstring * cstring) :=
  map (fun kv => (list_byte_of_string (fst kv), list_byte_of_string (snd kv)))
    [ ("madrid", "madrid"); ("cataluña", "barcelona"); ("valencia", "valencia");
      ("euskadi", "vitoria-gasteiz"); ("navarra", "pamplona"); ("aragón", "zaragoza");
      ("la rioja", "logroño"); ("asturias", "oviedo"); ("cantabria", "santander");
      ("galicia", "santiago de compostela"); ("castilla y león", "burgos");
      ("castilla la mancha", "toledo"); ("andalucía", "sevilla");
      ("extremadura", "mérida"); ("murcia", "murcia"); ("canarias", "las palmas");
      ("baleares", "palma"); ("ceuta", "ceuta"); ("melilla", "melilla") ]%string.

Definition key_madrid : cstring := list_byte_of_string "madrid".
Definition value_MADRID : cstring := list_byte_of_string "MADRID".
Definition key_nowhere : cstring := list_byte_of_string "nowhere".

(** The calls of [main] and then an update of the first key, where [char] is
    signed and every [malloc] succeeds: what the calls return and the memory
    they leave. *)
Definition update_calls : list (cstring * cstring) :=
  main_calls ++ [(key_madrid, value_MADRID)].

Definition update_results : list ptr :=
  Eval vm_compute in returned (ht_session (H := signed_char) update_calls) (memory []) [].

Definition update_final : state :=
  Eval vm_compute in final (ht_session (H := signed_char) update_calls) (memory []).

(** Two keys of one slot, [97 * 37 + 97 = 98 * 37 + 60 = 3686], and a key of
    another slot. *)
Definition key_aa : cstring := list_byte_of_string "aa".
Definition key_b : cstring := list_byte_of_string "b<".
Definition key_zz : cstring := list_byte_of_string "zz".
Definition value_1 : cstring := list_byte_of_string "1".
Definition value_2 : cstring := list_byte_of_string "2".

(** One call, on the key [aa], where [char] is signed and [malloc] succeeds:
    what it returns, and the memory it leaves with the answers [l] for the
    coming calls of [malloc]. *)
Definition aa_calls : list (cstring * cstring) := [(key_aa, value_1)].

Definition aa_results : list ptr :=
  Eval vm_compute in returned (ht_session (H := signed_char) aa_calls) (memory []) [].

Definition aa_heap : gmap addr block :=
  Eval vm_compute in heap (final (ht_session (H := signed_char) aa_calls) (memory [])).

Definition aa_entries : gmap Z addr :=
  Eval vm_compute in entries (final (ht_session (H := signed_char) aa_calls) (memory [])).

Definition aa_table (l : list bool) : state := State aa_heap aa_entries l.

(** That table after [ht_set] of a second key of the same slot, and after
    [ht_set] of this key once more. *)
Definition b_once : state :=
  final (ht_set (H := signed_char) key_b value_1) (aa_table []).

Definition b_twice : state :=
  final (ht_set (H := signed_char) key_b value_2) b_once.

(** ** The polynomial of the hash function

    The sum that the loop of [hash] computes by Horner's rule: in a key of [n]
    bytes the [char] at index [i] has the weight [37^(n-1-i)]. *)
Fixpoint weighted_sum `{Platform} (key : cstring) : Z :=
  match key with
  | [] => 0
  | b :: key => char_val b * 37 ^ Z.of_nat (length key) + weighted_sum key
  end.

(** ** Walks

    [p->next] in the heap [h], and [NULL] where [p] points to no entry. *)
Definition next_of (h : gmap addr block) (p : ptr) : ptr :=
  match p with
  | Some a => match h !! a with Some (Node e) => next e | _ => NULL end
  | None => NULL
  end.

(** A computation that returns or has undefined behaviour in every memory:
    it has no loop that could go on for ever. *)
Definition halts {A} (c : M A) : Prop := forall s, c s <> Diverge.

(** The addresses of the blocks of a list of cells. *)
Definition cells_addrs (cells : list cell) : gset addr :=
  list_to_set (cells ≫= cell_addrs).

(** The loops of [ht_get] and [ht_set] go on from the entry [p]: its key is a
    string other than [k] and, for [ht_set], it is not the last entry. *)
Definition get_continues (k : cstring) (h : gmap addr block) (p : ptr) : bool :=
  match p with
  | Some a =>
      match h !! a with
      | Some (Node e) =>
          match key e with
          | Some ka =>
              match h !! ka with
              | Some (Buf _ str) => negb (strcmp str k =? 0)
              | _ => false
              end
          | None => false
          end
      | _ => false
      end
  | None => false
  end.

Definition set_continues (k : cstring) (h : gmap addr block) (p : ptr) : bool :=
  get_continues k h p && match next_of h p with Some _ => true | None => false end.

(** The pair that [print_hashtable] writes for the entry [p], if [p] points to
    an entry with two strings. *)
Definition pair_at (h : gmap addr block) (p : ptr) : option (cstring * cstring) :=
  match p with
  | Some a =>
      match h !! a with
      | Some (Node e) =>
          match key e with
          | Some ka =>
              match h !! ka with
              | Some (Buf _ k) =>
                  match value e with
                  | Some va =>
                      match h !! va with
                      | Some (Buf _ v) => Some (k, v)
                      | _ => None
                      end
                  | None => None
                  end
              | _ => None
              end
          | None => None
          end
      | _ => None
      end
  | None => None
  end.

(** The loop of [print_hashtable] goes on from the entry [p]. *)
Definition print_continues (h : gmap addr block) (p : ptr) : bool :=
  match pair_at h p with Some _ => true | None => false end.

(** What the loop of [print_hashtable] does with the pairs of the rest of the
    chain: the pair of [p] comes before them. *)
Definition print_post (h : gmap addr block) (p : ptr)
    (o : outcome (list (cstring * cstring))) : outcome (list (cstring * cstring)) :=
  match o with
  | Ret rest s => Ret (default ([], []) (pair_at h p) :: rest) s
  | Fault => Fault
  | Diverge => Diverge
  end.

(** ** The table after a call

    The cells of a table after a call of [ht_set] that returned [r]. *)
Definition cells_after (h : gmap addr block) (k v : cstring) (r : ptr) (cells : list cell)
  : list cell :=
  match r with
  | None => cells
  | Some _ =>
      match find_cell k cells with
      | Some _ => set_cells h k v cells
      | None => cells ++ [new_cell h k v]
      end
  end.

(** The heap [h] holds the blocks of the heap [h0] and, apart from them, the
    blocks of the cells [cells] and nothing else. *)
Definition heap_owned (h0 h : gmap addr block) (cells : list cell) : Prop :=
  (forall a, a ∉ cells_addrs cells -> h !! a = h0 !! a) /\
  (forall a, a ∈ cells_addrs cells -> h0 !! a = None).

(** ** More sample tables

    The table of the key [aa] after [ht_set] of a key of another slot, and
    after [ht_set] of the keys [b<] and [zz] in the two orders. *)
Definition zz_once : state :=
  final (ht_set (H := signed_char) key_zz value_2) (aa_table []).

Definition b_then_zz : state :=
  final (ht_set (H := signed_char) key_zz value_2) b_once.

Definition zz_then_b : state :=
  final (ht_set (H := signed_char) key_b value_1) zz_once.

(** The table of the key [aa] after [ht_set] of this key with another value. *)
Definition aa_updated : state :=
  final (ht_set (H := signed_char) key_aa value_2) (aa_table []).

(** A memory that is no table: the entry of slot 3686 is its own successor. *)
Definition cyclic_table : state :=
  State {[ 1%positive := Node (Entry_t (Some 2%positive) (Some 3%positive) (Some 1%positive));
           2%positive := Buf 3 key_aa; 3%positive := Buf 2 value_1 ]}
        {[ 3686 := 1%positive ]} [].

(** ** The arguments as pointers

    [ht_set] and [ht_create_entry] receive two pointers to strings.  The
    functions above take the strings; here the arguments are pointers into
    the memory, read where the code reads them: in [hash(key)], in
    [strcmp(entry->key, key)], in [strlen] and in [strcpy]. *)

Definition strlen_at (p : ptr) : M Z :=
  do str <- load_string p ; ret (strlen str).

Definition strcpy_at (dst src : ptr) : M unit :=
  do str <- load_string src ; strcpy dst str.

Definition strcmp_at (p q : ptr) : M Z :=
  do s1 <- load_string p ; do s2 <- load_string q ; ret (strcmp s1 s2).

Definition hash_at `{Platform} (key : ptr) : M Z :=
  do str <- load_string key ; ret (hash str).

Definition ht_create_entry_at (key value : ptr) : M ptr :=
  do entry <- malloc (Node (Entry_t NULL NULL NULL)) ;
  do klen <- strlen_at key ;
  do k <- malloc (Buf (klen + 1) []) ;
  do _ <- set_key entry k ;
  do vlen <- strlen_at value ;
  do v <- malloc (Buf (vlen + 1) []) ;
  do _ <- set_value entry v ;
  do ok <- match entry with
           | None => ret false
           | Some _ =>
               do ekey <- get_key entry ;
               match ekey with
               | None => ret false
               | Some _ =>
                   do evalue <- get_value entry ;
                   match evalue with
                   | None => ret false
                   | Some _ => ret true
                   end
               end
           end ;
  if ok then
    do ekey <- get_key entry ;
    do _ <- strcpy_at ekey key ;
    do evalue <- get_value entry ;
    do _ <- strcpy_at evalue value ;
    do _ <- set_next entry NULL ;
    ret entry
  else
    match entry with
    | Some _ =>
        do ekey <- get_key entry ;
        do _ <- match ekey with Some _ => free ekey | None => ret tt end ;
        do evalue <- get_value entry ;
        do _ <- match evalue with Some _ => free evalue | None => ret tt end ;
        do _ <- free entry ;
        ret NULL
    | None => ret entry
    end.

Definition ht_set_replace_at (entry value : ptr) : M ptr :=
  do vlen <- strlen_at value ;
  do tmp <- malloc (Buf (vlen + 1) []) ;
  match tmp with
  | Some _ =>
      do old <- get_value entry ;
      do _ <- free old ;
      do _ <- set_value entry tmp ;
      do dst <- get_value entry ;
      do _ <- strcpy_at dst value ;
      ret entry
  | None => ret NULL
  end.

Definition ht_set_append_at (prev key value : ptr) : M ptr :=
  do e <- ht_create_entry_at key value ;
  do _ <- set_next prev e ;
  get_next prev.

Fixpoint ht_set_loop_at (fuel : nat) (key value entry : ptr) : M ptr :=
  match fuel with
  | O => diverge
  | S fuel =>
      do ekey <- get_key entry ;
      do c <- strcmp_at ekey key ;
      if c =? 0 then ht_set_replace_at entry value
      else
        let prev := entry in
        do entry <- get_next entry ;
        match entry with
        | Some _ => ht_set_loop_at fuel key value entry
        | None => ht_set_append_at prev key value
        end
  end.

Definition ht_set_at `{Platform} (key value : ptr) : M ptr :=
  do slot <- hash_at key ;
  do entry <- get_slot slot ;
  match entry with
  | None =>
      do e <- ht_create_entry_at key value ;
      do _ <- set_slot slot e ;
      get_slot slot
  | Some _ => fun s => ht_set_loop_at (walk_bound s) key value entry s
  end.

Fixpoint ht_get_loop_at (fuel : nat) (key entry : ptr) : M ptr :=
  match fuel with
  | O => diverge
  | S fuel =>
      match entry with
      | None => ret NULL
      | Some _ =>
          do ekey <- get_key entry ;
          do c <- strcmp_at ekey key ;
          if c =? 0 then get_value entry
          else
            do entry <- get_next entry ;
            ht_get_loop_at fuel key entry
      end
  end.

Definition ht_get_at `{Platform} (key : ptr) : M ptr :=
  do slot <- hash_at key ;
  do entry <- get_slot slot ;
  fun s => ht_get_loop_at (walk_bound s) key entry s.

(** ** The program

    [main]: what [print_hashtable] writes, and the [0] it returns. *)
Definition main `{Platform} : M (Z * list line) :=
  do _ <- ht_init ;
  do _ <- ht_set (list_byte_of_string "madrid") (list_byte_of_string "madrid") ;
  do _ <- ht_set (list_byte_of_string "cataluña") (list_byte_of_string "barcelona") ;
  do _ <- ht_set (list_byte_of_string "valencia") (list_byte_of_string "valencia") ;
  do _ <- ht_set (list_byte_of_string "euskadi") (list_byte_of_string "vitoria-gasteiz") ;
  do _ <- ht_set (list_byte_of_string "navarra") (list_byte_of_string "pamplona") ;
  do _ <- ht_set (list_byte_of_string "aragón") (list_byte_of_string "zaragoza") ;
  do _ <- ht_set (list_byte_of_string "la rioja") (list_byte_of_string "logroño") ;
  do _ <- ht_set (list_byte_of_string "asturias") (list_byte_of_string "oviedo") ;
  do _ <- ht_set (list_byte_of_string "cantabria") (list_byte_of_string "santander") ;
  do _ <- ht_set (list_byte_of_string "galicia")
                 (list_byte_of_string "santiago de compostela") ;
  do _ <- ht_set (list_byte_of_string "castilla y león") (list_byte_of_string "burgos") ;
  do _ <- ht_set (list_byte_of_string "castilla la mancha") (list_byte_of_string "toledo") ;
  do _ <- ht_set (list_byte_of_string "andalucía") (list_byte_of_string "sevilla") ;
  do _ <- ht_set (list_byte_of_string "extremadura") (list_byte_of_string "mérida") ;
  do _ <- ht_set (list_byte_of_string "murcia") (list_byte_of_string "murcia") ;
  do _ <- ht_set (list_byte_of_string "canarias") (list_byte_of_string "las palmas") ;
  do _ <- ht_set (list_byte_of_string "baleares") (list_byte_of_string "palma") ;
  do _ <- ht_set (list_byte_of_string "ceuta") (list_byte_of_string "ceuta") ;
  do _ <- ht_set (list_byte_of_string "melilla") (list_byte_of_string "melilla") ;
  do out <- print_hashtable ;
  ret (0, out).

(** * Verification *)

(** ** Strings and the hash function *)

Lemma byte_val_range b : 0 <= byte_val b <= 255.
Proof.
  unfold byte_val. pose proof (Byte.to_N_bounded b). lia.
Qed.

Lemma byte_val_inj b1 b2 : byte_val b1 = byte_val b2 -> b1 = b2.
Proof.
  unfold byte_val. intros E. apply N2Z.inj in E.
  pose proof (Byte.of_to_N b1) as E1. rewrite E, Byte.of_to_N in E1.
  congruence.
Qed.

Lemma byte_val_zero b : byte_val b = 0 -> b = x00.
Proof. intros E. apply byte_val_inj. rewrite E. reflexivity. Qed.

Lemma strcmp_refl s : strcmp s s = 0.
Proof. induction s as [|b s IH]; simpl; [done|]. by rewrite Z.eqb_refl. Qed.

Lemma strcmp_eq s1 s2 :
  is_cstring s1 -> is_cstring s2 -> strcmp s1 s2 = 0 -> s1 = s2.
Proof.
  revert s2. induction s1 as [|b1 s1 IH]; intros [|b2 s2] H1 H2 E; simpl in E.
  - done.
  - apply Forall_cons in H2 as [Hb _]. destruct Hb. apply byte_val_zero. lia.
  - apply Forall_cons in H1 as [Hb _]. destruct Hb. by apply byte_val_zero.
  - apply Forall_cons in H1 as [_ H1]. apply Forall_cons in H2 as [_ H2].
    destruct (Z.eqb_spec (byte_val b1) (byte_val b2)) as [Eb|Nb]; [|lia].
    apply byte_val_inj in Eb. f_equal; [done|]. by apply IH.
Qed.

Lemma strcmp_eqb s1 s2 :
  is_cstring s1 -> is_cstring s2 ->
  (strcmp s1 s2 =? 0) = bool_decide (s1 = s2).
Proof.
  intros H1 H2. case_bool_decide as E.
  - subst. rewrite strcmp_refl. done.
  - apply Z.eqb_neq. intros E0. by apply E, strcmp_eq.
Qed.

Lemma is_cstringb_spec s : is_cstringb s = true <-> is_cstring s.
Proof.
  unfold is_cstringb, is_cstring. rewrite forallb_forall, Forall_forall.
  split; intros Hs b Hb.
  - apply list_elem_of_In, Hs in Hb. intros ->. done.
  - apply list_elem_of_In, Hs in Hb. destruct (Byte.eqb b x00) eqn:E; [|done].
    apply Byte.byte_dec_bl in E. done.
Qed.

Section Hash.
Context `{Platform}.

Lemma hash_range key : 0 <= hash key < TABLE_SIZE.
Proof. unfold hash. apply Z.mod_pos_bound. done. Qed.

Lemma in_table_hash key : in_table (hash key) = true.
Proof.
  unfold in_table. pose proof (hash_range key).
  apply andb_true_intro. split; [apply Z.leb_le | apply Z.ltb_lt]; lia.
Qed.
End Hash.

Section HashFacts.
Context `{Platform}.

Lemma hash_loop_fold (pre suf : cstring) (acc : Z) :
  fold_left (hash_step (pre ++ suf)) (seq (length pre) (length suf)) acc
  = fold_left hash_acc suf acc.
Proof.
  revert pre acc. induction suf as [|b suf IH]; intros pre acc; [done|].
  simpl. replace (hash_step (pre ++ b :: suf) acc (length pre)) with (hash_acc acc b).
  - replace (pre ++ b :: suf) with ((pre ++ [b]) ++ suf) by (by rewrite <- app_assoc).
    replace (S (length pre)) with (length (pre ++ [b])); [apply IH|].
    rewrite length_app. simpl. lia.
  - unfold hash_step, hash_acc, char_at. by rewrite nth_middle.
Qed.

Lemma hash_short key :
  strlen key < 2 ^ UINT_BITS ->
  hash key = fold_left hash_acc key 0 mod TABLE_SIZE.
Proof.
  intros Hlen. unfold hash, to_uint. unfold strlen in *.
  rewrite (Z.mod_small (Z.of_nat (length key))) by (split; [lia|done]). rewrite Nat2Z.id.
  by rewrite (hash_loop_fold [] key).
Qed.

Lemma hash_acc_unsigned key acc :
  char_is_signed = false \/ Forall (fun b => byte_val b < 128) key ->
  fold_left hash_acc key acc
  = fold_left (fun acc b => to_size_t (acc * 37 + byte_val b)) key acc.
Proof.
  intros Hk. revert acc. induction key as [|b key IH]; intros acc; [done|].
  simpl. rewrite <- IH.
  - f_equal. unfold hash_acc, char_val. destruct Hk as [->|Hk]; [done|].
    apply Forall_cons in Hk as [Hb _].
    destruct (Z.leb_spec 128 (byte_val b)); [lia|]. by rewrite andb_false_r.
  - destruct Hk as [?|Hk]; [by left|]. right. by apply Forall_cons in Hk as [_ ?].
Qed.

Lemma hash_long n c :
  Z.of_nat n mod 2 ^ UINT_BITS = 0 -> hash (replicate n c) = 0.
Proof.
  intros Hn. unfold hash, to_uint, strlen. rewrite length_replicate, Hn. done.
Qed.
End HashFacts.

Lemma affine_twice_spec (f : Z -> Z) (ab : Z * Z) :
  (forall acc, f acc = to_size_t (fst ab * acc + snd ab)) ->
  forall acc, f (f acc) = to_size_t (fst (affine_twice ab) * acc + snd (affine_twice ab)).
Proof.
  intros Hf acc. destruct ab as [a b]. simpl in *. rewrite !Hf. unfold to_size_t.
  generalize (2 ^ SIZE_BITS). intros m.
  rewrite <- (Zplus_mod_idemp_l (a * ((a * acc + b) mod m))).
  rewrite Zmult_mod_idemp_r, Zplus_mod_idemp_l.
  rewrite Zplus_mod_idemp_r.
  rewrite <- (Zplus_mod_idemp_l ((a * a) mod m * acc)).
  rewrite Zmult_mod_idemp_l, Zplus_mod_idemp_l.
  f_equal. ring.
Qed.

Lemma spec_hash_replicate (c : byte) (k : nat) (acc : Z) :
  fold_left (fun acc b => to_size_t (acc * 37 + byte_val b)) (replicate (2 ^ k) c) acc
  = to_size_t (fst (affine_pow2 c k) * acc + snd (affine_pow2 c k)).
Proof.
  revert acc. induction k as [|k IH]; intros acc.
  - simpl. f_equal. ring.
  - rewrite Nat.pow_succ_r'. replace (2 * 2 ^ k)%nat with (2 ^ k + 2 ^ k)%nat by lia.
    rewrite replicate_add, fold_left_app.
    apply (affine_twice_spec
             (fun acc => fold_left (fun acc b => to_size_t (acc * 37 + byte_val b))
                                   (replicate (2 ^ k) c) acc)).
    apply IH.
Qed.

(** ** Reads of the memory *)

Lemma bind_ret {A B} (c : M A) (k : A -> M B) s a s' :
  c s = Ret a s' -> bind c k s = k a s'.
Proof. unfold bind. by intros ->. Qed.

Lemma load_entry_node s a e :
  heap s !! a = Some (Node e) -> load_entry (Some a) s = Ret e s.
Proof. unfold load_entry. by intros ->. Qed.

Lemma get_key_node s a e :
  heap s !! a = Some (Node e) -> get_key (Some a) s = Ret (key e) s.
Proof. intros E. unfold get_key. by rewrite (bind_ret _ _ _ _ _ (load_entry_node _ _ _ E)). Qed.

Lemma get_value_node s a e :
  heap s !! a = Some (Node e) -> get_value (Some a) s = Ret (value e) s.
Proof. intros E. unfold get_value. by rewrite (bind_ret _ _ _ _ _ (load_entry_node _ _ _ E)). Qed.

Lemma get_next_node s a e :
  heap s !! a = Some (Node e) -> get_next (Some a) s = Ret (next e) s.
Proof. intros E. unfold get_next. by rewrite (bind_ret _ _ _ _ _ (load_entry_node _ _ _ E)). Qed.

Lemma load_string_buf s a n str :
  heap s !! a = Some (Buf n str) -> load_string (Some a) s = Ret str s.
Proof. unfold load_string. by intros ->. Qed.

Lemma store_entry_node s a e0 e :
  heap s !! a = Some (Node e0) ->
  store_entry (Some a) e s = Ret tt (State (<[a := Node e]> (heap s)) (entries s) (mallocs s)).
Proof. unfold store_entry. by intros ->. Qed.

Lemma malloc_eq b s :
  malloc b s =
  if malloc_ok (mallocs s)
  then Ret (Some (fresh (dom (heap s))))
           (State (<[fresh (dom (heap s)) := b]> (heap s)) (entries s) (tail (mallocs s)))
  else Ret NULL (State (heap s) (entries s) (tail (mallocs s))).
Proof. unfold malloc, malloc_ok. by destruct (mallocs s) as [|[] l]. Qed.

Lemma fresh_lookup (h : gmap addr block) : h !! fresh (dom h) = None.
Proof. apply not_elem_of_dom, is_fresh. Qed.

(** ** Chains *)

Lemma cell_in_frame (h h' : gmap addr block) c nxt :
  cell_in h c nxt ->
  (forall a, a ∈ cell_addrs c -> h' !! a = h !! a) ->
  cell_in h' c nxt.
Proof.
  intros (Hn & Hk & Hv) Hf. unfold cell_in.
  rewrite !Hf by (unfold cell_addrs; set_solver). done.
Qed.

Lemma chain_frame (h h' : gmap addr block) p cs :
  chain h p cs ->
  (forall a, a ∈ cs ≫= cell_addrs -> h' !! a = h !! a) ->
  chain h' p cs.
Proof.
  revert p. induction cs as [|c cs IH]; intros p Hc Hf; [done|].
  destruct Hc as (-> & nxt & Hin & Hc). split; [done|]. exists nxt. split.
  - apply (cell_in_frame h); [done|]. intros a Ha. apply Hf. rewrite bind_cons. set_solver.
  - apply IH; [done|]. intros a Ha. apply Hf. rewrite bind_cons. set_solver.
Qed.

Lemma chain_cell_in (h : gmap addr block) p cs c :
  chain h p cs -> c ∈ cs -> exists nxt, cell_in h c nxt.
Proof.
  revert p. induction cs as [|c0 cs IH]; intros p Hc Hin; [by apply elem_of_nil in Hin|].
  destruct Hc as (-> & nxt & Hc0 & Hc).
  apply elem_of_cons in Hin as [->|Hin]; [by eauto|]. by eapply IH.
Qed.

Lemma chain_nodes_dom (h : gmap addr block) p cs :
  chain h p cs -> forall a, a ∈ c_node <$> cs -> a ∈ dom h.
Proof.
  intros Hc a Ha. apply list_elem_of_fmap in Ha as (c & -> & Hin).
  destruct (chain_cell_in _ _ _ _ Hc Hin) as (nxt & Hn & _).
  apply elem_of_dom. by eexists.
Qed.

Lemma chain_length (h : gmap addr block) p cs :
  chain h p cs -> NoDup (c_node <$> cs) -> (length cs <= size h)%nat.
Proof.
  intros Hc Hnd. rewrite <- (length_fmap c_node cs).
  rewrite <- (size_list_to_set (C := gset addr)) by done.
  rewrite <- (size_dom (D := gset addr) h). apply subseteq_size.
  intros a Ha. apply elem_of_list_to_set in Ha. by eapply chain_nodes_dom.
Qed.

Lemma chain_null (h : gmap addr block) cs : chain h NULL cs -> cs = [].
Proof. destruct cs as [|c cs]; [done|]. by intros [? _]. Qed.

(** The walks along a chain. *)

Lemma ht_get_loop_chain k cs : forall fuel p s,
  chain (heap s) p cs ->
  Forall (fun c => is_cstring (c_key c)) cs -> is_cstring k ->
  (length cs < fuel)%nat ->
  ht_get_loop fuel k p s = Ret (c_vaddr <$> find_cell k cs) s.
Proof.
  induction cs as [|c cs IH]; intros fuel p s Hc Hcs Hkey Hfuel;
    (destruct fuel as [|fuel]; [simpl in Hfuel; lia|]).
  - simpl in Hc. subst p. done.
  - destruct Hc as (-> & nxt & (Hn & Hk & Hv) & Hc).
    apply Forall_cons in Hcs as [Hck Hcs].
    cbn [ht_get_loop].
    rewrite (bind_ret _ _ _ _ _ (get_key_node _ _ _ Hn)). cbn [key].
    rewrite (bind_ret _ _ _ _ _ (load_string_buf _ _ _ _ Hk)).
    rewrite strcmp_eqb by done. unfold find_cell. cbn [List.find].
    case_bool_decide.
    + by rewrite (get_value_node _ _ _ Hn).
    + rewrite (bind_ret _ _ _ _ _ (get_next_node _ _ _ Hn)). cbn [next].
      apply IH; try done. simpl in Hfuel. lia.
Qed.

Lemma print_chain_chain cs : forall fuel p s,
  chain (heap s) p cs -> (length cs < fuel)%nat ->
  print_chain fuel p s = Ret (cell_kv <$> cs) s.
Proof.
  induction cs as [|c cs IH]; intros fuel p s Hc Hfuel;
    (destruct fuel as [|fuel]; [simpl in Hfuel; lia|]).
  - simpl in Hc. subst p. done.
  - destruct Hc as (-> & nxt & (Hn & Hk & Hv) & Hc).
    cbn [print_chain].
    rewrite (bind_ret _ _ _ _ _ (get_key_node _ _ _ Hn)). cbn [key].
    rewrite (bind_ret _ _ _ _ _ (load_string_buf _ _ _ _ Hk)).
    rewrite (bind_ret _ _ _ _ _ (get_value_node _ _ _ Hn)). cbn [value].
    rewrite (bind_ret _ _ _ _ _ (load_string_buf _ _ _ _ Hv)).
    rewrite (bind_ret _ _ _ _ _ (get_next_node _ _ _ Hn)). cbn [next].
    rewrite (bind_ret _ _ _ _ _ (IH fuel nxt s Hc ltac:(simpl in Hfuel; lia))).
    done.
Qed.

Lemma ht_set_loop_chain k v cs : forall fuel a s,
  chain (heap s) (Some a) cs ->
  Forall (fun c => is_cstring (c_key c)) cs -> is_cstring k ->
  (length cs <= fuel)%nat ->
  ht_set_loop fuel k v (Some a) s =
  match find_cell k cs with
  | Some c => ht_set_replace (Some (c_node c)) v s
  | None => ht_set_append (c_node <$> last cs) k v s
  end.
Proof.
  induction cs as [|c cs IH]; intros fuel a s Hc Hcs Hkey Hfuel; [done|].
  destruct fuel as [|fuel]; [simpl in Hfuel; lia|].
  destruct Hc as (Ha & nxt & (Hn & Hk & Hv) & Hc). injection Ha as ->.
  apply Forall_cons in Hcs as [Hck Hcs].
  cbn [ht_set_loop].
  rewrite (bind_ret _ _ _ _ _ (get_key_node _ _ _ Hn)). cbn [key].
  rewrite (bind_ret _ _ _ _ _ (load_string_buf _ _ _ _ Hk)).
  rewrite strcmp_eqb by done. unfold find_cell. cbn [List.find].
  case_bool_decide; [done|].
  rewrite (bind_ret _ _ _ _ _ (get_next_node _ _ _ Hn)). cbn [next].
  destruct nxt as [a'|].
  - rewrite (IH fuel a' s) by (try done; simpl in Hfuel; lia).
    destruct cs as [|c' cs]; [done|]. done.
  - apply chain_null in Hc. subst cs. done.
Qed.

(** ** Writes of the memory *)

Lemma bind_ret_l {A B} (a : A) (k : A -> M B) s : bind (ret a) k s = k a s.
Proof. done. Qed.

Lemma bind_assoc {A B C} (c : M A) (k1 : A -> M B) (k2 : B -> M C) s :
  bind (bind c k1) k2 s = bind c (fun a => bind (k1 a) k2) s.
Proof. unfold bind. by destruct (c s). Qed.

Lemma set_key_node s a e q :
  heap s !! a = Some (Node e) ->
  set_key (Some a) q s
  = Ret tt (State (<[a := Node (Entry_t q (value e) (next e))]> (heap s))
                  (entries s) (mallocs s)).
Proof.
  intros E. unfold set_key. rewrite (bind_ret _ _ _ _ _ (load_entry_node _ _ _ E)).
  by apply store_entry_node with e.
Qed.

Lemma set_value_node s a e q :
  heap s !! a = Some (Node e) ->
  set_value (Some a) q s
  = Ret tt (State (<[a := Node (Entry_t (key e) q (next e))]> (heap s))
                  (entries s) (mallocs s)).
Proof.
  intros E. unfold set_value. rewrite (bind_ret _ _ _ _ _ (load_entry_node _ _ _ E)).
  by apply store_entry_node with e.
Qed.

Lemma set_next_node s a e q :
  heap s !! a = Some (Node e) ->
  set_next (Some a) q s
  = Ret tt (State (<[a := Node (Entry_t (key e) (value e) q)]> (heap s))
                  (entries s) (mallocs s)).
Proof.
  intros E. unfold set_next. rewrite (bind_ret _ _ _ _ _ (load_entry_node _ _ _ E)).
  by apply store_entry_node with e.
Qed.

Lemma strcpy_buf s a n old src :
  heap s !! a = Some (Buf n old) -> strlen src + 1 <= n ->
  strcpy (Some a) src s
  = Ret tt (State (<[a := Buf n src]> (heap s)) (entries s) (mallocs s)).
Proof.
  intros E Hn. unfold strcpy. rewrite E.
  by destruct (Z.leb_spec (strlen src + 1) n); [|lia].
Qed.

Lemma free_block s a b :
  heap s !! a = Some b ->
  free (Some a) s = Ret tt (State (delete a (heap s)) (entries s) (mallocs s)).
Proof. unfold free. by intros ->. Qed.

(** Lookups in a heap built by insertions and deletions at addresses known
    to differ. *)
Ltac heap_lookup :=
  cbn [heap entries mallocs];
  repeat first
    [ rewrite lookup_insert_eq
    | rewrite lookup_insert_ne by done
    | rewrite lookup_delete_ne by done
    | rewrite lookup_delete_eq ];
  first [ reflexivity | eassumption | done ].

(** One step of a computation whose first action is a read or a write of a
    block that is there. *)
Ltac exec_step :=
  first
    [ erewrite (bind_ret (get_key _)) by (apply get_key_node; heap_lookup)
    | erewrite (bind_ret (get_value _)) by (apply get_value_node; heap_lookup)
    | erewrite (bind_ret (get_next _)) by (apply get_next_node; heap_lookup)
    | erewrite (bind_ret (set_key _ _)) by (apply set_key_node; heap_lookup)
    | erewrite (bind_ret (set_value _ _)) by (apply set_value_node; heap_lookup)
    | erewrite (bind_ret (set_next _ _)) by (apply set_next_node; heap_lookup)
    | erewrite (bind_ret (strcpy _ _)) by (eapply strcpy_buf; [heap_lookup | lia])
    | erewrite (bind_ret (free _)) by (eapply free_block; heap_lookup)
    | erewrite (bind_ret (load_string _)) by (eapply load_string_buf; heap_lookup)
    | rewrite bind_ret_l
    | rewrite bind_assoc ];
  cbn [heap entries mallocs key value next].

Lemma new_cell_fresh h k v :
  let c := new_cell h k v in
  h !! c_node c = None /\ h !! c_kaddr c = None /\ h !! c_vaddr c = None /\
  c_node c <> c_kaddr c /\ c_node c <> c_vaddr c /\ c_kaddr c <> c_vaddr c.
Proof.
  simpl.
  pose proof (is_fresh (dom h)) as H1.
  pose proof (is_fresh ({[fresh (dom h)]} ∪ dom h)) as H2.
  pose proof (is_fresh ({[fresh ({[fresh (dom h)]} ∪ dom h)]} ∪ ({[fresh (dom h)]} ∪ dom h))) as H3.
  rewrite <- !not_elem_of_dom. set_solver.
Qed.

Lemma ht_create_entry_some k v s :
  malloc_ok (mallocs s) = true ->
  malloc_ok (tail (mallocs s)) = true ->
  malloc_ok (tail (tail (mallocs s))) = true ->
  ht_create_entry k v s
  = Ret (Some (c_node (new_cell (heap s) k v)))
        (State (cell_blocks (new_cell (heap s) k v) NULL (heap s)) (entries s)
               (drop 3 (mallocs s))).
Proof.
  intros O1 O2 O3.
  destruct (new_cell_fresh (heap s) k v) as (F1 & F2 & F3 & N12 & N13 & N23).
  unfold new_cell in *. cbn [c_node c_kaddr c_vaddr c_key c_val] in *.
  set (a1 := fresh (dom (heap s))) in *.
  set (a2 := fresh ({[a1]} ∪ dom (heap s))) in *.
  set (a3 := fresh ({[a2]} ∪ ({[a1]} ∪ dom (heap s)))) in *.
  unfold ht_create_entry.
  unfold bind at 1. rewrite malloc_eq, O1. fold a1.
  unfold bind at 1. rewrite malloc_eq. cbn [heap entries mallocs]. rewrite O2.
  rewrite dom_insert_L. fold a2.
  exec_step.
  unfold bind at 1. rewrite malloc_eq. cbn [heap entries mallocs]. rewrite O3.
  rewrite !dom_insert_L.
  replace ({[a1]} ∪ ({[a2]} ∪ ({[a1]} ∪ dom (heap s)))) with ({[a2]} ∪ ({[a1]} ∪ dom (heap s)))
    by set_solver.
  fold a3.
  repeat exec_step.
  unfold ret. f_equal. f_equal.
  - unfold cell_blocks. cbn [c_node c_kaddr c_vaddr c_key c_val].
    apply map_eq. intros i.
    destruct (decide (i = a1)) as [->|]; [heap_lookup|].
    destruct (decide (i = a2)) as [->|]; [heap_lookup|].
    destruct (decide (i = a3)) as [->|]; heap_lookup.
  - by destruct (mallocs s) as [|? [|? [|? ?]]].
Qed.

Lemma ht_create_entry_fault k v s :
  malloc_ok (mallocs s) = false -> ht_create_entry k v s = Fault.
Proof.
  intros O1. unfold ht_create_entry.
  unfold bind at 1. rewrite malloc_eq, O1.
  unfold bind at 1. rewrite malloc_eq. cbn [heap entries mallocs].
  destruct (malloc_ok (tail (mallocs s))); reflexivity.
Qed.

Lemma ht_create_entry_null k v s :
  malloc_ok (mallocs s) = true ->
  malloc_ok (tail (mallocs s)) && malloc_ok (tail (tail (mallocs s))) = false ->
  ht_create_entry k v s
  = Ret NULL (State (heap s) (entries s) (drop 3 (mallocs s))).
Proof.
  intros O1 O23.
  assert (Hl : tail (tail (tail (mallocs s))) = drop 3 (mallocs s))
    by (by destruct (mallocs s) as [|? [|? [|? ?]]]).
  pose proof (fresh_lookup (heap s)) as F1.
  set (a1 := fresh (dom (heap s))) in *.
  unfold ht_create_entry.
  unfold bind at 1. rewrite malloc_eq, O1. fold a1.
  unfold bind at 1. rewrite malloc_eq. cbn [heap entries mallocs].
  destruct (malloc_ok (tail (mallocs s))) eqn:O2.
  - simpl in O23.
    match goal with |- context [fresh (dom ?h)] =>
      pose proof (fresh_lookup h) as F2; set (a2 := fresh (dom h)) in * end.
    apply lookup_insert_None in F2 as [F2 N12].
    exec_step.
    unfold bind at 1. rewrite malloc_eq. cbn [heap entries mallocs]. rewrite O23.
    repeat exec_step.
    unfold ret. rewrite Hl. f_equal. f_equal.
    apply map_eq. intros i.
    destruct (decide (i = a1)) as [->|]; [heap_lookup|].
    destruct (decide (i = a2)) as [->|]; heap_lookup.
  - exec_step.
    unfold bind at 1. rewrite malloc_eq. cbn [heap entries mallocs].
    destruct (malloc_ok (tail (tail (mallocs s)))) eqn:O3.
    + match goal with |- context [fresh (dom ?h)] =>
        pose proof (fresh_lookup h) as F3; set (a3 := fresh (dom h)) in * end.
      apply lookup_insert_None in F3 as [F3 N13].
      apply lookup_insert_None in F3 as [F3 _].
      repeat exec_step.
      unfold ret. rewrite Hl. f_equal. f_equal.
      apply map_eq. intros i.
      destruct (decide (i = a1)) as [->|]; [heap_lookup|].
      destruct (decide (i = a3)) as [->|]; heap_lookup.
    + repeat exec_step.
      unfold ret. rewrite Hl. f_equal. f_equal.
      apply map_eq. intros i.
      destruct (decide (i = a1)) as [->|]; heap_lookup.
Qed.

Lemma lookup_None_Some_ne (h : gmap addr block) a b x :
  h !! a = None -> h !! b = Some x -> a <> b.
Proof. congruence. Qed.

Lemma ht_set_replace_null p v s :
  malloc_ok (mallocs s) = false ->
  ht_set_replace p v s = Ret NULL (State (heap s) (entries s) (tail (mallocs s))).
Proof.
  intros O1. unfold ht_set_replace. unfold bind at 1. by rewrite malloc_eq, O1.
Qed.

Lemma ht_set_replace_some c nxt v s :
  cell_in (heap s) c nxt -> NoDup (cell_addrs c) ->
  malloc_ok (mallocs s) = true ->
  ht_set_replace (Some (c_node c)) v s
  = Ret (Some (c_node c))
        (State (cell_blocks (new_value (heap s) v c) nxt (delete (c_vaddr c) (heap s)))
               (entries s) (tail (mallocs s))).
Proof.
  intros (Hn & Hk & Hv) Hnd O1.
  unfold cell_addrs in Hnd. apply NoDup_cons in Hnd as [N1 Hnd].
  apply NoDup_cons in Hnd as [N2 _].
  apply not_elem_of_cons in N1 as [N12 N1]. apply not_elem_of_cons in N1 as [N13 _].
  apply not_elem_of_cons in N2 as [N23 _].
  pose proof (fresh_lookup (heap s)) as F.
  unfold new_value, cell_blocks. cbn [c_node c_kaddr c_vaddr c_key c_val].
  set (a := fresh (dom (heap s))) in *.
  pose proof (lookup_None_Some_ne _ _ _ _ F Hn) as Na1.
  pose proof (lookup_None_Some_ne _ _ _ _ F Hk) as Na2.
  pose proof (lookup_None_Some_ne _ _ _ _ F Hv) as Na3.
  unfold ht_set_replace. unfold bind at 1. rewrite malloc_eq, O1. fold a.
  repeat exec_step.
  unfold ret. f_equal. f_equal.
  apply map_eq. intros i.
  destruct (decide (i = a)) as [->|]; [heap_lookup|].
  destruct (decide (i = c_node c)) as [->|]; [heap_lookup|].
  destruct (decide (i = c_kaddr c)) as [->|]; [heap_lookup|].
  destruct (decide (i = c_vaddr c)) as [->|]; heap_lookup.
Qed.

Lemma ht_set_append_fault p k v s :
  malloc_ok (mallocs s) = false -> ht_set_append p k v s = Fault.
Proof.
  intros O1. unfold ht_set_append, bind. by rewrite ht_create_entry_fault.
Qed.

Lemma ht_set_append_null c k v s :
  cell_in (heap s) c NULL ->
  malloc_ok (mallocs s) = true ->
  malloc_ok (tail (mallocs s)) && malloc_ok (tail (tail (mallocs s))) = false ->
  ht_set_append (Some (c_node c)) k v s
  = Ret NULL (State (heap s) (entries s) (drop 3 (mallocs s))).
Proof.
  intros (Hn & Hk & Hv) O1 O23. unfold ht_set_append.
  rewrite (bind_ret _ _ _ _ _ (ht_create_entry_null _ _ _ O1 O23)).
  repeat exec_step.
  erewrite get_next_node by heap_lookup. cbn [heap entries mallocs next].
  f_equal. f_equal. by apply insert_id.
Qed.

Lemma ht_set_append_some c k v s :
  cell_in (heap s) c NULL -> NoDup (cell_addrs c) ->
  malloc_ok (mallocs s) = true ->
  malloc_ok (tail (mallocs s)) = true ->
  malloc_ok (tail (tail (mallocs s))) = true ->
  ht_set_append (Some (c_node c)) k v s
  = Ret (Some (c_node (new_cell (heap s) k v)))
        (State (cell_blocks c (Some (c_node (new_cell (heap s) k v)))
                            (cell_blocks (new_cell (heap s) k v) NULL (heap s)))
               (entries s) (drop 3 (mallocs s))).
Proof.
  intros (Hn & Hk & Hv) Hnd O1 O2 O3. unfold ht_set_append.
  unfold cell_addrs in Hnd. apply NoDup_cons in Hnd as [N1 Hnd].
  apply NoDup_cons in Hnd as [N2 _].
  apply not_elem_of_cons in N1 as [N12 N1]. apply not_elem_of_cons in N1 as [N13 _].
  apply not_elem_of_cons in N2 as [N23 _].
  rewrite (bind_ret _ _ _ _ _ (ht_create_entry_some _ _ _ O1 O2 O3)).
  destruct (new_cell_fresh (heap s) k v) as (F1 & F2 & F3 & M12 & M13 & M23).
  set (cn := new_cell (heap s) k v) in *.
  pose proof (lookup_None_Some_ne _ _ _ _ F1 Hn).
  pose proof (lookup_None_Some_ne _ _ _ _ F2 Hn).
  pose proof (lookup_None_Some_ne _ _ _ _ F3 Hn).
  pose proof (lookup_None_Some_ne _ _ _ _ F1 Hk).
  pose proof (lookup_None_Some_ne _ _ _ _ F2 Hk).
  pose proof (lookup_None_Some_ne _ _ _ _ F3 Hk).
  pose proof (lookup_None_Some_ne _ _ _ _ F1 Hv).
  pose proof (lookup_None_Some_ne _ _ _ _ F2 Hv).
  pose proof (lookup_None_Some_ne _ _ _ _ F3 Hv).
  unfold cell_blocks at 1 2.
  repeat exec_step.
  erewrite get_next_node by heap_lookup. cbn [heap entries mallocs next].
  f_equal. f_equal. unfold cell_blocks.
  apply map_eq. intros i.
  destruct (decide (i = c_vaddr c)) as [->|]; [heap_lookup|].
  destruct (decide (i = c_kaddr c)) as [->|]; [heap_lookup|].
  destruct (decide (i = c_node c)) as [->|]; [heap_lookup|].
  destruct (decide (i = c_vaddr cn)) as [->|]; [heap_lookup|].
  destruct (decide (i = c_kaddr cn)) as [->|]; [heap_lookup|].
  destruct (decide (i = c_node cn)) as [->|]; heap_lookup.
Qed.

(** ** The blocks of a cell *)

Lemma cell_blocks_lookup_ne c nxt (h : gmap addr block) a :
  a ∉ cell_addrs c -> cell_blocks c nxt h !! a = h !! a.
Proof.
  unfold cell_addrs, cell_blocks. intros Ha.
  rewrite !lookup_insert_ne by set_solver. done.
Qed.

Lemma cell_blocks_cell_in c nxt (h : gmap addr block) :
  NoDup (cell_addrs c) -> cell_in (cell_blocks c nxt h) c nxt.
Proof.
  unfold cell_addrs, cell_blocks, cell_in. intros Hnd.
  apply NoDup_cons in Hnd as [N1 Hnd]. apply NoDup_cons in Hnd as [N2 _].
  apply not_elem_of_cons in N1 as [N12 N1]. apply not_elem_of_cons in N1 as [N13 _].
  apply not_elem_of_cons in N2 as [N23 _].
  repeat split.
  - rewrite !lookup_insert_ne by done. by rewrite lookup_insert_eq.
  - rewrite lookup_insert_ne by done. by rewrite lookup_insert_eq.
  - by rewrite lookup_insert_eq.
Qed.

Lemma cell_in_dom (h : gmap addr block) c nxt a :
  cell_in h c nxt -> a ∈ cell_addrs c -> is_Some (h !! a).
Proof.
  intros (Hn & Hk & Hv). unfold cell_addrs. rewrite !elem_of_cons, elem_of_nil.
  intros [->|[->|[->|[]]]]; by eexists.
Qed.

Lemma chain_addr_dom (h : gmap addr block) p cs a :
  chain h p cs -> a ∈ cs ≫= cell_addrs -> is_Some (h !! a).
Proof.
  intros Hc Ha. apply list_elem_of_bind in Ha as (c & Ha & Hin).
  destruct (chain_cell_in _ _ _ _ Hc Hin) as (nxt & Hci). by eapply cell_in_dom.
Qed.

Lemma chain_last_null (h : gmap addr block) p cs c nxt :
  chain h p (cs ++ [c]) -> cell_in h c nxt -> nxt = NULL.
Proof.
  revert p. induction cs as [|c0 cs IH]; intros p Hc Hci.
  - destruct Hc as (_ & nxt' & (Hn' & _) & Hc). simpl in Hc.
    destruct Hci as (Hn & _). congruence.
  - destruct Hc as (_ & nxt' & _ & Hc). by eapply IH.
Qed.

(** Cells of a list whose addresses do not repeat. *)
Lemma cells_addrs_disjoint (cs : list cell) c1 c2 a :
  NoDup (cs ≫= cell_addrs) -> c1 ∈ cs -> c2 ∈ cs ->
  a ∈ cell_addrs c1 -> a ∈ cell_addrs c2 -> c1 = c2.
Proof.
  induction cs as [|c cs IH]; intros Hnd H1 H2 Ha1 Ha2; [by apply elem_of_nil in H1|].
  rewrite bind_cons in Hnd. apply NoDup_app in Hnd as (_ & Hd & Hnd).
  apply elem_of_cons in H1 as [->|H1]; apply elem_of_cons in H2 as [->|H2]; try done.
  - destruct (Hd a Ha1). apply list_elem_of_bind. eauto.
  - destruct (Hd a Ha2). apply list_elem_of_bind. eauto.
  - by apply IH.
Qed.

Lemma cells_addrs_NoDup (cs : list cell) c :
  NoDup (cs ≫= cell_addrs) -> c ∈ cs -> NoDup (cell_addrs c).
Proof.
  induction cs as [|c0 cs IH]; intros Hnd Hin; [by apply elem_of_nil in Hin|].
  rewrite bind_cons in Hnd. apply NoDup_app in Hnd as (Hc0 & _ & Hnd).
  apply elem_of_cons in Hin as [->|Hin]; [done|by apply IH].
Qed.

Lemma cells_key_inj (cs : list cell) c1 c2 :
  NoDup (c_key <$> cs) -> c1 ∈ cs -> c2 ∈ cs -> c_key c1 = c_key c2 -> c1 = c2.
Proof.
  induction cs as [|c cs IH]; intros Hnd H1 H2 E; [by apply elem_of_nil in H1|].
  rewrite fmap_cons in Hnd. apply NoDup_cons in Hnd as [Hc Hnd].
  apply elem_of_cons in H1 as [->|H1]; apply elem_of_cons in H2 as [->|H2]; try done.
  - destruct Hc. rewrite E. by apply list_elem_of_fmap_2.
  - destruct Hc. rewrite <- E. by apply list_elem_of_fmap_2.
  - by apply IH.
Qed.

Lemma find_cell_Some k cs c :
  find_cell k cs = Some c -> c ∈ cs /\ c_key c = k.
Proof.
  unfold find_cell. intros E. apply find_some in E as [Hin E].
  apply list_elem_of_In in Hin. by apply bool_decide_eq_true in E.
Qed.

Lemma find_cell_None k cs :
  find_cell k cs = None -> k ∉ c_key <$> cs.
Proof.
  unfold find_cell. intros E Hin. apply list_elem_of_fmap in Hin as (c & -> & Hin).
  apply list_elem_of_In in Hin.
  pose proof (find_none _ _ E c Hin) as Hc. simpl in Hc.
  by apply bool_decide_eq_false in Hc.
Qed.

Lemma find_cell_filter k (P : cell -> Prop) `{!forall c, Decision (P c)} cs :
  (forall c, c_key c = k -> P c) ->
  find_cell k (filter P cs) = find_cell k cs.
Proof.
  intros HP. unfold find_cell. induction cs as [|c cs IH]; [done|].
  rewrite filter_cons. simpl. case_bool_decide as E.
  - rewrite decide_True by auto. simpl. by rewrite bool_decide_eq_true_2.
  - destruct (decide (P c)); [|done]. simpl. by rewrite bool_decide_eq_false_2.
Qed.

Section Repr.
Context `{Platform}.

Lemma find_cell_slot k cells :
  find_cell k (slot_cells (hash k) cells) = find_cell k cells.
Proof. apply find_cell_filter. by intros c ->. Qed.

Lemma repr_cell_in s cells c :
  ht_repr s cells -> c ∈ cells -> exists nxt, cell_in (heap s) c nxt.
Proof.
  intros Hr Hin.
  apply (chain_cell_in _ _ _ _ (repr_chain _ _ Hr _ (hash_range (c_key c)))).
  by apply list_elem_of_filter.
Qed.

Lemma repr_addr_dom s cells a :
  ht_repr s cells -> a ∈ cells ≫= cell_addrs -> is_Some (heap s !! a).
Proof.
  intros Hr Ha. apply list_elem_of_bind in Ha as (c & Ha & Hin).
  destruct (repr_cell_in _ _ _ Hr Hin) as (nxt & Hci). by eapply cell_in_dom.
Qed.

Lemma slot_cells_subseteq i cells c : c ∈ slot_cells i cells -> c ∈ cells.
Proof. unfold slot_cells. rewrite list_elem_of_filter. tauto. Qed.

Lemma slot_cells_NoDup i cells :
  NoDup (cells ≫= cell_addrs) -> NoDup (slot_cells i cells ≫= cell_addrs).
Proof.
  unfold slot_cells. induction cells as [|c cells IH]; intros Hnd; [constructor|].
  rewrite bind_cons in Hnd. apply NoDup_app in Hnd as (Hc & Hd & Hnd).
  rewrite filter_cons. case_decide; [|by apply IH].
  rewrite bind_cons. apply NoDup_app. split_and!; [done| |by apply IH].
  intros a Ha Hin. apply (Hd a Ha).
  apply list_elem_of_bind in Hin as (c' & ? & Hin). apply list_elem_of_bind.
  exists c'. split; [done|]. apply list_elem_of_filter in Hin. tauto.
Qed.

Lemma slot_cells_length s cells i :
  ht_repr s cells -> 0 <= i < TABLE_SIZE ->
  (length (slot_cells i cells) < walk_bound s)%nat.
Proof.
  intros Hr Hi. unfold walk_bound.
  pose proof (chain_length _ _ _ (repr_chain _ _ Hr _ Hi)) as Hl.
  cut (NoDup (c_node <$> slot_cells i cells)); [intros Hn; specialize (Hl Hn); lia|].
  pose proof (slot_cells_NoDup i cells (repr_addrs _ _ Hr)) as Hnd.
  clear -Hnd. induction (slot_cells i cells) as [|c cs IH]; [constructor|].
  rewrite bind_cons in Hnd. apply NoDup_app in Hnd as (Hc & Hd & Hnd).
  rewrite fmap_cons. apply NoDup_cons. split; [|by apply IH].
  intros Hin. apply list_elem_of_fmap in Hin as (c' & E & Hin).
  apply (Hd (c_node c)); [unfold cell_addrs; set_solver|].
  apply list_elem_of_bind. exists c'. split; [|done]. rewrite E. unfold cell_addrs. set_solver.
Qed.
End Repr.

(** ** The table after [ht_set] *)

Lemma new_cell_NoDup h k v : NoDup (cell_addrs (new_cell h k v)).
Proof.
  destruct (new_cell_fresh h k v) as (_ & _ & _ & N12 & N13 & N23).
  unfold cell_addrs. repeat constructor; set_solver.
Qed.

Lemma new_cell_lookup (h : gmap addr block) k v a :
  a ∈ cell_addrs (new_cell h k v) -> h !! a = None.
Proof.
  destruct (new_cell_fresh h k v) as (F1 & F2 & F3 & _).
  unfold cell_addrs. rewrite !elem_of_cons, elem_of_nil. by intros [->|[->|[->|[]]]].
Qed.

Lemma new_value_NoDup (h : gmap addr block) v c nxt :
  cell_in h c nxt -> NoDup (cell_addrs c) -> NoDup (cell_addrs (new_value h v c)).
Proof.
  intros (Hn & Hk & Hv) Hnd. pose proof (fresh_lookup h) as F.
  pose proof (lookup_None_Some_ne _ _ _ _ F Hn).
  pose proof (lookup_None_Some_ne _ _ _ _ F Hk).
  unfold cell_addrs in *. cbn [new_value c_node c_kaddr c_vaddr].
  apply NoDup_cons in Hnd as [N1 Hnd]. apply NoDup_cons in Hnd as [N2 _].
  repeat constructor; set_solver.
Qed.

Lemma chain_replace (h : gmap addr block) p cs c nxt v :
  chain h p cs -> cell_in h c nxt -> NoDup (cell_addrs c) ->
  (forall x, x ∈ cs ->
     x = c \/ (c_key x <> c_key c /\ forall a, a ∈ cell_addrs x -> a ∉ cell_addrs c)) ->
  chain (cell_blocks (new_value h v c) nxt (delete (c_vaddr c) h)) p
        (set_cells h (c_key c) v cs).
Proof.
  intros Hc Hci Hnd. revert p Hc.
  induction cs as [|x cs IH]; intros p Hc Hcs; [done|].
  destruct Hc as (-> & nxt0 & Hx & Hc).
  unfold set_cells. rewrite fmap_cons. fold (set_cells h (c_key c) v cs).
  destruct (Hcs x (list_elem_of_here _ _)) as [->|[Hk Hd]].
  - rewrite decide_True by done. split; [done|]. exists nxt. split.
    + apply cell_blocks_cell_in. by eapply new_value_NoDup.
    + assert (nxt0 = nxt) as -> by (destruct Hx as (? & _), Hci as (? & _); congruence).
      apply IH; [done|]. intros y Hy. by apply Hcs, list_elem_of_further.
  - rewrite decide_False by done. split; [done|]. exists nxt0. split.
    + apply (cell_in_frame h); [done|]. intros a Ha.
      destruct (cell_in_dom _ _ _ _ Hx Ha) as [b Hb].
      pose proof (lookup_None_Some_ne _ _ _ _ (fresh_lookup h) Hb).
      specialize (Hd a Ha). unfold cell_addrs in Hd.
      rewrite cell_blocks_lookup_ne
        by (unfold cell_addrs; cbn [new_value c_node c_kaddr c_vaddr]; set_solver).
      apply lookup_delete_ne. set_solver.
    + apply IH; [done|]. intros y Hy. by apply Hcs, list_elem_of_further.
Qed.

Section Preservation.
Context `{Platform}.

Lemma slot_cells_set_cells i h k v cells :
  slot_cells i (set_cells h k v cells) = set_cells h k v (slot_cells i cells).
Proof.
  unfold slot_cells, set_cells. induction cells as [|c cells IH]; [done|].
  rewrite fmap_cons, !filter_cons.
  assert (E : c_key (if decide (c_key c = k) then new_value h v c else c) = c_key c)
    by (by case_decide).
  rewrite E. destruct (decide (hash (c_key c) = i)); [|done].
  by rewrite fmap_cons, IH.
Qed.

Lemma set_cells_keys h k v cells : c_key <$> set_cells h k v cells = c_key <$> cells.
Proof.
  unfold set_cells. rewrite <- list_fmap_compose. apply list_fmap_ext.
  intros i c _. simpl. by case_decide.
Qed.

Lemma ht_repr_replace s cells c nxt v ml :
  ht_repr s cells -> c ∈ cells -> cell_in (heap s) c nxt ->
  ht_repr (State (cell_blocks (new_value (heap s) v c) nxt (delete (c_vaddr c) (heap s)))
                 (entries s) ml)
          (set_cells (heap s) (c_key c) v cells).
Proof.
  intros Hr Hin Hci.
  pose proof (cells_addrs_NoDup _ _ (repr_addrs _ _ Hr) Hin) as Hnd.
  assert (Hother : forall x, x ∈ cells ->
    x = c \/ (c_key x <> c_key c /\ forall a, a ∈ cell_addrs x -> a ∉ cell_addrs c)).
  { intros x Hx. destruct (decide (c_key x = c_key c)) as [E|Hne].
    - left. by apply (cells_key_inj cells); [apply Hr|..].
    - right. split; [done|]. intros a Ha Ha'. apply Hne. f_equal.
      by apply (cells_addrs_disjoint cells _ _ a); [apply Hr|..]. }
  split; cbn [heap entries mallocs].
  - intros i Hi. rewrite slot_cells_set_cells.
    apply chain_replace; [by apply Hr|done|done|].
    intros x Hx. by apply Hother, (slot_cells_subseteq i).
  - apply NoDup_bind.
    + intros x1 x2 a Hx1 Hx2 Ha1 Ha2.
      apply list_elem_of_fmap in Hx1 as (y1 & -> & Hy1).
      apply list_elem_of_fmap in Hx2 as (y2 & -> & Hy2).
      assert (Hfresh : forall y, y ∈ cells -> fresh (dom (heap s)) ∉ cell_addrs y).
      { intros y Hy Hf.
        destruct (repr_addr_dom s cells (fresh (dom (heap s))) Hr) as [b Hb].
        - apply list_elem_of_bind. eauto.
        - by rewrite fresh_lookup in Hb. }
      assert (Hnew : forall a, a ∈ cell_addrs (new_value (heap s) v c) ->
                a = fresh (dom (heap s)) \/ a ∈ cell_addrs c).
      { intros a'. unfold cell_addrs. cbn [new_value c_node c_kaddr c_vaddr]. set_solver. }
      destruct (Hother y1 Hy1) as [->|[Hk1 Hd1]], (Hother y2 Hy2) as [->|[Hk2 Hd2]].
      * done.
      * rewrite decide_True in * by done. rewrite decide_False in * by done.
        destruct (Hnew a Ha1) as [->|Ha]; [by destruct (Hfresh y2 Hy2)|].
        by destruct (Hd2 a Ha2).
      * rewrite (decide_True (P := c_key c = c_key c)) in * by done.
        rewrite decide_False in * by done.
        destruct (Hnew a Ha2) as [->|Ha]; [by destruct (Hfresh y1 Hy1)|].
        by destruct (Hd1 a Ha1).
      * rewrite !decide_False in * by done. f_equal.
        by apply (cells_addrs_disjoint cells _ _ a); [apply Hr|..].
    + intros x Hx. apply list_elem_of_fmap in Hx as (y & -> & Hy).
      case_decide.
      * destruct (repr_cell_in _ _ _ Hr Hy) as (nxt' & Hy').
        eapply new_value_NoDup; [done|]. by apply (cells_addrs_NoDup cells); [apply Hr|].
      * by apply (cells_addrs_NoDup cells); [apply Hr|].
    + apply (NoDup_fmap_1 c_key). rewrite set_cells_keys. apply Hr.
  - rewrite set_cells_keys. apply Hr.
  - unfold set_cells. apply Forall_fmap. eapply Forall_impl; [apply Hr|].
    intros x Hx. simpl. by case_decide.
Qed.
End Preservation.

Lemma chain_snoc (h : gmap addr block) cs : forall p cl cn,
  chain h p (cs ++ [cl]) -> NoDup ((cs ++ [cl]) ≫= cell_addrs) ->
  (forall a, a ∈ cell_addrs cn -> h !! a = None) -> NoDup (cell_addrs cn) ->
  chain (cell_blocks cl (Some (c_node cn)) (cell_blocks cn NULL h)) p
        ((cs ++ [cl]) ++ [cn]).
Proof.
  induction cs as [|x cs IH]; intros p cl cn Hc Hnd Hfresh Hcn.
  - destruct Hc as (-> & nxt0 & Hcl & Hc). simpl in Hc. subst nxt0.
    change (([] ++ [cl]) ≫= cell_addrs) with (cell_addrs cl) in Hnd.
    split; [done|]. exists (Some (c_node cn)). split; [by apply cell_blocks_cell_in|].
    split; [done|]. exists NULL. split; [|done].
    apply (cell_in_frame (cell_blocks cn NULL h)); [by apply cell_blocks_cell_in|].
    intros a Ha. apply cell_blocks_lookup_ne. intros Ha'.
    destruct (cell_in_dom _ _ _ _ Hcl Ha') as [b Hb]. rewrite (Hfresh a Ha) in Hb. done.
  - destruct Hc as (-> & nxt0 & Hx & Hc).
    change ((x :: cs) ++ [cl]) with (x :: (cs ++ [cl])) in Hnd.
    rewrite bind_cons in Hnd. apply NoDup_app in Hnd as (_ & Hd & Hnd).
    split; [done|]. exists nxt0. split; [|by apply IH].
    apply (cell_in_frame h); [done|]. intros a Ha.
    rewrite !cell_blocks_lookup_ne; [done| |].
    + intros Ha'. destruct (cell_in_dom _ _ _ _ Hx Ha) as [b Hb].
      rewrite (Hfresh a Ha') in Hb. done.
    + intros Ha'. apply (Hd a Ha). apply list_elem_of_bind. exists cl.
      split; [done|]. apply elem_of_app. right. by apply list_elem_of_singleton.
Qed.

Section Append.
Context `{Platform}.

Lemma ht_repr_append s cells k v h' e' ml :
  ht_repr s cells -> k ∉ c_key <$> cells -> is_cstring k ->
  (forall i, i <> hash k -> e' !! i = entries s !! i) ->
  (forall c a, c ∈ cells -> hash (c_key c) <> hash k -> a ∈ cell_addrs c ->
               h' !! a = heap s !! a) ->
  chain h' (e' !! hash k) (slot_cells (hash k) cells ++ [new_cell (heap s) k v]) ->
  ht_repr (State h' e' ml) (cells ++ [new_cell (heap s) k v]).
Proof.
  intros Hr Hk Hks He Hh Hc. split; cbn [heap entries mallocs].
  - intros i Hi. unfold slot_cells. rewrite filter_app, filter_cons, filter_nil.
    cbn [new_cell c_key]. destruct (decide (hash k = i)) as [<-|Hne]; [done|].
    rewrite app_nil_r, He by done. apply (chain_frame (heap s)); [by apply Hr|].
    intros a Ha. apply list_elem_of_bind in Ha as (c & Ha & Hin).
    apply list_elem_of_filter in Hin as [Hci Hin]. apply (Hh c); [done|congruence|done].
  - rewrite bind_app.
    change ([new_cell (heap s) k v] ≫= cell_addrs) with (cell_addrs (new_cell (heap s) k v)).
    apply NoDup_app. split_and!.
    + apply Hr.
    + intros a Ha Ha'. destruct (repr_addr_dom _ _ _ Hr Ha) as [b Hb].
      by rewrite (new_cell_lookup _ _ _ _ Ha') in Hb.
    + apply new_cell_NoDup.
  - rewrite fmap_app. apply NoDup_app. split_and!; [apply Hr| |by apply NoDup_singleton].
    intros x Hx Hx'. apply list_elem_of_singleton in Hx'. by subst x.
  - apply Forall_app. split; [apply Hr|]. by apply Forall_singleton.
Qed.

Lemma ht_repr_append_head s cells k v ml :
  ht_repr s cells -> k ∉ c_key <$> cells -> is_cstring k ->
  entries s !! hash k = None ->
  ht_repr (State (cell_blocks (new_cell (heap s) k v) NULL (heap s))
                 (<[hash k := c_node (new_cell (heap s) k v)]> (entries s)) ml)
          (cells ++ [new_cell (heap s) k v]).
Proof.
  intros Hr Hk Hks He. apply ht_repr_append; try done.
  - intros i Hi. by apply lookup_insert_ne.
  - intros c a Hc _ Ha. apply cell_blocks_lookup_ne. intros Ha'.
    destruct (repr_addr_dom s cells a Hr) as [b Hb]; [apply list_elem_of_bind; eauto|].
    by rewrite (new_cell_lookup _ _ _ _ Ha') in Hb.
  - pose proof (repr_chain _ _ Hr _ (hash_range k)) as Hc. rewrite He in Hc.
    apply chain_null in Hc. rewrite Hc, lookup_insert_eq.
    split; [done|]. exists NULL. split; [|done].
    apply cell_blocks_cell_in, new_cell_NoDup.
Qed.

Lemma ht_repr_append_tail s cells k v cl ml :
  ht_repr s cells -> k ∉ c_key <$> cells -> is_cstring k ->
  last (slot_cells (hash k) cells) = Some cl ->
  ht_repr (State (cell_blocks cl (Some (c_node (new_cell (heap s) k v)))
                    (cell_blocks (new_cell (heap s) k v) NULL (heap s)))
                 (entries s) ml)
          (cells ++ [new_cell (heap s) k v]).
Proof.
  intros Hr Hk Hks Hl. apply ht_repr_append; try done.
  - assert (Hcl : cl ∈ slot_cells (hash k) cells) by (by apply last_Some_elem_of).
    apply list_elem_of_filter in Hcl as [Hclk Hcl].
    intros c a Hc Hne Ha. rewrite !cell_blocks_lookup_ne; [done| |].
    + intros Ha'. destruct (repr_addr_dom s cells a Hr) as [b Hb];
        [apply list_elem_of_bind; eauto|].
      by rewrite (new_cell_lookup _ _ _ _ Ha') in Hb.
    + intros Ha'. apply Hne. rewrite <- Hclk.
      by rewrite (cells_addrs_disjoint cells c cl a (repr_addrs _ _ Hr)).
  - apply last_Some in Hl as [cs Hcs]. rewrite Hcs.
    apply chain_snoc.
    + rewrite <- Hcs. apply Hr, hash_range.
    + rewrite <- Hcs. apply slot_cells_NoDup, Hr.
    + apply new_cell_lookup.
    + apply new_cell_NoDup.
Qed.
End Append.

(** ** [ht_set] *)

Section SetSpec.
Context `{Platform}.

Lemma get_slot_hash k s : get_slot (hash k) s = Ret (entries s !! hash k) s.
Proof. unfold get_slot. by rewrite in_table_hash. Qed.

Lemma set_slot_hash k p s :
  set_slot (hash k) p s
  = Ret tt (State (heap s)
                  (match p with
                   | Some a => <[hash k := a]> (entries s)
                   | None => delete (hash k) (entries s)
                   end) (mallocs s)).
Proof. unfold set_slot. by rewrite in_table_hash. Qed.

(** [ht_set] on a key that the table has. *)
Lemma ht_set_found s cells k v c :
  ht_repr s cells -> is_cstring k -> find_cell k cells = Some c ->
  if malloc_ok (mallocs s) then
    exists s',
      ht_set k v s = Ret (Some (c_node c)) s' /\
      ht_repr s' (set_cells (heap s) k v cells) /\
      entries s' = entries s /\ mallocs s' = tail (mallocs s)
  else
    ht_set k v s = Ret NULL (State (heap s) (entries s) (tail (mallocs s))).
Proof.
  intros Hr Hk Hf.
  pose proof (repr_chain _ _ Hr _ (hash_range k)) as Hc.
  pose proof Hf as Hf'. rewrite <- find_cell_slot in Hf'.
  destruct (find_cell_Some _ _ _ Hf) as [Hin Hck].
  assert (Hrun : ht_set k v s = ht_set_replace (Some (c_node c)) v s).
  { unfold ht_set. rewrite (bind_ret _ _ _ _ _ (get_slot_hash k s)).
    destruct (entries s !! hash k) as [a|] eqn:Ea.
    - rewrite (ht_set_loop_chain k v (slot_cells (hash k) cells)); try done.
      + by rewrite Hf'.
      + apply Forall_forall. intros x Hx. apply slot_cells_subseteq in Hx.
        by apply (proj1 (Forall_forall _ _) (repr_cstring _ _ Hr)).
      + pose proof (slot_cells_length s cells (hash k) Hr (hash_range k)). lia.
    - apply chain_null in Hc. by rewrite Hc in Hf'. }
  rewrite Hrun. destruct (repr_cell_in _ _ _ Hr Hin) as (nxt & Hci).
  destruct (malloc_ok (mallocs s)) eqn:O1.
  - rewrite (ht_set_replace_some c nxt v s Hci); [|by apply (cells_addrs_NoDup cells); [apply Hr|]|done].
    eexists. split; [done|]. split; [|done]. rewrite <- Hck.
    by apply ht_repr_replace.
  - by apply ht_set_replace_null.
Qed.

(** [ht_set] on a key that the table does not have. *)
Lemma ht_set_missing s cells k v :
  ht_repr s cells -> is_cstring k -> find_cell k cells = None ->
  if malloc_ok (mallocs s) then
    if malloc_ok (tail (mallocs s)) && malloc_ok (tail (tail (mallocs s))) then
      exists s',
        ht_set k v s = Ret (Some (c_node (new_cell (heap s) k v))) s' /\
        ht_repr s' (cells ++ [new_cell (heap s) k v]) /\
        (forall i, i <> hash k -> entries s' !! i = entries s !! i) /\
        mallocs s' = drop 3 (mallocs s)
    else
      ht_set k v s = Ret NULL (State (heap s) (entries s) (drop 3 (mallocs s)))
  else ht_set k v s = Fault.
Proof.
  intros Hr Hk Hf.
  pose proof (repr_chain _ _ Hr _ (hash_range k)) as Hc.
  pose proof Hf as Hf'. rewrite <- find_cell_slot in Hf'.
  pose proof (find_cell_None _ _ Hf) as Hnk.
  unfold ht_set. rewrite (bind_ret _ _ _ _ _ (get_slot_hash k s)).
  destruct (entries s !! hash k) as [a|] eqn:Ea.
  - rewrite (ht_set_loop_chain k v (slot_cells (hash k) cells)); try done; cycle 1.
    { apply Forall_forall. intros x Hx. apply slot_cells_subseteq in Hx.
      by apply (proj1 (Forall_forall _ _) (repr_cstring _ _ Hr)). }
    { pose proof (slot_cells_length s cells (hash k) Hr (hash_range k)). lia. }
    rewrite Hf'.
    destruct (last (slot_cells (hash k) cells)) as [cl|] eqn:El; cycle 1.
    { apply last_None in El. rewrite El in Hc. done. }
    cbn [fmap option_fmap option_map].
    assert (Hcl : cl ∈ cells)
      by (by apply (slot_cells_subseteq (hash k)), last_Some_elem_of).
    destruct (repr_cell_in _ _ _ Hr Hcl) as (nxt & Hci).
    assert (nxt = NULL) as ->.
    { pose proof El as El'. apply last_Some in El' as [cs Hcs]. rewrite Hcs in Hc.
      by eapply chain_last_null. }
    destruct (malloc_ok (mallocs s)) eqn:O1; [|by apply ht_set_append_fault].
    destruct (malloc_ok (tail (mallocs s)) && malloc_ok (tail (tail (mallocs s))))
      eqn:O23; [|by apply ht_set_append_null].
    apply andb_true_iff in O23 as [O2 O3].
    rewrite (ht_set_append_some cl k v s Hci); try done;
      [|by apply (cells_addrs_NoDup cells); [apply Hr|]].
    eexists. split; [done|]. split; [|done].
    by apply ht_repr_append_tail.
  - destruct (malloc_ok (mallocs s)) eqn:O1; [|by unfold bind; rewrite ht_create_entry_fault].
    destruct (malloc_ok (tail (mallocs s)) && malloc_ok (tail (tail (mallocs s)))) eqn:O23.
    + apply andb_true_iff in O23 as [O2 O3].
      rewrite (bind_ret _ _ _ _ _ (ht_create_entry_some _ _ _ O1 O2 O3)).
      rewrite (bind_ret _ _ _ _ _ (set_slot_hash _ _ _)), get_slot_hash.
      cbn [heap entries mallocs]. rewrite lookup_insert_eq.
      eexists. split; [done|]. split; [by apply ht_repr_append_head|].
      split; [|done]. cbn [entries]. intros i Hi. by apply lookup_insert_ne.
    + rewrite (bind_ret _ _ _ _ _ (ht_create_entry_null _ _ _ O1 O23)).
      rewrite (bind_ret _ _ _ _ _ (set_slot_hash _ _ _)), get_slot_hash.
      cbn [heap entries mallocs]. by rewrite delete_id, Ea.
Qed.
End SetSpec.

(** ** [ht_init] *)

Lemma in_table_true i : 0 <= i < TABLE_SIZE -> in_table i = true.
Proof.
  intros Hi. unfold in_table.
  apply andb_true_intro. split; [apply Z.leb_le | apply Z.ltb_lt]; lia.
Qed.

Lemma set_slot_in i p s :
  0 <= i < TABLE_SIZE ->
  set_slot i p s
  = Ret tt (State (heap s)
                  (match p with
                   | Some a => <[i := a]> (entries s)
                   | None => delete i (entries s)
                   end) (mallocs s)).
Proof. intros Hi. unfold set_slot. by rewrite in_table_true. Qed.

Lemma for_loop_clear n : forall i s,
  0 <= i -> i + Z.of_nat n <= TABLE_SIZE ->
  exists e',
    for_loop n i (fun i => set_slot i NULL) s = Ret tt (State (heap s) e' (mallocs s)) /\
    forall j, e' !! j = if decide (i <= j < i + Z.of_nat n) then None else entries s !! j.
Proof.
  induction n as [|n IH]; intros i s Hi Hn.
  - exists (entries s). split; [by destruct s|]. intros j. by rewrite decide_False by lia.
  - destruct (IH (i + 1) (State (heap s) (delete i (entries s)) (mallocs s)))
      as (e' & Hrun & He'); [lia..|].
    exists e'. split.
    { cbn [for_loop]. by rewrite (bind_ret _ _ _ _ _ (set_slot_in i NULL s ltac:(lia))). }
    intros j. rewrite He'. cbn [entries].
    destruct (decide (j = i)) as [->|].
    + rewrite lookup_delete_eq. repeat case_decide; try done; lia.
    + rewrite lookup_delete_ne by done. repeat case_decide; try done; lia.
Qed.

Lemma ht_init_clear s :
  exists e',
    ht_init s = Ret tt (State (heap s) e' (mallocs s)) /\
    forall j, 0 <= j < TABLE_SIZE -> e' !! j = None.
Proof.
  destruct (for_loop_clear (Z.to_nat TABLE_SIZE) 0 s) as (e' & Hrun & He'); [done..|].
  exists e'. split; [done|]. intros j Hj. rewrite He'. apply decide_True.
  rewrite Z2Nat.id; done.
Qed.

(** Every slot of the array is [NULL] after [ht_init]. *)
Lemma ht_init_entries s :
  exists e',
    ht_init s = Ret tt (State (heap s) e' (mallocs s)) /\
    forall j, e' !! j = if decide (0 <= j < TABLE_SIZE) then None else entries s !! j.
Proof.
  destruct (for_loop_clear (Z.to_nat TABLE_SIZE) 0 s) as (e' & Hrun & He'); [done..|].
  exists e'. split; [done|]. intros j. rewrite He'. by rewrite Z2Nat.id.
Qed.

(** [ht_init s] computes for every [s]: it is not to be unfolded any more. *)
#[global] Opaque ht_init.

Section Reads.
Context `{Platform}.

(** After [ht_init] the memory holds the empty table. *)
Lemma ht_init_repr s s' :
  ht_init s = Ret tt s' -> ht_repr s' [] /\ heap s' = heap s /\ mallocs s' = mallocs s.
Proof.
  destruct (ht_init_clear s) as (e' & -> & He'). intros [= <-].
  split; [|done]. split; cbn [heap entries]; try by constructor.
  intros i Hi. unfold slot_cells. rewrite filter_nil. by apply He'.
Qed.

Lemma ht_get_repr s cells k :
  ht_repr s cells -> is_cstring k ->
  ht_get k s = Ret (c_vaddr <$> find_cell k cells) s.
Proof.
  intros Hr Hk. unfold ht_get. rewrite (bind_ret _ _ _ _ _ (get_slot_hash k s)).
  rewrite <- find_cell_slot. apply ht_get_loop_chain; [by apply Hr, hash_range| |done|].
  - apply Forall_forall. intros x Hx. apply slot_cells_subseteq in Hx.
    by apply (proj1 (Forall_forall _ _) (repr_cstring _ _ Hr)).
  - by apply slot_cells_length, hash_range.
Qed.

Lemma lookup_value_repr s cells k :
  ht_repr s cells -> is_cstring k ->
  lookup_value k s = Ret (c_val <$> find_cell k cells) s.
Proof.
  intros Hr Hk. unfold lookup_value. rewrite (bind_ret _ _ _ _ _ (ht_get_repr _ _ _ Hr Hk)).
  destruct (find_cell k cells) as [c|] eqn:Ec; [|done]. cbn [fmap option_fmap option_map].
  apply find_cell_Some in Ec as [Hin _].
  destruct (repr_cell_in _ _ _ Hr Hin) as (nxt & _ & _ & Hv).
  by rewrite (bind_ret _ _ _ _ _ (load_string_buf _ _ _ _ Hv)).
Qed.

Lemma slot_pairs_repr s cells i :
  ht_repr s cells -> 0 <= i < TABLE_SIZE ->
  slot_pairs i s = Ret (cell_kv <$> slot_cells i cells) s.
Proof.
  intros Hr Hi. unfold slot_pairs, bind, get_slot. rewrite in_table_true by done.
  apply print_chain_chain; [by apply Hr|by apply slot_cells_length].
Qed.

Lemma print_slots_repr s cells n : forall i,
  ht_repr s cells -> 0 <= i -> i + Z.of_nat n <= TABLE_SIZE ->
  print_slots n i s = Ret (table_lines cells n i) s.
Proof.
  induction n as [|n IH]; intros i Hr Hi Hn; [done|].
  cbn [print_slots table_lines]. unfold bind at 1, get_slot.
  rewrite in_table_true by lia.
  pose proof (repr_chain _ _ Hr i ltac:(lia)) as Hc.
  pose proof (slot_cells_length s cells i Hr ltac:(lia)) as Hl.
  destruct (entries s !! i) as [a|] eqn:Ea.
  - destruct (slot_cells i cells) as [|c cs] eqn:Ecs; [done|].
    rewrite (bind_ret (fun s => print_chain (walk_bound s) (Some a) s) _ s _ s
               (print_chain_chain _ _ _ _ Hc Hl)).
    by rewrite (bind_ret _ _ _ _ _ (IH (i + 1) Hr ltac:(lia) ltac:(lia))).
  - apply chain_null in Hc. rewrite Hc. apply IH; [done|lia..].
Qed.

Lemma print_hashtable_repr s cells :
  ht_repr s cells ->
  print_hashtable s = Ret (table_lines cells (Z.to_nat TABLE_SIZE) 0) s.
Proof. intros Hr. apply print_slots_repr; [done..|]. by rewrite Z2Nat.id. Qed.

Lemma enumerate_repr s cells :
  ht_repr s cells ->
  enumerate s = Ret (triples (table_lines cells (Z.to_nat TABLE_SIZE) 0)) s.
Proof.
  intros Hr. unfold enumerate. by rewrite (bind_ret _ _ _ _ _ (print_hashtable_repr _ _ Hr)).
Qed.
End Reads.

(** ** The table as a list of pairs *)

Lemma pairs_lookup_cells k cells :
  pairs_lookup k (cell_kv <$> cells) = c_val <$> find_cell k cells.
Proof.
  unfold pairs_lookup, find_cell. induction cells as [|c cells IH]; [done|].
  rewrite fmap_cons. cbn [List.find cell_kv fst]. by case_bool_decide.
Qed.

Lemma pairs_keys_cells (cells : list cell) :
  fst <$> (cell_kv <$> cells) = c_key <$> cells.
Proof. by rewrite <- list_fmap_compose. Qed.

Lemma pairs_set_cells (h : gmap addr block) k v cells :
  k ∈ c_key <$> cells ->
  cell_kv <$> set_cells h k v cells = pairs_set k v (cell_kv <$> cells).
Proof.
  intros Hk. unfold pairs_set, set_cells.
  rewrite decide_True by (by rewrite pairs_keys_cells).
  rewrite <- !list_fmap_compose. apply list_fmap_ext. intros i c _. simpl.
  case_decide; [|done]. unfold cell_kv. simpl. by subst k.
Qed.

Lemma pairs_set_new k v al :
  k ∉ fst <$> al -> pairs_set k v al = al ++ [(k, v)].
Proof. intros Hk. unfold pairs_set. by rewrite decide_False. Qed.

Lemma pairs_set_keys k v al :
  fst <$> pairs_set k v al = if decide (k ∈ fst <$> al) then fst <$> al else (fst <$> al) ++ [k].
Proof.
  unfold pairs_set. case_decide.
  - rewrite <- list_fmap_compose. apply list_fmap_ext. intros i kv _. simpl. by case_decide.
  - by rewrite fmap_app.
Qed.

Lemma pairs_lookup_app k al1 al2 :
  pairs_lookup k (al1 ++ al2)
  = match pairs_lookup k al1 with Some v => Some v | None => pairs_lookup k al2 end.
Proof.
  unfold pairs_lookup. induction al1 as [|kv al1 IH]; [done|].
  simpl. by case_bool_decide.
Qed.

Lemma pairs_lookup_None k al : k ∉ fst <$> al -> pairs_lookup k al = None.
Proof.
  unfold pairs_lookup. induction al as [|kv al IH]; [done|].
  rewrite fmap_cons, not_elem_of_cons. intros [Hk Hal]. simpl.
  rewrite bool_decide_eq_false_2 by done. by apply IH.
Qed.

Lemma find_pairs_update_ne (k k' v : cstring) (al : list (cstring * cstring)) :
  k' <> k ->
  List.find (fun kv => bool_decide (fst kv = k))
            ((fun kv => if decide (fst kv = k') then (k', v) else kv) <$> al)
  = List.find (fun kv : cstring * cstring => bool_decide (fst kv = k)) al.
Proof.
  intros Hne. induction al as [|kv al IH]; [done|].
  rewrite fmap_cons. cbn [List.find]. rewrite IH.
  destruct (decide (kv.1 = k')) as [E|E]; cbn [fst]; [|done].
  by rewrite !bool_decide_eq_false_2 by congruence.
Qed.

Lemma find_pairs_update_eq (k v : cstring) (al : list (cstring * cstring)) :
  k ∈ fst <$> al ->
  List.find (fun kv => bool_decide (fst kv = k))
            ((fun kv => if decide (fst kv = k) then (k, v) else kv) <$> al)
  = Some (k, v).
Proof.
  induction al as [|kv al IH]; intros Hin; [by apply elem_of_nil in Hin|].
  rewrite fmap_cons in *. cbn [List.find].
  destruct (decide (kv.1 = k)) as [E|E]; cbn [fst].
  - by rewrite bool_decide_eq_true_2.
  - rewrite bool_decide_eq_false_2 by done.
    apply elem_of_cons in Hin as [?|Hin]; [done|]. by apply IH.
Qed.

Lemma pairs_lookup_set k k' v al :
  pairs_lookup k (pairs_set k' v al)
  = if decide (k' = k) then Some v else pairs_lookup k al.
Proof.
  unfold pairs_set. destruct (decide (k' ∈ fst <$> al)) as [Hin|Hin].
  - unfold pairs_lookup. destruct (decide (k' = k)) as [->|Hne].
    + by rewrite find_pairs_update_eq.
    + by rewrite find_pairs_update_ne.
  - rewrite pairs_lookup_app. unfold pairs_lookup at 2. cbn.
    case_bool_decide; case_decide; try done.
    + by rewrite pairs_lookup_None by (by subst).
    + by destruct (pairs_lookup k al).
Qed.

(** ** The content after a history *)

Lemma replay_cons al c hist :
  replay al (c :: hist)
  = replay (if succeeded c then pairs_set (call_key c) (call_value c) al else al) hist.
Proof. done. Qed.

Lemma pairs_lookup_replay k hist : forall al,
  pairs_lookup k (replay al hist)
  = match latest k hist with Some v => Some v | None => pairs_lookup k al end.
Proof.
  induction hist as [|c hist IH]; intros al; [done|].
  rewrite replay_cons, IH. cbn [latest]. destruct (latest k hist); [done|].
  destruct (succeeded c); [|done]. rewrite pairs_lookup_set.
  by case_decide; case_bool_decide.
Qed.

Lemma replay_keys hist : forall al,
  fst <$> replay al hist
  = (fst <$> al)
    ++ filter (fun k => k ∉ fst <$> al)
         (first_occurrences (call_key <$> filter (fun c => succeeded c = true) hist)).
Proof.
  induction hist as [|c hist IH]; intros al.
  - by rewrite app_nil_r.
  - rewrite replay_cons, IH, filter_cons.
    destruct (succeeded c) eqn:Ec.
    + rewrite decide_True by done. rewrite fmap_cons. cbn [first_occurrences].
      rewrite pairs_set_keys, filter_cons.
      destruct (decide (call_key c ∈ fst <$> al)) as [Hin|Hin].
      * rewrite decide_False by (by intros ?). f_equal.
        rewrite list_filter_filter. apply list_filter_iff. intros x. split; [|tauto].
        intros Hx. split; [done|]. by intros ->.
      * rewrite decide_True by done. rewrite <- app_assoc. f_equal. simpl. f_equal.
        rewrite list_filter_filter. apply list_filter_iff. intros x.
        rewrite not_elem_of_app, list_elem_of_singleton. tauto.
    + by rewrite decide_False by done.
Qed.

Lemma replay_inserted_keys hist : fst <$> replay [] hist = inserted_keys hist.
Proof.
  rewrite replay_keys. unfold inserted_keys. simpl.
  induction (first_occurrences _) as [|x l IH]; [done|].
  rewrite filter_cons, decide_True by apply not_elem_of_nil. by f_equal.
Qed.

Lemma pairs_lookup_latest k hist : pairs_lookup k (replay [] hist) = latest k hist.
Proof. rewrite pairs_lookup_replay. by destruct (latest k hist). Qed.

(** A list of pairs without repeated keys is given by its keys and its
    lookups. *)
Lemma pairs_by_lookup (al : list (cstring * cstring)) :
  NoDup (fst <$> al) ->
  al = (fun k => (k, default [] (pairs_lookup k al))) <$> (fst <$> al).
Proof.
  induction al as [|[k v] al IH]; intros Hnd; [done|].
  rewrite fmap_cons in Hnd. apply NoDup_cons in Hnd as [Hk Hnd].
  rewrite !fmap_cons. cbn [fst]. f_equal.
  - unfold pairs_lookup. simpl. by rewrite bool_decide_eq_true_2.
  - rewrite (IH Hnd) at 1. apply list_fmap_ext. intros i k' Hk'. simpl.
    unfold pairs_lookup at 2. cbn [List.find fst].
    rewrite bool_decide_eq_false_2; [done|].
    intros ->. apply Hk. by eapply list_elem_of_lookup_2.
Qed.

(** ** Sessions *)

Section Sessions.
Context `{Platform}.

Lemma ht_repr_state s s' cells :
  heap s' = heap s -> entries s' = entries s -> ht_repr s cells -> ht_repr s' cells.
Proof.
  intros Eh Ee [Hc Ha Hk Hs]. split; [|done..]. intros i Hi. rewrite Eh, Ee. by apply Hc.
Qed.

(** A call of [ht_set] that returns, seen on the list of pairs. *)
Lemma ht_set_sim s cells k v r s' :
  ht_repr s cells -> is_cstring k -> ht_set k v s = Ret r s' ->
  exists cells',
    ht_repr s' cells' /\
    cell_kv <$> cells'
    = (if r is Some _ then pairs_set k v (cell_kv <$> cells) else cell_kv <$> cells) /\
    (r = NULL -> heap s' = heap s /\ entries s' = entries s).
Proof.
  intros Hr Hk Hrun. destruct (find_cell k cells) as [c|] eqn:Ec.
  - pose proof (ht_set_found s cells k v c Hr Hk Ec) as Hs.
    destruct (malloc_ok (mallocs s)).
    + destruct Hs as (s1 & Hs & Hr1 & _). rewrite Hs in Hrun. injection Hrun as <- <-.
      exists (set_cells (heap s) k v cells). split; [done|]. split; [|done].
      apply pairs_set_cells. apply find_cell_Some in Ec as [Hin <-].
      by apply list_elem_of_fmap_2.
    + rewrite Hs in Hrun. injection Hrun as <- <-.
      exists cells. split; [by apply (ht_repr_state s)|]. done.
  - pose proof (ht_set_missing s cells k v Hr Hk Ec) as Hs.
    destruct (malloc_ok (mallocs s)); [|by rewrite Hs in Hrun].
    destruct (malloc_ok (tail (mallocs s)) && malloc_ok (tail (tail (mallocs s)))).
    + destruct Hs as (s1 & Hs & Hr1 & _). rewrite Hs in Hrun. injection Hrun as <- <-.
      exists (cells ++ [new_cell (heap s) k v]). split; [done|]. split; [|done].
      rewrite fmap_app, pairs_set_new; [done|].
      rewrite pairs_keys_cells. by apply find_cell_None.
    + rewrite Hs in Hrun. injection Hrun as <- <-.
      exists cells. split; [by apply (ht_repr_state s)|]. done.
Qed.

Lemma run_sets_sim ops : forall s cells rs s',
  ht_repr s cells -> Forall (fun op => is_cstring (fst op)) ops ->
  run_sets ops s = Ret rs s' ->
  exists cells',
    ht_repr s' cells' /\
    cell_kv <$> cells' = replay (cell_kv <$> cells) (history ops rs) /\
    length rs = length ops.
Proof.
  induction ops as [|[k v] ops IH]; intros s cells rs s' Hr Hops Hrun.
  - injection Hrun as <- <-. by exists cells.
  - apply Forall_cons in Hops as [Hk Hops]. cbn [run_sets] in Hrun.
    unfold bind at 1 in Hrun. destruct (ht_set k v s) as [r s1| |] eqn:Hset; try done.
    destruct (ht_set_sim _ _ _ _ _ _ Hr Hk Hset) as (cells1 & Hr1 & Hkv1 & _).
    unfold bind at 1 in Hrun. destruct (run_sets ops s1) as [rs1 s2| |] eqn:Hrest; try done.
    injection Hrun as <- <-.
    destruct (IH _ _ _ _ Hr1 Hops Hrest) as (cells2 & Hr2 & Hkv2 & Hlen).
    exists cells2. split; [done|]. split; [|by rewrite !length_cons, Hlen].
    rewrite Hkv2, Hkv1.
    change (history ((k, v) :: ops) (r :: rs1)) with ((k, v, r) :: history ops rs1).
    rewrite replay_cons. unfold succeeded, call_key, call_value. simpl. by destruct r.
Qed.


Lemma ht_session_unfold ops s : ht_session ops s = bind ht_init (fun _ => run_sets ops) s.
Proof. reflexivity. Qed.

Lemma ht_session_sim ops s0 rs s :
  Forall (fun op => is_cstring (fst op)) ops ->
  ht_session ops s0 = Ret rs s ->
  exists cells,
    ht_repr s cells /\
    cell_kv <$> cells = replay [] (history ops rs) /\
    length rs = length ops.
Proof.
  intros Hops Hrun. rewrite ht_session_unfold in Hrun.
  destruct (ht_init_clear s0) as (e' & Hinit & He').
  rewrite (bind_ret _ _ _ _ _ Hinit) in Hrun.
  destruct (ht_init_repr _ _ Hinit) as (Hr & _).
  exact (run_sets_sim ops _ [] rs s Hr Hops Hrun).
Qed.
End Sessions.

(** ** The enumeration *)

Section Enumeration.
Context `{Platform}.

Lemma triples_table_lines cells n : forall i,
  triples (table_lines cells n i) = seqZ i (Z.of_nat n) ≫= slot_triples cells.
Proof.
  induction n as [|n IH]; intros i; [done|].
  rewrite seqZ_cons by lia. rewrite bind_cons.
  replace (Z.pred (Z.of_nat (S n))) with (Z.of_nat n) by lia.
  replace (Z.succ i) with (i + 1) by lia. rewrite <- IH.
  cbn [table_lines]. unfold slot_triples at 1.
  destruct (slot_cells i cells) as [|c cs]; [done|].
  unfold triples at 1. cbn [flat_map fst snd]. f_equal.
  change (map ?f ?l) with (f <$> l). by rewrite <- list_fmap_compose.
Qed.

Lemma slot_triples_key cells i t : t ∈ slot_triples cells i -> hash (snd (fst t)) = i.
Proof.
  unfold slot_triples, slot_cells. intros Ht.
  apply list_elem_of_fmap in Ht as (c & -> & Hc).
  apply list_elem_of_filter in Hc as [Hc _]. done.
Qed.

Lemma slot_triples_keys cells i :
  (fun t => snd (fst t)) <$> slot_triples cells i = c_key <$> slot_cells i cells.
Proof. unfold slot_triples. by rewrite <- list_fmap_compose. Qed.

Lemma enumeration_keys_NoDup cells (slots : list Z) :
  NoDup (c_key <$> cells) -> NoDup slots ->
  NoDup ((fun t => snd (fst t)) <$> (slots ≫= slot_triples cells)).
Proof.
  intros Hk Hs. induction Hs as [|i slots Hi Hs IH]; [constructor|].
  rewrite bind_cons, fmap_app. apply NoDup_app. split_and!; [|  |done].
  - rewrite slot_triples_keys. eapply sublist_NoDup; [exact Hk|].
    unfold slot_cells. apply fmap_sublist, sublist_filter.
  - intros k Hk1 Hk2.
    apply list_elem_of_fmap in Hk1 as (t1 & -> & Ht1).
    apply list_elem_of_fmap in Hk2 as (t2 & E & Ht2).
    apply list_elem_of_bind in Ht2 as (j & Ht2 & Hj).
    apply slot_triples_key in Ht1, Ht2. rewrite <- E in Ht2.
    apply Hi. congruence.
Qed.

(** The entries of a slot, from the keys of the table and their values. *)
Lemma slot_triples_by_key cells i :
  NoDup (c_key <$> cells) ->
  slot_triples cells i
  = (fun k => (i, k, default [] (c_val <$> find_cell k cells)))
      <$> filter (fun k => hash k = i) (c_key <$> cells).
Proof.
  unfold slot_triples, slot_cells. induction cells as [|c cells IH]; intros Hnd; [done|].
  rewrite fmap_cons in Hnd. apply NoDup_cons in Hnd as [Hc Hnd].
  assert (Htail : (fun k => (i, k, default [] (c_val <$> find_cell k (c :: cells))))
                    <$> filter (fun k => hash k = i) (c_key <$> cells)
                  = (fun k => (i, k, default [] (c_val <$> find_cell k cells)))
                      <$> filter (fun k => hash k = i) (c_key <$> cells)).
  { apply list_fmap_ext. intros j k Hj. apply list_elem_of_lookup_2 in Hj.
    apply list_elem_of_filter in Hj as [_ Hj]. unfold find_cell. cbn [List.find].
    rewrite bool_decide_eq_false_2; [done|]. intros E. apply Hc. by rewrite E. }
  rewrite fmap_cons, !filter_cons.
  destruct (decide (hash (c_key c) = i)); [|by rewrite Htail, <- IH].
  rewrite !fmap_cons, Htail, <- IH by done. f_equal.
  unfold find_cell. cbn [List.find]. by rewrite bool_decide_eq_true_2.
Qed.
End Enumeration.

(** ** The effect of [ht_set] *)

Lemma find_cell_set_cells (h : gmap addr block) k v cells c :
  find_cell k cells = Some c ->
  find_cell k (set_cells h k v cells) = Some (new_value h v c).
Proof.
  unfold find_cell, set_cells. induction cells as [|c0 cells IH]; [done|].
  rewrite fmap_cons. cbn [List.find]. case_bool_decide as E.
  - intros [= ->]. rewrite decide_True by done. cbn [new_value c_key].
    by rewrite bool_decide_eq_true_2.
  - intros Hf. rewrite decide_False by done. rewrite bool_decide_eq_false_2 by done.
    by apply IH.
Qed.

Lemma find_cell_app_new k cells cn :
  find_cell k cells = None -> c_key cn = k -> find_cell k (cells ++ [cn]) = Some cn.
Proof.
  unfold find_cell. intros Hf Hk. induction cells as [|c0 cells IH].
  - simpl. by rewrite bool_decide_eq_true_2.
  - simpl in *. destruct (bool_decide (c_key c0 = k)); [done|]. by apply IH.
Qed.

Lemma pairs_set_filter (P : cstring * cstring -> Prop) `{!forall kv, Decision (P kv)}
    k v (al : list (cstring * cstring)) :
  (forall w, ~ P (k, w)) -> filter P (pairs_set k v al) = filter P al.
Proof.
  intros HP. unfold pairs_set. destruct (decide (k ∈ fst <$> al)) as [_|_].
  - induction al as [|[k0 v0] al IH]; [done|].
    rewrite fmap_cons, !filter_cons, IH. cbn [fst].
    destruct (decide (k0 = k)) as [->|]; [|done].
    by rewrite !decide_False by apply HP.
  - rewrite filter_app, filter_cons, decide_False by apply HP. by rewrite app_nil_r.
Qed.

Lemma filter_fmap_NoDup {A B} `{EqDecision B} (f : A -> B) (l : list A) x :
  NoDup (f <$> l) -> x ∈ l -> filter (fun y => f y = f x) l = [x].
Proof.
  induction l as [|a l IH]; intros Hnd Hx; [by apply elem_of_nil in Hx|].
  rewrite fmap_cons in Hnd. apply NoDup_cons in Hnd as [Ha Hnd].
  rewrite filter_cons. apply elem_of_cons in Hx as [->|Hx].
  - rewrite decide_True by done. f_equal.
    clear IH Hnd. induction l as [|b l IH]; [done|].
    rewrite fmap_cons in Ha. apply not_elem_of_cons in Ha as [Hb Ha].
    rewrite filter_cons, decide_False by done. by apply IH.
  - rewrite decide_False; [by apply IH|].
    intros E. apply Ha. rewrite E. by apply list_elem_of_fmap_2.
Qed.

Section Effect.
Context `{Platform}.

Lemma slot_cells_pairs i cells :
  cell_kv <$> slot_cells i cells
  = filter (fun kv => hash (fst kv) = i) (cell_kv <$> cells).
Proof.
  unfold slot_cells. induction cells as [|c cells IH]; [done|].
  rewrite fmap_cons, !filter_cons. cbn [cell_kv fst].
  destruct (decide (hash (c_key c) = i)); [|done]. by rewrite fmap_cons, IH.
Qed.

(** What a call of [ht_set] that returns does to the table. *)
Lemma ht_set_effect s cells k v r s' :
  ht_repr s cells -> is_cstring k -> ht_set k v s = Ret r s' ->
  exists cells',
    ht_repr s' cells' /\
    (forall i, i <> hash k -> entries s' !! i = entries s !! i) /\
    match r with
    | None => cells' = cells /\ heap s' = heap s /\ entries s' = entries s
    | Some e =>
        cell_kv <$> cells' = pairs_set k v (cell_kv <$> cells) /\
        exists c',
          find_cell k cells' = Some c' /\ c_node c' = e /\ c_val c' = v /\
          forall c, find_cell k cells = Some c ->
                    c_node c = e /\ c_kaddr c = c_kaddr c'
    end.
Proof.
  intros Hr Hk Hrun. destruct (find_cell k cells) as [c|] eqn:Ec.
  - pose proof (ht_set_found s cells k v c Hr Hk Ec) as Hs.
    destruct (malloc_ok (mallocs s)).
    + destruct Hs as (s1 & Hs & Hr1 & He & _). rewrite Hs in Hrun.
      injection Hrun as <- <-.
      exists (set_cells (heap s) k v cells). split; [done|].
      split; [by intros i _; rewrite He|]. split.
      * apply pairs_set_cells. apply find_cell_Some in Ec as [Hin <-].
        by apply list_elem_of_fmap_2.
      * exists (new_value (heap s) v c). split; [by apply find_cell_set_cells|].
        split; [done|]. split; [done|]. by intros c0 [= <-].
    + rewrite Hs in Hrun. injection Hrun as <- <-.
      exists cells. split; [by apply (ht_repr_state s)|]. done.
  - pose proof (ht_set_missing s cells k v Hr Hk Ec) as Hs.
    destruct (malloc_ok (mallocs s)); [|by rewrite Hs in Hrun].
    destruct (malloc_ok (tail (mallocs s)) && malloc_ok (tail (tail (mallocs s)))).
    + destruct Hs as (s1 & Hs & Hr1 & He & _). rewrite Hs in Hrun.
      injection Hrun as <- <-.
      exists (cells ++ [new_cell (heap s) k v]). split; [done|]. split; [done|]. split.
      * rewrite fmap_app, pairs_set_new; [done|].
        rewrite pairs_keys_cells. by apply find_cell_None.
      * exists (new_cell (heap s) k v). split; [by apply find_cell_app_new|]. done.
    + rewrite Hs in Hrun. injection Hrun as <- <-.
      exists cells. split; [by apply (ht_repr_state s)|]. done.
Qed.
End Effect.

(** ** Computations that only read *)

Lemma readonly_ret {A} (a : A) : readonly (ret a).
Proof. by intros s a' s' [= _ <-]. Qed.

Lemma readonly_bind {A B} (c : M A) (k : A -> M B) :
  readonly c -> (forall a, readonly (k a)) -> readonly (bind c k).
Proof.
  intros Hc Hk s b s' Hrun. unfold bind in Hrun.
  destruct (c s) as [a s1| |] eqn:E; try done.
  apply Hc in E as ->. by eapply Hk.
Qed.

Lemma readonly_diverge {A} : readonly (@diverge A).
Proof. by intros s a s'. Qed.

Lemma readonly_load_entry p : readonly (load_entry p).
Proof.
  intros s e s'. unfold load_entry. destruct p as [a|]; [|done].
  destruct (heap s !! a) as [[]|]; try done. by intros [= _ <-].
Qed.

Lemma readonly_load_string p : readonly (load_string p).
Proof.
  intros s e s'. unfold load_string. destruct p as [a|]; [|done].
  destruct (heap s !! a) as [[]|]; try done. by intros [= _ <-].
Qed.

Lemma readonly_get_slot i : readonly (get_slot i).
Proof.
  intros s e s'. unfold get_slot. destruct (in_table i); [|done]. by intros [= _ <-].
Qed.

Lemma readonly_get_key p : readonly (get_key p).
Proof. apply readonly_bind; [apply readonly_load_entry|intros; apply readonly_ret]. Qed.

Lemma readonly_get_value p : readonly (get_value p).
Proof. apply readonly_bind; [apply readonly_load_entry|intros; apply readonly_ret]. Qed.

Lemma readonly_get_next p : readonly (get_next p).
Proof. apply readonly_bind; [apply readonly_load_entry|intros; apply readonly_ret]. Qed.

Lemma readonly_bounded {A} (c : nat -> M A) :
  (forall n, readonly (c n)) -> readonly (fun s => c (walk_bound s) s).
Proof. intros Hc s a s' Hrun. by eapply Hc. Qed.

Lemma readonly_ht_get_loop fuel k : forall p, readonly (ht_get_loop fuel k p).
Proof.
  induction fuel as [|fuel IH]; intros p; [apply readonly_diverge|].
  cbn [ht_get_loop]. destruct p as [a|]; [|apply readonly_ret].
  apply readonly_bind; [apply readonly_get_key|]. intros ekey.
  apply readonly_bind; [apply readonly_load_string|]. intros str.
  destruct (strcmp str k =? 0); [apply readonly_get_value|].
  apply readonly_bind; [apply readonly_get_next|]. intros nxt. apply IH.
Qed.

Lemma readonly_print_chain fuel : forall p, readonly (print_chain fuel p).
Proof.
  induction fuel as [|fuel IH]; intros p; [apply readonly_diverge|].
  cbn [print_chain]. destruct p as [a|]; [|apply readonly_ret].
  apply readonly_bind; [apply readonly_get_key|]. intros ekey.
  apply readonly_bind; [apply readonly_load_string|]. intros k.
  apply readonly_bind; [apply readonly_get_value|]. intros evalue.
  apply readonly_bind; [apply readonly_load_string|]. intros v.
  apply readonly_bind; [apply readonly_get_next|]. intros nxt.
  apply readonly_bind; [apply IH|]. intros rest. apply readonly_ret.
Qed.

Lemma readonly_print_slots count : forall i, readonly (print_slots count i).
Proof.
  induction count as [|count IH]; intros i; [apply readonly_ret|].
  cbn [print_slots]. apply readonly_bind; [apply readonly_get_slot|]. intros [a|]; [|apply IH].
  apply readonly_bind.
  - apply (readonly_bounded (fun n => print_chain n (Some a))). intros n.
    apply readonly_print_chain.
  - intros pairs. apply readonly_bind; [apply IH|]. intros rest. apply readonly_ret.
Qed.

Lemma readonly_ht_get `{Platform} k : readonly (ht_get k).
Proof.
  unfold ht_get. apply readonly_bind; [apply readonly_get_slot|]. intros p.
  apply (readonly_bounded (fun n => ht_get_loop n k p)). intros n.
  apply readonly_ht_get_loop.
Qed.

Lemma readonly_print_hashtable : readonly print_hashtable.
Proof. apply readonly_print_slots. Qed.

(** ** When [ht_set] returns *)

Section Returns.
Context `{Platform}.

(** On a table, [ht_set] never loops for ever, and its behaviour is undefined
    in one case only: the key is new and the [malloc] of the entry fails. *)
Lemma ht_set_outcome s cells k v :
  ht_repr s cells -> is_cstring k ->
  ht_set k v s <> Diverge /\
  (ht_set k v s = Fault <->
   find_cell k cells = None /\ malloc_ok (mallocs s) = false).
Proof.
  intros Hr Hk. destruct (find_cell k cells) as [c|] eqn:Ec.
  - pose proof (ht_set_found s cells k v c Hr Hk Ec) as Hs.
    destruct (malloc_ok (mallocs s)).
    + destruct Hs as (s1 & -> & _). split; [done|]. split; [done|]. by intros [? _].
    + rewrite Hs. split; [done|]. split; [done|]. by intros [? _].
  - pose proof (ht_set_missing s cells k v Hr Hk Ec) as Hs.
    destruct (malloc_ok (mallocs s)).
    + destruct (malloc_ok (tail (mallocs s)) && malloc_ok (tail (tail (mallocs s)))).
      * destruct Hs as (s1 & -> & _). split; [done|]. split; [done|]. by intros [_ ?].
      * rewrite Hs. split; [done|]. split; [done|]. by intros [_ ?].
    + rewrite Hs. done.
Qed.

Lemma malloc_ok_all l : Forall (fun b => b = true) l -> malloc_ok l = true.
Proof. by intros [|? ? ->]. Qed.

Lemma Forall_tail {A} (P : A -> Prop) l : Forall P l -> Forall P (tail l).
Proof. by intros [|]. Qed.

(** Where no [malloc] fails, every call of a session returns an entry. *)
Lemma run_sets_returns ops : forall s cells,
  ht_repr s cells -> Forall (fun op => is_cstring (fst op)) ops ->
  Forall (fun b => b = true) (mallocs s) ->
  exists rs s', run_sets ops s = Ret rs s' /\ Forall (fun r => r <> NULL) rs.
Proof.
  induction ops as [|[k v] ops IH]; intros s cells Hr Hops Hm.
  - by exists [], s.
  - apply Forall_cons in Hops as [Hk Hops]. cbn [run_sets fst] in *.
    assert (exists e s1 cells1, ht_set k v s = Ret (Some e) s1 /\ ht_repr s1 cells1 /\
                                Forall (fun b => b = true) (mallocs s1))
      as (e & s1 & cells1 & Hset & Hr1 & Hm1).
    { destruct (find_cell k cells) as [c|] eqn:Ec.
      - pose proof (ht_set_found s cells k v c Hr Hk Ec) as Hs.
        rewrite malloc_ok_all in Hs by done.
        destruct Hs as (s1 & Hs & Hr1 & _ & Hm1).
        eexists _, s1, _. split; [done|]. split; [done|]. rewrite Hm1. by apply Forall_tail.
      - pose proof (ht_set_missing s cells k v Hr Hk Ec) as Hs.
        rewrite !malloc_ok_all in Hs by (by repeat apply Forall_tail).
        destruct Hs as (s1 & Hs & Hr1 & _ & Hm1).
        eexists _, s1, _. split; [done|]. split; [done|]. rewrite Hm1. by apply Forall_drop. }
    destruct (IH s1 cells1 Hr1 Hops Hm1) as (rs & s2 & Hrun & Hrs).
    exists (Some e :: rs), s2.
    rewrite (bind_ret _ _ _ _ _ Hset), (bind_ret _ _ _ _ _ Hrun).
    split; [done|]. by apply Forall_cons.
Qed.

Lemma ht_session_returns ops s0 :
  Forall (fun op => is_cstring (fst op)) ops ->
  Forall (fun b => b = true) (mallocs s0) ->
  exists rs s, ht_session ops s0 = Ret rs s /\ Forall (fun r => r <> NULL) rs.
Proof.
  intros Hops Hm. rewrite ht_session_unfold.
  destruct (ht_init_clear s0) as (e' & Hinit & _).
  destruct (ht_init_repr _ _ Hinit) as (Hr & _ & Hm').
  rewrite (bind_ret _ _ _ _ _ Hinit).
  apply (run_sets_returns ops _ [] Hr Hops). cbn [mallocs]. done.
Qed.
End Returns.

(** ** The claims of the specification

    The keys that [ht_set] and [ht_get] receive are C strings: none of their
    bytes is the terminator.  A session is [ht_init] on any memory and then
    calls of [ht_set]; it returns unless the [malloc] of an entry fails (C9). *)

Lemma is_cstring_bytes s : is_cstringb s = true -> is_cstring s.
Proof. apply is_cstringb_spec. Qed.

Lemma keys_ok_spec ops :
  keys_ok ops = true -> Forall (fun op => is_cstring (fst op)) ops.
Proof.
  unfold keys_ok. rewrite forallb_forall, Forall_forall. intros Hops op Hop.
  apply is_cstring_bytes, Hops. by apply list_elem_of_In.
Qed.

Lemma update_calls_run :
  ht_session (H := signed_char) update_calls (memory []) = Ret update_results update_final.
Proof. vm_compute. reflexivity. Qed.

Lemma aa_calls_run l :
  ht_session (H := signed_char) aa_calls (memory (true :: true :: true :: l))
  = Ret aa_results (aa_table l).
Proof. vm_compute. reflexivity. Qed.

(** The scenarios of the specification. *)

Example lookup_after_one_set :
  result (lookup_value (H := signed_char) key_aa (aa_table [])) = Some (Some value_1).
Proof. vm_compute. reflexivity. Qed.

Example lookup_after_update :
  result (lookup_value (H := signed_char) key_madrid update_final)
  = Some (Some value_MADRID).
Proof. vm_compute. reflexivity. Qed.

Example lookup_in_empty_table :
  result ((do _ <- ht_init ; lookup_value (H := signed_char) key_nowhere)%M (memory []))
  = Some None.
Proof. vm_compute. reflexivity. Qed.

Example main_enumeration_slots :
  map (fun t => fst (fst t)) <$> result (enumerate update_final)
  = Some [10281; 12327; 16676; 17534; 22454; 27558; 31583; 41741; 42014; 48618;
          51422; 74839; 81109; 82105; 93539; 95262; 96807; 97399; 98136].
Proof. vm_compute. reflexivity. Qed.

Example colliding_keys :
  @hash signed_char key_aa = 3686 /\ @hash signed_char key_b = 3686 /\
  result (slot_pairs 3686 b_twice) = Some [(key_aa, value_1); (key_b, value_2)] /\
  result (lookup_value (H := signed_char) key_aa b_twice) = Some (Some value_1) /\
  result (lookup_value (H := signed_char) key_b b_twice) = Some (Some value_2).
Proof. repeat split; vm_compute; reflexivity. Qed.

(** The key [cataluña] of [main], whose letter [ñ] is the two bytes 195 and
    177 in UTF-8. *)
Lemma hash_catalunya :
  @hash signed_char (list_byte_of_string "cataluña") = 96807 /\
  @hash unsigned_char (list_byte_of_string "cataluña") = 56743 /\
  spec_hash TABLE_SIZE (list_byte_of_string "cataluña") = 56743.
Proof. repeat split; vm_compute; reflexivity. Qed.

Lemma hash_long_key `{Platform} : hash long_key = 0.
Proof.
  apply hash_long. rewrite Nat2Z.inj_pow. reflexivity.
Qed.

Lemma spec_hash_long_key : spec_hash TABLE_SIZE long_key = 45888.
Proof.
  unfold spec_hash, long_key. rewrite spec_hash_replicate. reflexivity.
Qed.

(** C4, as the claim states it, fails: where [char] is signed a byte above 127
    enters the accumulator as a negative number (the key [cataluña] of [main]
    goes to slot 96807, not to the slot 56743 that its bytes give), and of a
    key of [2^32] bytes or more the loop reads [strlen(key) mod 2^32] bytes
    only, its bound being an [unsigned int]. *)
Lemma hash_not_spec_hash :
  @hash signed_char (list_byte_of_string "cataluña")
    <> spec_hash TABLE_SIZE (list_byte_of_string "cataluña") /\
  @hash signed_char long_key <> spec_hash TABLE_SIZE long_key /\
  @hash unsigned_char long_key <> spec_hash TABLE_SIZE long_key.
Proof.
  destruct hash_catalunya as (E1 & _ & E2).
  split; [by rewrite E1, E2|].
  split; intros E.
  - by rewrite (hash_long_key (H := signed_char)), spec_hash_long_key in E.
  - by rewrite (hash_long_key (H := unsigned_char)), spec_hash_long_key in E.
Qed.

(** C4, amended: for every key, [hash] returns an integer in [0, TABLE_SIZE);
    for a key of less than [2^32] bytes it is the remainder modulo
    [TABLE_SIZE = 100000] of the accumulator that goes over the bytes from left
    to right with [acc = (acc * 37 + c) mod 2^64], [c] being the byte as a
    [char]: its value, less 256 for a byte above 127 where [char] is signed.
    Where [char] is unsigned, or no byte of the key is above 127, that is the
    hash of the specification. *)
Theorem hash_range_and_accumulation `{Platform} (key : cstring) :
  0 <= hash key < TABLE_SIZE /\
  TABLE_SIZE = 100000 /\
  (strlen key < 2 ^ 32 ->
   hash key
   = fold_left (fun acc b => (acc * 37 + char_val b) mod 2 ^ 64) key 0 mod TABLE_SIZE) /\
  (strlen key < 2 ^ 32 ->
   char_is_signed = false \/ Forall (fun b => byte_val b < 128) key ->
   hash key = spec_hash TABLE_SIZE key).
Proof.
  split; [apply hash_range|]. split; [done|]. split.
  - intros Hlen. by rewrite hash_short.
  - intros Hlen Hk. rewrite hash_short by done. unfold spec_hash.
    by rewrite hash_acc_unsigned.
Qed.

Lemma hash_range_and_accumulation_witness :
  (strlen (list_byte_of_string "cataluña") < 2 ^ 32 /\
   @hash signed_char (list_byte_of_string "cataluña")
   = fold_left (fun acc b => (acc * 37 + @char_val signed_char b) mod 2 ^ 64)
               (list_byte_of_string "cataluña") 0 mod TABLE_SIZE) /\
  (strlen (list_byte_of_string "madrid") < 2 ^ 32 /\
   Forall (fun b => byte_val b < 128) (list_byte_of_string "madrid") /\
   @hash signed_char (list_byte_of_string "madrid")
   = spec_hash TABLE_SIZE (list_byte_of_string "madrid")).
Proof.
  assert (Hc : strlen (list_byte_of_string "cataluña") < 2 ^ 32)
    by (vm_compute; reflexivity).
  assert (Hm : strlen (list_byte_of_string "madrid") < 2 ^ 32)
    by (vm_compute; reflexivity).
  assert (Hk : Forall (fun b => byte_val b < 128) (list_byte_of_string "madrid"))
    by repeat constructor.
  split; [split; [exact Hc|]|split; [exact Hm|split; [exact Hk|]]].
  - exact (proj1 (proj2 (proj2 (hash_range_and_accumulation (H := signed_char) _))) Hc).
  - exact (proj2 (proj2 (proj2 (hash_range_and_accumulation (H := signed_char) _)))
             Hm (or_intror Hk)).
Defined.

(** C1: after [ht_init] and any sequence of calls of [ht_set] that returns,
    for a key [k] whose most recent successful [ht_set] stored the value [v],
    [ht_get] returns a pointer to a string that reads [v]. *)
Theorem lookup_after_set `{Platform} ops s0 rs s k v :
  Forall (fun op => is_cstring (fst op)) ops -> is_cstring k ->
  ht_session ops s0 = Ret rs s ->
  latest k (history ops rs) = Some v ->
  lookup_value k s = Ret (Some v) s.
Proof.
  intros Hops Hk Hrun Hv.
  destruct (ht_session_sim _ _ _ _ Hops Hrun) as (cells & Hr & Hkv & _).
  rewrite (lookup_value_repr s cells k Hr Hk).
  by rewrite <- pairs_lookup_cells, Hkv, pairs_lookup_latest, Hv.
Qed.

Lemma lookup_after_set_witness :
  ht_session (H := signed_char) update_calls (memory []) = Ret update_results update_final /\
  latest key_madrid (history update_calls update_results) = Some value_MADRID /\
  lookup_value (H := signed_char) key_madrid update_final
  = Ret (Some value_MADRID) update_final.
Proof.
  split; [exact update_calls_run|].
  assert (Hl : latest key_madrid (history update_calls update_results) = Some value_MADRID)
    by (vm_compute; reflexivity).
  split; [exact Hl|].
  apply (lookup_after_set (H := signed_char) update_calls (memory []) update_results).
  - apply keys_ok_spec. vm_compute. reflexivity.
  - apply is_cstring_bytes. vm_compute. reflexivity.
  - exact update_calls_run.
  - exact Hl.
Defined.

(** C7: after [ht_init] and any sequence of calls of [ht_set] that returns,
    [ht_get] returns [NULL] for a key on which no call of [ht_set] succeeded;
    and right after [ht_init], which always returns, it returns [NULL] for
    every key. *)
Theorem get_absent `{Platform} :
  (forall ops s0 rs s k,
     Forall (fun op => is_cstring (fst op)) ops -> is_cstring k ->
     ht_session ops s0 = Ret rs s ->
     latest k (history ops rs) = None ->
     ht_get k s = Ret NULL s) /\
  (forall s0 k, is_cstring k ->
     exists s1, ht_init s0 = Ret tt s1 /\ ht_get k s1 = Ret NULL s1).
Proof.
  split.
  - intros ops s0 rs s k Hops Hk Hrun Hv.
    destruct (ht_session_sim _ _ _ _ Hops Hrun) as (cells & Hr & Hkv & _).
    rewrite (ht_get_repr s cells k Hr Hk).
    pose proof (pairs_lookup_cells k cells) as E.
    rewrite Hkv, pairs_lookup_latest, Hv in E. by destruct (find_cell k cells).
  - intros s0 k Hk. destruct (ht_init_clear s0) as (e' & Hinit & _).
    destruct (ht_init_repr _ _ Hinit) as (Hr & _).
    eexists. split; [exact Hinit|]. by rewrite (ht_get_repr _ [] k Hr Hk).
Qed.

Lemma get_absent_witness :
  ht_session (H := signed_char) update_calls (memory []) = Ret update_results update_final /\
  latest key_nowhere (history update_calls update_results) = None /\
  ht_get (H := signed_char) key_nowhere update_final = Ret NULL update_final.
Proof.
  split; [exact update_calls_run|].
  assert (Hl : latest key_nowhere (history update_calls update_results) = None)
    by (vm_compute; reflexivity).
  split; [exact Hl|].
  apply (proj1 (get_absent (H := signed_char)) update_calls (memory []) update_results).
  - apply keys_ok_spec. vm_compute. reflexivity.
  - apply is_cstring_bytes. vm_compute. reflexivity.
  - exact update_calls_run.
  - exact Hl.
Defined.

(** C5: after [ht_init] and any sequence of calls of [ht_set] that returns,
    whether they succeeded or not, the enumeration of the table returns and no
    two of its entries have the same key. *)
Theorem keys_unique `{Platform} ops s0 rs s :
  Forall (fun op => is_cstring (fst op)) ops ->
  ht_session ops s0 = Ret rs s ->
  exists l, enumerate s = Ret l s /\ NoDup ((fun t => snd (fst t)) <$> l).
Proof.
  intros Hops Hrun.
  destruct (ht_session_sim _ _ _ _ Hops Hrun) as (cells & Hr & _).
  eexists. split; [by apply enumerate_repr|].
  rewrite triples_table_lines. apply enumeration_keys_NoDup; [apply Hr|apply NoDup_seqZ].
Qed.

Lemma keys_unique_witness :
  exists l, enumerate update_final = Ret l update_final /\
            NoDup ((fun t => snd (fst t)) <$> l).
Proof.
  apply (keys_unique (H := signed_char) update_calls (memory []) update_results).
  - apply keys_ok_spec. vm_compute. reflexivity.
  - exact update_calls_run.
Defined.

(** C6: after [ht_init] and any sequence of calls of [ht_set] that returns,
    the enumeration lists the slots in ascending order and, within a slot, the
    keys in the order of their first successful [ht_set], each with the value
    of its most recent successful [ht_set]; and a successful [ht_set] of a key
    that the table does not have puts its pair at the end of the chain of its
    slot. *)
Theorem enumerate_order `{Platform} ops s0 rs s :
  Forall (fun op => is_cstring (fst op)) ops ->
  ht_session ops s0 = Ret rs s ->
  enumerate s = Ret (spec_enumerate (history ops rs)) s /\
  (forall k v e s',
     is_cstring k -> latest k (history ops rs) = None ->
     ht_set k v s = Ret (Some e) s' ->
     exists l, slot_pairs (hash k) s = Ret l s /\
               slot_pairs (hash k) s' = Ret (l ++ [(k, v)]) s').
Proof.
  intros Hops Hrun.
  destruct (ht_session_sim _ _ _ _ Hops Hrun) as (cells & Hr & Hkv & _).
  split.
  - rewrite (enumerate_repr s cells Hr). f_equal.
    rewrite triples_table_lines, Z2Nat.id by done.
    unfold spec_enumerate. change (flat_map ?f ?l) with (l ≫= f).
    apply list_bind_ext; [|done]. intros i.
    rewrite slot_triples_by_key by apply Hr.
    rewrite <- replay_inserted_keys, <- Hkv, pairs_keys_cells.
    change (map ?f ?l) with (f <$> l).
    apply list_fmap_ext. intros j k _. simpl.
    by rewrite <- pairs_lookup_latest, <- Hkv, pairs_lookup_cells.
  - intros k v e s' Hk Hnew Hset.
    destruct (ht_set_effect _ _ _ _ _ _ Hr Hk Hset) as (cells' & Hr' & _ & Hkv' & _).
    assert (Hnk : k ∉ fst <$> (cell_kv <$> cells)).
    { rewrite <- pairs_lookup_latest, <- Hkv, pairs_lookup_cells in Hnew.
      rewrite pairs_keys_cells. apply find_cell_None.
      by destruct (find_cell k cells). }
    rewrite pairs_set_new in Hkv' by done.
    exists (cell_kv <$> slot_cells (hash k) cells).
    split; [by apply slot_pairs_repr, hash_range|].
    rewrite (slot_pairs_repr s' cells' (hash k) Hr' (hash_range k)). f_equal.
    rewrite !slot_cells_pairs, Hkv', filter_app, filter_cons, filter_nil.
    by rewrite decide_True.
Qed.

Lemma enumerate_order_witness :
  enumerate update_final
  = Ret (spec_enumerate (H := signed_char) (history update_calls update_results))
        update_final.
Proof.
  apply (proj1 (enumerate_order (H := signed_char) update_calls (memory [])
                  update_results update_final
                  (keys_ok_spec update_calls eq_refl) update_calls_run)).
Defined.

(** C2: when a call of [ht_set] on a table made by [ht_init] and calls of
    [ht_set] returns [NULL], the heap and the slots are what they were, and
    so are the results of every lookup and of the enumeration. *)
Theorem set_failure_atomic `{Platform} ops s0 rs s k v s' :
  Forall (fun op => is_cstring (fst op)) ops -> is_cstring k ->
  ht_session ops s0 = Ret rs s ->
  ht_set k v s = Ret NULL s' ->
  heap s' = heap s /\ entries s' = entries s /\
  (forall k', is_cstring k' ->
     exists r, lookup_value k' s = Ret r s /\ lookup_value k' s' = Ret r s') /\
  (exists l, enumerate s = Ret l s /\ enumerate s' = Ret l s').
Proof.
  intros Hops Hk Hrun Hset.
  destruct (ht_session_sim _ _ _ _ Hops Hrun) as (cells & Hr & _).
  destruct (ht_set_effect _ _ _ _ _ _ Hr Hk Hset) as (cells' & Hr' & _ & -> & Eh & Ee).
  split; [done|]. split; [done|]. split.
  - intros k' Hk'. eexists. split; by apply lookup_value_repr.
  - eexists. split; by apply enumerate_repr.
Qed.

Lemma set_failure_atomic_witness :
  (ht_set (H := signed_char) key_zz value_2 (aa_table [true; false; true])
   = Ret NULL (aa_table []) /\
   ht_set (H := signed_char) key_aa value_2 (aa_table [false])
   = Ret NULL (aa_table []) /\
   ht_set (H := signed_char) key_b value_2 (aa_table [true; true; false])
   = Ret NULL (aa_table [])) /\
  (exists l, enumerate (aa_table [true; false; true]) = Ret l (aa_table [true; false; true]) /\
             enumerate (aa_table []) = Ret l (aa_table [])) /\
  (exists l, enumerate (aa_table [false]) = Ret l (aa_table [false]) /\
             enumerate (aa_table []) = Ret l (aa_table [])) /\
  (exists l, enumerate (aa_table [true; true; false]) = Ret l (aa_table [true; true; false]) /\
             enumerate (aa_table []) = Ret l (aa_table [])).
Proof.
  assert (Ha : ht_set (H := signed_char) key_zz value_2 (aa_table [true; false; true])
               = Ret NULL (aa_table [])) by (vm_compute; reflexivity).
  assert (Hb : ht_set (H := signed_char) key_aa value_2 (aa_table [false])
               = Ret NULL (aa_table [])) by (vm_compute; reflexivity).
  assert (Hc : ht_set (H := signed_char) key_b value_2 (aa_table [true; true; false])
               = Ret NULL (aa_table [])) by (vm_compute; reflexivity).
  assert (Hops : Forall (fun op => is_cstring (fst op)) aa_calls)
    by (apply keys_ok_spec; vm_compute; reflexivity).
  split; [by repeat split|]. split; [|split].
  - apply (set_failure_atomic (H := signed_char) aa_calls _ aa_results _ key_zz value_2
             _ Hops (is_cstring_bytes key_zz eq_refl) (aa_calls_run _) Ha).
  - apply (set_failure_atomic (H := signed_char) aa_calls _ aa_results _ key_aa value_2
             _ Hops (is_cstring_bytes key_aa eq_refl) (aa_calls_run _) Hb).
  - apply (set_failure_atomic (H := signed_char) aa_calls _ aa_results _ key_b value_2
             _ Hops (is_cstring_bytes key_b eq_refl) (aa_calls_run _) Hc).
Defined.

Lemma enumerate_elem `{Platform} s cells c :
  ht_repr s cells -> c ∈ cells ->
  exists l, enumerate s = Ret l s /\
            filter (fun t => snd (fst t) = c_key c) l = [(hash (c_key c), c_key c, c_val c)].
Proof.
  intros Hr Hc. eexists. split; [by apply enumerate_repr|].
  rewrite triples_table_lines.
  apply (filter_fmap_NoDup (fun t : Z * cstring * cstring => snd (fst t)) _
           (hash (c_key c), c_key c, c_val c)).
  - apply enumeration_keys_NoDup; [apply Hr|apply NoDup_seqZ].
  - apply list_elem_of_bind. exists (hash (c_key c)). split.
    + unfold slot_triples. apply (list_elem_of_fmap_2' _ _ c); [|done].
      by apply list_elem_of_filter.
    + apply elem_of_seqZ. rewrite Z2Nat.id by done. pose proof (hash_range (c_key c)). lia.
Qed.

(** C3: on a table made by [ht_init] and calls of [ht_set], a successful
    [ht_set] of the key [k] with [v1] and then a successful [ht_set] of [k]
    with [v2] return the same entry; its key pointer is the same after both
    calls and points to a string that reads [k]; and the enumeration then has
    one entry whose key is [k], with the value [v2]. *)
Theorem update_in_place `{Platform} ops s0 rs s k v1 v2 e1 e2 s1 s2 :
  Forall (fun op => is_cstring (fst op)) ops -> is_cstring k ->
  ht_session ops s0 = Ret rs s ->
  ht_set k v1 s = Ret (Some e1) s1 ->
  ht_set k v2 s1 = Ret (Some e2) s2 ->
  e2 = e1 /\
  (exists kp, get_key (Some e1) s1 = Ret kp s1 /\ get_key (Some e1) s2 = Ret kp s2 /\
              load_string kp s1 = Ret k s1 /\ load_string kp s2 = Ret k s2) /\
  (exists l, enumerate s2 = Ret l s2 /\
             filter (fun t => snd (fst t) = k) l = [(hash k, k, v2)]).
Proof.
  intros Hops Hk Hrun Hset1 Hset2.
  destruct (ht_session_sim _ _ _ _ Hops Hrun) as (cells & Hr & _).
  destruct (ht_set_effect _ _ _ _ _ _ Hr Hk Hset1)
    as (cells1 & Hr1 & _ & _ & c1 & Hc1 & He1 & _).
  destruct (ht_set_effect _ _ _ _ _ _ Hr1 Hk Hset2)
    as (cells2 & Hr2 & _ & _ & c2 & Hc2 & He2 & Hv2 & Hsame).
  destruct (Hsame c1 Hc1) as [Hn Hka].
  apply find_cell_Some in Hc1 as [Hin1 Hk1]. apply find_cell_Some in Hc2 as [Hin2 Hk2].
  destruct (repr_cell_in _ _ _ Hr1 Hin1) as (nxt1 & Hn1 & Hkb1 & _).
  destruct (repr_cell_in _ _ _ Hr2 Hin2) as (nxt2 & Hn2 & Hkb2 & _).
  split; [congruence|]. split.
  - exists (Some (c_kaddr c1)). rewrite <- He1. split_and!.
    + by rewrite (get_key_node _ _ _ Hn1).
    + rewrite Hn, <- He2. rewrite (get_key_node _ _ _ Hn2). by rewrite Hka.
    + rewrite (load_string_buf _ _ _ _ Hkb1). by rewrite Hk1.
    + rewrite Hka. rewrite (load_string_buf _ _ _ _ Hkb2). by rewrite Hk2.
  - destruct (enumerate_elem s2 cells2 c2 Hr2 Hin2) as (l & Hl & Hf).
    exists l. split; [done|]. by rewrite Hk2, Hv2 in Hf.
Qed.

Lemma update_in_place_witness :
  returned (ht_set (H := signed_char) key_b value_2) b_once NULL
  = returned (ht_set (H := signed_char) key_b value_1) (aa_table []) NULL /\
  exists l,
    enumerate b_twice = Ret l b_twice /\
    filter (fun t => snd (fst t) = key_b) l = [(@hash signed_char key_b, key_b, value_2)].
Proof.
  destruct (ht_set (H := signed_char) key_b value_1 (aa_table [])) as [[e1|] s1| |] eqn:E1;
    try (vm_compute in E1; discriminate).
  destruct (ht_set (H := signed_char) key_b value_2 b_once) as [[e2|] s2| |] eqn:E2;
    try (vm_compute in E2; discriminate).
  assert (s1 = b_once) as -> by (unfold b_once, final; by rewrite E1).
  assert (s2 = b_twice) as -> by (unfold b_twice, final; by rewrite E2).
  destruct (update_in_place (H := signed_char) aa_calls _ aa_results _ key_b
              value_1 value_2 e1 e2 b_once b_twice
              (keys_ok_spec aa_calls eq_refl) (is_cstring_bytes key_b eq_refl)
              (aa_calls_run []) E1 E2) as (He & _ & Hl).
  split; [|exact Hl]. unfold returned. by rewrite E1, E2, He.
Defined.

(** C8: [ht_get] and [print_hashtable], whenever they return, leave the memory
    as it was; on a table made by [ht_init] and calls of [ht_set] they do
    return, and called again they return the same results. *)
Theorem reads_do_not_mutate `{Platform} :
  (forall k, readonly (ht_get k)) /\
  readonly print_hashtable /\
  (forall ops s0 rs s k,
     Forall (fun op => is_cstring (fst op)) ops -> is_cstring k ->
     ht_session ops s0 = Ret rs s ->
     exists p l,
       ht_get k s = Ret p s /\ print_hashtable s = Ret l s /\
       (do p1 <- ht_get k ; do l1 <- print_hashtable ;
        do p2 <- ht_get k ; do l2 <- print_hashtable ;
        ret (p1, l1, p2, l2))%M s = Ret (p, l, p, l) s).
Proof.
  split; [apply readonly_ht_get|]. split; [apply readonly_print_hashtable|].
  intros ops s0 rs s k Hops Hk Hrun.
  destruct (ht_session_sim _ _ _ _ Hops Hrun) as (cells & Hr & _).
  pose proof (ht_get_repr s cells k Hr Hk) as Hg.
  pose proof (print_hashtable_repr s cells Hr) as Hp.
  eexists _, _. split; [exact Hg|]. split; [exact Hp|].
  rewrite (bind_ret _ _ _ _ _ Hg), (bind_ret _ _ _ _ _ Hp).
  by rewrite (bind_ret _ _ _ _ _ Hg), (bind_ret _ _ _ _ _ Hp).
Qed.

Lemma reads_do_not_mutate_witness :
  exists p l,
    ht_get (H := signed_char) key_madrid update_final = Ret p update_final /\
    print_hashtable update_final = Ret l update_final /\
    (do p1 <- ht_get (H := signed_char) key_madrid ; do l1 <- print_hashtable ;
     do p2 <- ht_get (H := signed_char) key_madrid ; do l2 <- print_hashtable ;
     ret (p1, l1, p2, l2))%M update_final = Ret (p, l, p, l) update_final.
Proof.
  apply (proj2 (proj2 (reads_do_not_mutate (H := signed_char)))
           update_calls (memory []) update_results).
  - apply keys_ok_spec. vm_compute. reflexivity.
  - apply is_cstring_bytes. vm_compute. reflexivity.
  - exact update_calls_run.
Defined.

(** C9: [ht_create_entry] stores through [entry] before it tests it.  When
    the first [malloc] returns [NULL], [entry] is [NULL], the assignment to
    [entry->key] is reached all the same, and it is a store through [NULL]:
    the call has undefined behaviour for every key and value, and so has the
    first [ht_set] of a session. *)
Theorem create_entry_null_store (key value : cstring) h e rest :
  malloc (Node (Entry_t NULL NULL NULL)) (State h e (false :: rest))
  = Ret NULL (State h e rest) /\
  (forall k s, set_key NULL k s = Fault) /\
  ht_create_entry key value (State h e (false :: rest)) = Fault /\
  ht_session (H := signed_char) aa_calls (memory [false]) = Fault.
Proof.
  split; [done|]. split; [done|].
  split; [by apply ht_create_entry_fault|].
  vm_compute. reflexivity.
Qed.

(** C10: a call of [ht_set] of the key [k] that returns, on a table made by
    [ht_init] and calls of [ht_set], leaves every slot other than [hash k]
    with the pointer and the pairs it had, and leaves in the chain of slot
    [hash k] the pairs of the other keys as they were, in the same order. *)
Theorem set_frame `{Platform} ops s0 rs s k v r s' :
  Forall (fun op => is_cstring (fst op)) ops -> is_cstring k ->
  ht_session ops s0 = Ret rs s ->
  ht_set k v s = Ret r s' ->
  (forall i, 0 <= i < TABLE_SIZE -> i <> hash k ->
     entries s' !! i = entries s !! i /\
     exists l, slot_pairs i s = Ret l s /\ slot_pairs i s' = Ret l s') /\
  (exists l l',
     slot_pairs (hash k) s = Ret l s /\ slot_pairs (hash k) s' = Ret l' s' /\
     filter (fun kv => fst kv <> k) l' = filter (fun kv => fst kv <> k) l).
Proof.
  intros Hops Hk Hrun Hset.
  destruct (ht_session_sim _ _ _ _ Hops Hrun) as (cells & Hr & _).
  destruct (ht_set_effect _ _ _ _ _ _ Hr Hk Hset) as (cells' & Hr' & He & Hkv).
  assert (Hpairs : forall (P : cstring * cstring -> Prop) `{!forall kv, Decision (P kv)},
            (forall w, ~ P (k, w)) ->
            filter P (cell_kv <$> cells') = filter P (cell_kv <$> cells)).
  { intros P ? HP. destruct r as [e|].
    - destruct Hkv as [-> _]. by apply pairs_set_filter.
    - by destruct Hkv as [-> _]. }
  split.
  - intros i Hi Hne. split; [by apply He|].
    exists (cell_kv <$> slot_cells i cells).
    split; [by apply slot_pairs_repr|].
    rewrite (slot_pairs_repr s' cells' i Hr' Hi). f_equal.
    rewrite !slot_cells_pairs. apply Hpairs. intros w. simpl. congruence.
  - eexists _, _. split; [by apply slot_pairs_repr, hash_range|].
    split; [by apply slot_pairs_repr, hash_range|].
    rewrite !slot_cells_pairs, !list_filter_filter. apply Hpairs.
    intros w. simpl. tauto.
Qed.

Lemma set_frame_witness :
  ht_set (H := signed_char) key_b value_1 (aa_table []) = Ret (Some 4%positive) b_once /\
  exists l l',
    slot_pairs (@hash signed_char key_b) (aa_table []) = Ret l (aa_table []) /\
    slot_pairs (@hash signed_char key_b) b_once = Ret l' b_once /\
    filter (fun kv => fst kv <> key_b) l' = filter (fun kv => fst kv <> key_b) l.
Proof.
  assert (E : ht_set (H := signed_char) key_b value_1 (aa_table [])
              = Ret (Some 4%positive) b_once) by (vm_compute; reflexivity).
  split; [exact E|].
  apply (set_frame (H := signed_char) aa_calls _ aa_results _ key_b value_1 _ _
           (keys_ok_spec aa_calls eq_refl) (is_cstring_bytes key_b eq_refl)
           (aa_calls_run []) E).
Defined.

(** * More of the behaviour of the code

    What follows goes beyond the claims of the specification: the hash
    function as a polynomial, the heap through a session, the pointers that
    the functions hand out, the loops on a memory that is no table, and the
    program [main]. *)

(** ** The hash function, again *)

Section HashMore.
Context `{Platform}.

(** The loop of [hash] over the bytes in the middle of a key. *)
Lemma hash_loop_middle (pre mid suf : cstring) (acc : Z) :
  fold_left (hash_step (pre ++ mid ++ suf)) (seq (length pre) (length mid)) acc
  = fold_left hash_acc mid acc.
Proof.
  revert pre acc. induction mid as [|b mid IH]; intros pre acc; [done|].
  simpl. replace (hash_step (pre ++ b :: mid ++ suf) acc (length pre)) with (hash_acc acc b).
  - replace (pre ++ b :: mid ++ suf) with ((pre ++ [b]) ++ mid ++ suf)
      by (by rewrite <- app_assoc).
    replace (S (length pre)) with (length (pre ++ [b])); [apply IH|].
    rewrite length_app. simpl. lia.
  - unfold hash_step, hash_acc, char_at. by rewrite nth_middle.
Qed.

Lemma hash_take key :
  hash key
  = fold_left hash_acc (take (Z.to_nat (to_uint (strlen key))) key) 0 mod TABLE_SIZE.
Proof.
  unfold hash. set (n := Z.to_nat (to_uint (strlen key))).
  assert (Hn : (n <= length key)%nat).
  { unfold n, to_uint, strlen.
    pose proof (Z.mod_le (Z.of_nat (length key)) (2 ^ UINT_BITS) ltac:(lia) ltac:(done)).
    lia. }
  f_equal.
  rewrite <- (take_drop n key) at 1.
  rewrite <- (hash_loop_middle [] (take n key) (drop n key) 0).
  simpl. by rewrite length_take, Nat.min_l.
Qed.

Lemma weighted_sum_acc key : forall acc,
  fold_left hash_acc key (to_size_t acc)
  = to_size_t (acc * 37 ^ Z.of_nat (length key) + weighted_sum key).
Proof.
  induction key as [|b key IH]; intros acc.
  - simpl. f_equal. lia.
  - cbn [fold_left weighted_sum length]. unfold hash_acc at 2. rewrite IH.
    unfold to_size_t. rewrite Nat2Z.inj_succ, Z.pow_succ_r by lia.
    generalize (37 ^ Z.of_nat (length key)) (2 ^ SIZE_BITS) (char_val b) (weighted_sum key).
    intros w m c r.
    destruct (decide (m = 0)) as [->|Hm]; [rewrite !Z.mod_0_r; ring|].
    replace ((acc mod m * 37 + c) * w + r)
      with (acc * (37 * w) + (c * w + r) + (- (acc / m) * 37 * w) * m)
      by (rewrite (Z.mod_eq acc m) by done; ring).
    apply Z_mod_plus_full.
Qed.

Lemma hash_weighted_sum key :
  strlen key < 2 ^ 32 ->
  hash key = weighted_sum key mod 2 ^ 64 mod TABLE_SIZE.
Proof.
  intros Hlen. rewrite hash_short by done.
  change 0 with (to_size_t 0) at 1. rewrite weighted_sum_acc. by rewrite Z.mul_0_l.
Qed.

Lemma hash_whole_words key :
  strlen key mod 2 ^ 32 = 0 -> hash key = 0.
Proof.
  intros Hlen. rewrite hash_take. unfold to_uint. 
  change (2 ^ UINT_BITS) with (2 ^ 32). by rewrite Hlen.
Qed.
End HashMore.

(** ** One call of [ht_set], block by block *)

Section Steps.
Context `{Platform}.

Lemma ht_set_found_state s cells k v c :
  ht_repr s cells -> is_cstring k -> find_cell k cells = Some c ->
  malloc_ok (mallocs s) = true ->
  exists nxt,
    cell_in (heap s) c nxt /\
    ht_set k v s
    = Ret (Some (c_node c))
          (State (cell_blocks (new_value (heap s) v c) nxt (delete (c_vaddr c) (heap s)))
                 (entries s) (tail (mallocs s))).
Proof.
  intros Hr Hk Hf O1.
  pose proof (repr_chain _ _ Hr _ (hash_range k)) as Hc.
  pose proof Hf as Hf'. rewrite <- find_cell_slot in Hf'.
  destruct (find_cell_Some _ _ _ Hf) as [Hin Hck].
  destruct (repr_cell_in _ _ _ Hr Hin) as (nxt & Hci).
  exists nxt. split; [done|].
  rewrite <- (ht_set_replace_some c nxt v s Hci);
    [|by apply (cells_addrs_NoDup cells); [apply Hr|]|done].
  unfold ht_set. rewrite (bind_ret _ _ _ _ _ (get_slot_hash k s)).
  destruct (entries s !! hash k) as [a|] eqn:Ea.
  - rewrite (ht_set_loop_chain k v (slot_cells (hash k) cells)); try done.
    + by rewrite Hf'.
    + apply Forall_forall. intros x Hx. apply slot_cells_subseteq in Hx.
      by apply (proj1 (Forall_forall _ _) (repr_cstring _ _ Hr)).
    + pose proof (slot_cells_length s cells (hash k) Hr (hash_range k)). lia.
  - apply chain_null in Hc. by rewrite Hc in Hf'.
Qed.

Lemma ht_set_missing_state s cells k v :
  ht_repr s cells -> is_cstring k -> find_cell k cells = None ->
  malloc_ok (mallocs s) = true ->
  malloc_ok (tail (mallocs s)) = true ->
  malloc_ok (tail (tail (mallocs s))) = true ->
  exists h' e',
    ht_set k v s
    = Ret (Some (c_node (new_cell (heap s) k v))) (State h' e' (drop 3 (mallocs s))) /\
    (h' = cell_blocks (new_cell (heap s) k v) NULL (heap s) \/
     exists cl, cl ∈ cells /\
       h' = cell_blocks cl (Some (c_node (new_cell (heap s) k v)))
                        (cell_blocks (new_cell (heap s) k v) NULL (heap s))).
Proof.
  intros Hr Hk Hf O1 O2 O3.
  pose proof (repr_chain _ _ Hr _ (hash_range k)) as Hc.
  pose proof Hf as Hf'. rewrite <- find_cell_slot in Hf'.
  unfold ht_set. rewrite (bind_ret _ _ _ _ _ (get_slot_hash k s)).
  destruct (entries s !! hash k) as [a|] eqn:Ea.
  - rewrite (ht_set_loop_chain k v (slot_cells (hash k) cells)); try done; cycle 1.
    { apply Forall_forall. intros x Hx. apply slot_cells_subseteq in Hx.
      by apply (proj1 (Forall_forall _ _) (repr_cstring _ _ Hr)). }
    { pose proof (slot_cells_length s cells (hash k) Hr (hash_range k)). lia. }
    rewrite Hf'.
    destruct (last (slot_cells (hash k) cells)) as [cl|] eqn:El; cycle 1.
    { apply last_None in El. rewrite El in Hc. done. }
    cbn [fmap option_fmap option_map].
    assert (Hcl : cl ∈ cells)
      by (by apply (slot_cells_subseteq (hash k)), last_Some_elem_of).
    destruct (repr_cell_in _ _ _ Hr Hcl) as (nxt & Hci).
    assert (nxt = NULL) as ->.
    { pose proof El as El'. apply last_Some in El' as [cs Hcs]. rewrite Hcs in Hc.
      by eapply chain_last_null. }
    rewrite (ht_set_append_some cl k v s Hci); try done;
      [|by apply (cells_addrs_NoDup cells); [apply Hr|]].
    eexists _, _. split; [done|]. right. by exists cl.
  - rewrite (bind_ret _ _ _ _ _ (ht_create_entry_some _ _ _ O1 O2 O3)).
    rewrite (bind_ret _ _ _ _ _ (set_slot_hash _ _ _)), get_slot_hash.
    cbn [heap entries mallocs]. rewrite lookup_insert_eq.
    eexists _, _. split; [done|]. by left.
Qed.

Lemma elem_of_cells_addrs a cells :
  a ∈ cells_addrs cells <-> exists c, c ∈ cells /\ a ∈ cell_addrs c.
Proof.
  unfold cells_addrs. rewrite elem_of_list_to_set, list_elem_of_bind. naive_solver.
Qed.

Lemma set_cells_elem (h : gmap addr block) k v cells c' :
  c' ∈ set_cells h k v cells <->
  exists c, c ∈ cells /\ c' = if decide (c_key c = k) then new_value h v c else c.
Proof. unfold set_cells. rewrite list_elem_of_fmap. naive_solver. Qed.

(** What a call of [ht_set] that returns does to the cells and to the heap:
    blocks that belong to no cell stay, the blocks a cell gives up are freed,
    the blocks a cell gets are new. *)
Lemma ht_set_step s cells k v r s' :
  ht_repr s cells -> is_cstring k -> ht_set k v s = Ret r s' ->
  ht_repr s' (cells_after (heap s) k v r cells) /\
  (forall a, a ∉ cells_addrs cells ->
             a ∉ cells_addrs (cells_after (heap s) k v r cells) ->
             heap s' !! a = heap s !! a) /\
  (forall a, a ∈ cells_addrs cells ->
             a ∉ cells_addrs (cells_after (heap s) k v r cells) ->
             heap s' !! a = None) /\
  (forall a, a ∈ cells_addrs (cells_after (heap s) k v r cells) ->
             a ∉ cells_addrs cells ->
             heap s !! a = None) /\
  (forall e, r = Some e ->
             c_node <$> find_cell k (cells_after (heap s) k v r cells) = Some e).
Proof.
  intros Hr Hk Hrun. unfold cells_after.
  destruct (find_cell k cells) as [c|] eqn:Ec.
  - pose proof (ht_set_found s cells k v c Hr Hk Ec) as Hs.
    destruct (malloc_ok (mallocs s)) eqn:O1.
    + destruct Hs as (s1 & Hs & Hr1 & _). rewrite Hs in Hrun. injection Hrun as <- <-.
      destruct (ht_set_found_state s cells k v c Hr Hk Ec O1) as (nxt & Hci & Hst).
      rewrite Hs in Hst. injection Hst as ->. cbn [heap].
      destruct (find_cell_Some _ _ _ Ec) as [Hin Hck].
      pose proof (cells_addrs_NoDup _ _ (repr_addrs _ _ Hr) Hin) as Hnd.
      assert (Hnew : new_value (heap s) v c ∈ set_cells (heap s) k v cells).
      { apply set_cells_elem. exists c. by rewrite decide_True. }
      assert (Hv : c_vaddr c ∉ cell_addrs (new_value (heap s) v c)).
      { unfold cell_addrs, new_value in *. cbn [c_node c_kaddr c_vaddr].
        apply NoDup_cons in Hnd as [N1 Hnd]. apply NoDup_cons in Hnd as [N2 _].
        destruct Hci as (_ & _ & Hbv).
        assert (c_vaddr c <> fresh (dom (heap s))).
        { intros E. pose proof (fresh_lookup (heap s)) as Hf. rewrite <- E in Hf. congruence. }
        set_solver. }
      split; [done|]. split_and!.
      * intros a Ha Ha'. rewrite cell_blocks_lookup_ne.
        -- apply lookup_delete_ne. intros <-. apply Ha. apply elem_of_cells_addrs.
           exists c. split; [done|]. unfold cell_addrs. set_solver.
        -- intros Hin'. apply Ha'. apply elem_of_cells_addrs. eauto.
      * intros a Ha Ha'. apply elem_of_cells_addrs in Ha as (c0 & Hc0 & Ha).
        assert (a = c_vaddr c) as ->.
        { destruct (decide (c_key c0 = k)) as [E|E].
          - assert (c0 = c) as -> by (apply (cells_key_inj cells); [apply Hr|done..|congruence]).
            destruct (decide (a = c_vaddr c)) as [|Hne]; [done|].
            destruct Ha'. apply elem_of_cells_addrs. exists (new_value (heap s) v c).
            split; [done|]. unfold cell_addrs, new_value in *. cbn [c_node c_kaddr c_vaddr].
            set_solver.
          - destruct Ha'. apply elem_of_cells_addrs. exists c0. split; [|done].
            apply set_cells_elem. exists c0. by rewrite decide_False. }
        rewrite cell_blocks_lookup_ne by done. apply lookup_delete_eq.
      * intros a Ha Ha'. apply elem_of_cells_addrs in Ha as (c0' & Hc0 & Ha).
        apply set_cells_elem in Hc0 as (c0 & Hc0 & ->).
        destruct (decide (c_key c0 = k)) as [E|E].
        -- assert (a = fresh (dom (heap s))) as ->; [|apply fresh_lookup].
           destruct (decide (a = fresh (dom (heap s)))) as [|Hne]; [done|].
           destruct Ha'. apply elem_of_cells_addrs. exists c0. split; [done|].
           unfold cell_addrs, new_value in *. cbn [c_node c_kaddr c_vaddr] in Ha.
           set_solver.
        -- destruct Ha'. apply elem_of_cells_addrs. eauto.
      * intros e [= <-]. by rewrite (find_cell_set_cells _ _ _ _ _ Ec).
    + rewrite Hs in Hrun. injection Hrun as <- <-.
      split; [by apply (ht_repr_state s)|]. split_and!; try done.
  - pose proof (ht_set_missing s cells k v Hr Hk Ec) as Hs.
    destruct (malloc_ok (mallocs s)) eqn:O1; [|by rewrite Hs in Hrun].
    destruct (malloc_ok (tail (mallocs s)) && malloc_ok (tail (tail (mallocs s)))) eqn:O23.
    + apply andb_true_iff in O23 as [O2 O3].
      destruct Hs as (s1 & Hs & Hr1 & _). rewrite Hs in Hrun. injection Hrun as <- <-.
      destruct (ht_set_missing_state s cells k v Hr Hk Ec O1 O2 O3) as (h' & e' & Hst & Hh).
      rewrite Hs in Hst. injection Hst as ->. cbn [heap].
      destruct (new_cell_fresh (heap s) k v) as (F1 & F2 & F3 & _).
      split; [done|]. split_and!.
      * intros a Ha Ha'.
        assert (Hn : a ∉ cell_addrs (new_cell (heap s) k v)).
        { intros Hin. apply Ha'. apply elem_of_cells_addrs. eexists. split; [|done].
          apply elem_of_app. right. by apply list_elem_of_singleton. }
        destruct Hh as [->|(cl & Hcl & ->)].
        -- by apply cell_blocks_lookup_ne.
        -- rewrite cell_blocks_lookup_ne; [by apply cell_blocks_lookup_ne|].
           intros Hin. apply Ha. apply elem_of_cells_addrs. eauto.
      * intros a Ha Ha'. destruct Ha'. apply elem_of_cells_addrs in Ha as (c0 & Hc0 & Ha).
        apply elem_of_cells_addrs. exists c0. split; [|done]. apply elem_of_app. by left.
      * intros a Ha Ha'. apply elem_of_cells_addrs in Ha as (c0 & Hc0 & Ha).
        apply elem_of_app in Hc0 as [Hc0|Hc0].
        -- destruct Ha'. apply elem_of_cells_addrs. eauto.
        -- apply list_elem_of_singleton in Hc0 as ->.
           unfold cell_addrs in Ha. rewrite !elem_of_cons, elem_of_nil in Ha.
           by destruct Ha as [->|[->|[->|[]]]].
      * intros e [= <-]. by rewrite (find_cell_app_new k cells (new_cell (heap s) k v)).
    + rewrite Hs in Hrun. injection Hrun as <- <-.
      split; [by apply (ht_repr_state s)|]. split_and!; try done.
Qed.
End Steps.

Section Freed.
Context `{Platform}.

Lemma ht_set_found_freed s cells k v c e s' :
  ht_repr s cells -> is_cstring k -> find_cell k cells = Some c ->
  ht_set k v s = Ret (Some e) s' ->
  heap s' !! c_vaddr c = None /\
  ht_repr s' (set_cells (heap s) k v cells) /\
  find_cell k (set_cells (heap s) k v cells) = Some (new_value (heap s) v c).
Proof.
  intros Hr Hk Ec Hrun.
  pose proof (ht_set_found s cells k v c Hr Hk Ec) as Hs.
  destruct (malloc_ok (mallocs s)) eqn:O1; [|by rewrite Hs in Hrun].
  destruct Hs as (s1 & Hs & Hr1 & _). rewrite Hs in Hrun. injection Hrun as <- <-.
  split; [|split; [done|by apply find_cell_set_cells]].
  destruct (ht_set_found_state s cells k v c Hr Hk Ec O1) as (nxt & Hci & Hst).
  rewrite Hs in Hst. injection Hst as ->. cbn [heap].
  destruct (find_cell_Some _ _ _ Ec) as [Hin Hck].
  pose proof (cells_addrs_NoDup _ _ (repr_addrs _ _ Hr) Hin) as Hnd.
  rewrite cell_blocks_lookup_ne; [apply lookup_delete_eq|].
  unfold cell_addrs, new_value in *. cbn [c_node c_kaddr c_vaddr].
  apply NoDup_cons in Hnd as [N1 Hnd]. apply NoDup_cons in Hnd as [N2 _].
  destruct Hci as (_ & _ & Hbv).
  assert (c_vaddr c <> fresh (dom (heap s))).
  { intros E. pose proof (fresh_lookup (heap s)) as Hf. rewrite <- E in Hf. congruence. }
  set_solver.
Qed.

End Freed.

(** ** The heap through a session *)

Lemma cells_after_pairs (h : gmap addr block) k v r cells :
  cell_kv <$> cells_after h k v r cells
  = if r is Some _ then pairs_set k v (cell_kv <$> cells) else cell_kv <$> cells.
Proof.
  unfold cells_after. destruct r as [e|]; [|done].
  destruct (find_cell k cells) as [c|] eqn:Ec.
  - apply pairs_set_cells. apply find_cell_Some in Ec as [Hin <-].
    by apply list_elem_of_fmap_2.
  - rewrite fmap_app, pairs_set_new; [done|].
    rewrite pairs_keys_cells. by apply find_cell_None.
Qed.

Lemma find_cell_fmap (f : cell -> cell) k cells :
  (forall c, c_key (f c) = c_key c) ->
  find_cell k (f <$> cells) = f <$> find_cell k cells.
Proof.
  intros Hf. unfold find_cell. induction cells as [|c cells IH]; [done|].
  rewrite fmap_cons. cbn [List.find]. rewrite Hf. by case_bool_decide.
Qed.

Lemma find_cell_app k cells1 cells2 :
  find_cell k (cells1 ++ cells2)
  = match find_cell k cells1 with Some c => Some c | None => find_cell k cells2 end.
Proof.
  unfold find_cell. induction cells1 as [|c cells1 IH]; [done|].
  simpl. by case_bool_decide.
Qed.

(** The cell of a key other than the key of the call is the cell it was. *)
Lemma find_cell_after_ne (h : gmap addr block) k v r cells k0 :
  k0 <> k -> find_cell k0 (cells_after h k v r cells) = find_cell k0 cells.
Proof.
  intros Hne. unfold cells_after. destruct r as [e|]; [|done].
  destruct (find_cell k cells) as [c|] eqn:Ec.
  - unfold set_cells. rewrite find_cell_fmap by (by intros c0; case_decide).
    destruct (find_cell k0 cells) as [c0|] eqn:E0; [|done].
    apply find_cell_Some in E0 as [_ E0]. cbn. rewrite decide_False; [done|congruence].
  - rewrite find_cell_app. destruct (find_cell k0 cells); [done|].
    unfold find_cell. simpl. by rewrite bool_decide_eq_false_2 by done.
Qed.

(** The entry of a key is the entry it was. *)
Lemma find_cell_after_node (h : gmap addr block) k v r cells k0 c :
  find_cell k0 cells = Some c ->
  exists c', find_cell k0 (cells_after h k v r cells) = Some c' /\
             c_node c' = c_node c /\ c_kaddr c' = c_kaddr c /\ c_key c' = c_key c.
Proof.
  intros E0. unfold cells_after. destruct r as [e|]; [|by exists c].
  destruct (find_cell k cells) as [c1|] eqn:Ec.
  - unfold set_cells. rewrite find_cell_fmap by (by intros c0; case_decide).
    rewrite E0. cbn. eexists. split; [done|]. by case_decide.
  - rewrite find_cell_app, E0. by exists c.
Qed.

Section Inv.
Context `{Platform}.

Lemma heap_owned_step h0 s cells k v r s' :
  ht_repr s cells -> is_cstring k -> ht_set k v s = Ret r s' ->
  heap_owned h0 (heap s) cells ->
  heap_owned h0 (heap s') (cells_after (heap s) k v r cells).
Proof.
  intros Hr Hk Hrun [Ho1 Ho2].
  destruct (ht_set_step _ _ _ _ _ _ Hr Hk Hrun) as (_ & F1 & F2 & F3 & _).
  split; intros a Ha.
  - destruct (decide (a ∈ cells_addrs cells)) as [Hin|Hin].
    + by rewrite F2, Ho2.
    + by rewrite F1, Ho1.
  - destruct (decide (a ∈ cells_addrs cells)) as [Hin|Hin]; [by apply Ho2|].
    rewrite <- Ho1 by done. by apply F3.
Qed.

(** The table after a sequence of calls of [ht_set]. *)
Lemma run_sets_inv ops : forall s cells rs s' h0,
  ht_repr s cells -> Forall (fun op => is_cstring (fst op)) ops ->
  heap_owned h0 (heap s) cells ->
  run_sets ops s = Ret rs s' ->
  exists cells',
    ht_repr s' cells' /\
    cell_kv <$> cells' = replay (cell_kv <$> cells) (history ops rs) /\
    heap_owned h0 (heap s') cells' /\
    (forall k c, find_cell k cells = Some c ->
       exists c', find_cell k cells' = Some c' /\
                  c_node c' = c_node c /\ c_kaddr c' = c_kaddr c /\ c_key c' = c_key c) /\
    (forall k v e, (k, v, Some e) ∈ history ops rs ->
       c_node <$> find_cell k cells' = Some e).
Proof.
  induction ops as [|[k v] ops IH]; intros s cells rs s' h0 Hr Hops Ho Hrun.
  - injection Hrun as <- <-. exists cells. split_and!; try done.
    + intros k c Hc. by exists c.
    + intros k v e Hin. by apply elem_of_nil in Hin.
  - apply Forall_cons in Hops as [Hk Hops]. cbn [run_sets fst] in Hrun, Hk.
    unfold bind at 1 in Hrun. destruct (ht_set k v s) as [r s1| |] eqn:Hset; try done.
    destruct (ht_set_step _ _ _ _ _ _ Hr Hk Hset) as (Hr1 & _ & _ & _ & Hnode).
    pose proof (heap_owned_step h0 _ _ _ _ _ _ Hr Hk Hset Ho) as Ho1.
    unfold bind at 1 in Hrun. destruct (run_sets ops s1) as [rs1 s2| |] eqn:Hrest; try done.
    injection Hrun as <- <-.
    destruct (IH _ _ _ _ h0 Hr1 Hops Ho1 Hrest) as (cells2 & Hr2 & Hkv2 & Ho2 & Hkeep & Hmem).
    exists cells2. split_and!; try done.
    + rewrite Hkv2, cells_after_pairs.
      change (history ((k, v) :: ops) (r :: rs1)) with ((k, v, r) :: history ops rs1).
      rewrite replay_cons. unfold succeeded, call_key, call_value. simpl. by destruct r.
    + intros k0 c Hc.
      destruct (find_cell_after_node (heap s) k v r cells k0 c Hc) as (c1 & Hc1 & E1 & E2 & E3).
      destruct (Hkeep k0 c1 Hc1) as (c2 & Hc2 & E4 & E5 & E6).
      exists c2. split; [done|]. split_and!; congruence.
    + intros k0 v0 e Hin.
      change (history ((k, v) :: ops) (r :: rs1)) with ((k, v, r) :: history ops rs1) in Hin.
      apply elem_of_cons in Hin as [E|Hin]; [|by eapply Hmem].
      injection E as -> -> Er. subst r. specialize (Hnode e eq_refl).
      destruct (find_cell k (cells_after (heap s) k v (Some e) cells)) as [c1|] eqn:Hc1; [|done].
      injection Hnode as <-.
      destruct (Hkeep k c1 Hc1) as (c2 & Hc2 & E4 & _). by rewrite Hc2, <- E4.
Qed.

Lemma heap_owned_nil (h : gmap addr block) : heap_owned h h [].
Proof.
  split; [done|]. intros a Ha.
  apply elem_of_cells_addrs in Ha as (c & Hc & _). by apply elem_of_nil in Hc.
Qed.

Lemma ht_session_inv ops s0 rs s :
  Forall (fun op => is_cstring (fst op)) ops ->
  ht_session ops s0 = Ret rs s ->
  exists cells,
    ht_repr s cells /\
    cell_kv <$> cells = replay [] (history ops rs) /\
    heap_owned (heap s0) (heap s) cells /\
    (forall k v e, (k, v, Some e) ∈ history ops rs ->
       c_node <$> find_cell k cells = Some e).
Proof.
  intros Hops Hrun. rewrite ht_session_unfold in Hrun.
  destruct (ht_init_clear s0) as (e' & Hinit & He').
  rewrite (bind_ret _ _ _ _ _ Hinit) in Hrun.
  destruct (ht_init_repr _ _ Hinit) as (Hr & _). clear Hinit.
  destruct (run_sets_inv ops _ [] rs s (heap s0) Hr Hops (heap_owned_nil _) Hrun)
    as (cells & H1 & H2 & H3 & _ & H4).
  exists cells. exact (conj H1 (conj H2 (conj H3 H4))).
Qed.
End Inv.

Lemma cell_addrs_length cells : length (cells ≫= cell_addrs) = (3 * length cells)%nat.
Proof.
  induction cells as [|c cells IH]; [done|].
  rewrite bind_cons, length_app, IH. simpl. lia.
Qed.

Section SessionFacts.
Context `{Platform}.

Lemma heap_owned_size h0 s cells :
  ht_repr s cells -> heap_owned h0 (heap s) cells ->
  size (heap s) = (size h0 + 3 * length cells)%nat.
Proof.
  intros Hr [Ho1 Ho2].
  assert (Hdom : dom (heap s) = dom h0 ∪ cells_addrs cells).
  { apply set_eq. intros a. rewrite elem_of_union, !elem_of_dom.
    destruct (decide (a ∈ cells_addrs cells)) as [Hin|Hin].
    - split; [by right|]. intros _. apply (repr_addr_dom s cells); [done|].
      by apply elem_of_list_to_set in Hin.
    - rewrite Ho1 by done. tauto. }
  rewrite <- !size_dom, Hdom, size_union.
  - unfold cells_addrs. rewrite size_list_to_set by apply Hr.
    by rewrite cell_addrs_length.
  - intros a Ha Ha'. apply Ho2 in Ha'. apply elem_of_dom in Ha as [b Hb]. congruence.
Qed.

Lemma session_cells_length ops rs cells :
  cell_kv <$> cells = replay [] (history ops rs) ->
  length cells = length (inserted_keys (history ops rs)).
Proof.
  intros Hkv. rewrite <- replay_inserted_keys, <- Hkv. by rewrite !length_fmap.
Qed.

Lemma session_latest ops rs cells k :
  cell_kv <$> cells = replay [] (history ops rs) ->
  latest k (history ops rs) = c_val <$> find_cell k cells.
Proof. intros Hkv. by rewrite <- pairs_lookup_latest, <- Hkv, pairs_lookup_cells. Qed.

End SessionFacts.

(** ** [print_hashtable] on any memory *)

Lemma table_lines_nil `{Platform} n : forall i, table_lines [] n i = [].
Proof. induction n as [|n IH]; intros i; [done|]. cbn [table_lines]. apply IH. Qed.


Lemma bind_inv {A B} (c : M A) (k : A -> M B) s b s' :
  bind c k s = Ret b s' -> exists a s1, c s = Ret a s1 /\ k a s1 = Ret b s'.
Proof. unfold bind. destruct (c s) as [a s1| |]; [|done..]. by exists a, s1. Qed.

Lemma print_chain_nonempty fuel a s pairs s' :
  print_chain fuel (Some a) s = Ret pairs s' -> pairs <> [].
Proof.
  destruct fuel as [|fuel]; [done|]. cbn [print_chain]. intros Hrun.
  repeat (apply bind_inv in Hrun as (? & ? & _ & Hrun)).
  by injection Hrun as <- _.
Qed.

Lemma print_slots_some n i s lines s' a :
  print_slots (S n) i s = Ret lines s' -> entries s !! i = Some a ->
  exists pairs rest,
    lines = (i, pairs) :: rest /\ pairs <> [] /\ print_slots n (i + 1) s = Ret rest s'.
Proof.
  intros Hrun Ea.
  cbn [print_slots] in Hrun. apply bind_inv in Hrun as (p & s1 & Hslot & Hrun).
  unfold get_slot in Hslot. destruct (in_table i); [|done]. injection Hslot as <- <-.
  rewrite Ea in Hrun.
  apply bind_inv in Hrun as (pairs & s1 & Hpairs & Hrun).
  pose proof (readonly_print_chain _ _ _ _ _ Hpairs) as ->.
  apply print_chain_nonempty in Hpairs.
  apply bind_inv in Hrun as (rest & s2 & Hrest & Hrun). injection Hrun as <- <-.
  eauto.
Qed.

Lemma print_slots_none n i s lines s' :
  print_slots (S n) i s = Ret lines s' -> entries s !! i = None ->
  print_slots n (i + 1) s = Ret lines s'.
Proof.
  intros Hrun Ea.
  cbn [print_slots] in Hrun. apply bind_inv in Hrun as (p & s1 & Hslot & Hrun).
  unfold get_slot in Hslot. destruct (in_table i); [|done]. injection Hslot as <- <-.
  by rewrite Ea in Hrun.
Qed.

Lemma print_slots_lines n : forall i s lines s',
  print_slots n i s = Ret lines s' ->
  (forall j, j ∈ lines.*1 <-> i <= j < i + Z.of_nat n /\ is_Some (entries s !! j)) /\
  StronglySorted Z.lt lines.*1 /\
  Forall (fun l : line => snd l <> []) lines.
Proof.
  induction n as [|n IH]; intros i s lines s'.
  - intros Hrun. injection Hrun as <- _. split_and!; [|constructor..].
    intros j. rewrite elem_of_nil. lia.
  - destruct (entries s !! i) as [a|] eqn:Ea; intros Hrun.
    + destruct (print_slots_some _ _ _ _ _ _ Hrun Ea) as (pairs & rest & -> & Hpairs & Hrest).
      clear Hrun. destruct (IH _ _ _ _ Hrest) as (Hin & Hsort & Hne).
      rewrite fmap_cons. cbn [fst]. split_and!.
      * intros j. rewrite elem_of_cons, Hin. split.
        -- intros [->|[? ?]]; [split; [lia|by rewrite Ea]|split; [lia|done]].
        -- intros [? ?]. destruct (decide (j = i)); [by left|right]. split; [lia|done].
      * constructor; [done|]. apply Forall_forall. intros j Hj. apply Hin in Hj. lia.
      * by constructor.
    + pose proof (print_slots_none _ _ _ _ _ Hrun Ea) as Hrest. clear Hrun.
      destruct (IH _ _ _ _ Hrest) as (Hin & Hsort & Hne). split_and!; try done.
      intros j. rewrite Hin. split.
      * intros [? ?]. split; [lia|done].
      * intros [? Hj]. split; [|done]. destruct (decide (j = i)) as [->|]; [|lia].
        rewrite Ea in Hj. by destruct Hj.
Qed.

Lemma print_hashtable_unfold : print_hashtable = print_slots (Z.to_nat TABLE_SIZE) 0.
Proof. reflexivity. Qed.

(** ** Two calls in either order *)

Lemma pairs_set_filter_in (P : cstring * cstring -> Prop) `{!forall kv, Decision (P kv)}
    k v (al : list (cstring * cstring)) :
  (forall w, P (k, w)) -> filter P (pairs_set k v al) = pairs_set k v (filter P al).
Proof.
  intros HP. unfold pairs_set.
  assert (Hiff : k ∈ (filter P al).*1 <-> k ∈ al.*1).
  { rewrite !list_elem_of_fmap. split.
    - intros (kv & -> & Hin). apply list_elem_of_filter in Hin as [_ Hin]. eauto.
    - intros ([k0 w] & -> & Hin). exists (k0, w). split; [done|].
      apply list_elem_of_filter. split; [apply HP|done]. }
  destruct (decide (k ∈ al.*1)) as [Hin|Hin].
  - rewrite decide_True by (by apply Hiff). clear Hin Hiff.
    induction al as [|[k0 w] al IH]; [done|].
    rewrite fmap_cons, !filter_cons. cbn [fst].
    destruct (decide (k0 = k)) as [->|Hne].
    + rewrite !decide_True by apply HP. rewrite fmap_cons. cbn [fst].
      rewrite decide_True by done. by rewrite IH.
    + destruct (decide (P (k0, w))); [|done].
      rewrite fmap_cons. cbn [fst]. rewrite decide_False by done. by rewrite IH.
  - rewrite decide_False by (by rewrite Hiff).
    by rewrite filter_app, filter_cons, decide_True, filter_nil by apply HP.
Qed.

Section TwoCalls.
Context `{Platform}.

Lemma slot_triples_pairs cells i :
  slot_triples cells i
  = (fun kv : cstring * cstring => (i, fst kv, snd kv))
      <$> filter (fun kv => hash (fst kv) = i) (cell_kv <$> cells).
Proof.
  unfold slot_triples. rewrite <- slot_cells_pairs, <- list_fmap_compose. done.
Qed.

Lemma pairs_set_swap_filter i k1 v1 k2 v2 (al : list (cstring * cstring)) :
  hash k1 <> hash k2 ->
  filter (fun kv => hash (fst kv) = i) (pairs_set k2 v2 (pairs_set k1 v1 al))
  = filter (fun kv => hash (fst kv) = i) (pairs_set k1 v1 (pairs_set k2 v2 al)).
Proof.
  intros Hne. destruct (decide (hash k1 = i)) as [E1|E1].
  - rewrite (pairs_set_filter _ k2) by (intros w; simpl; congruence).
    rewrite !(pairs_set_filter_in _ k1) by (by intros w).
    by rewrite (pairs_set_filter _ k2) by (intros w; simpl; congruence).
  - rewrite (pairs_set_filter _ k1 v1 (pairs_set k2 v2 al)) by (by intros w).
    destruct (decide (hash k2 = i)) as [E2|E2].
    + rewrite !(pairs_set_filter_in _ k2) by (by intros w).
      by rewrite (pairs_set_filter _ k1) by (by intros w).
    + rewrite !(pairs_set_filter _ k2) by (by intros w).
      by rewrite (pairs_set_filter _ k1) by (by intros w).
Qed.

End TwoCalls.

(** ** Walks along a chain *)

(** Two equal elements of a list that has a repetition. *)
Lemma repeated_lookup {A} `{EqDecision A} (l : list A) :
  ~ NoDup l -> exists i j x, (i < j)%nat /\ l !! i = Some x /\ l !! j = Some x.
Proof.
  induction l as [|x l IH]; intros Hnd; [destruct Hnd; constructor|].
  destruct (decide (x ∈ l)) as [Hin|Hin].
  - apply list_elem_of_lookup in Hin as [j Hj]. exists 0%nat, (S j), x.
    split; [lia|done].
  - destruct IH as (i & j & y & Hij & Hi & Hj).
    + intros Hl. apply Hnd. by constructor.
    + exists (S i), (S j), y. split; [lia|done].
Qed.

(** A walk that comes back to a pointer stays among the pointers before it. *)
Lemma iter_periodic {A} (f : A -> A) (x : A) i j :
  (i < j)%nat -> Nat.iter i f x = Nat.iter j f x ->
  forall m, exists m', (m' < j)%nat /\ Nat.iter m f x = Nat.iter m' f x.
Proof.
  intros Hij E m. induction (lt_wf m) as [m _ IH].
  destruct (decide (m < j)%nat) as [Hm|Hm]; [exists m; split; [lia|done]|].
  destruct (IH (m - j + i)%nat ltac:(lia)) as (m' & Hm' & E').
  exists m'. split; [done|]. rewrite <- E'.
  rewrite (Nat.iter_add (m - j) i), E, <- Nat.iter_add. f_equal. lia.
Qed.

Section Walk.
Variable h : gmap addr block.
Variable cont : ptr -> bool.
Hypothesis cont_block : forall q, cont q = true -> exists a, q = Some a /\ is_Some (h !! a).

(** A walk of more steps than the heap has blocks goes on for ever. *)
Lemma walk_cycle p n :
  (size h < n)%nat ->
  (forall i, (i < n)%nat -> cont (Nat.iter i (next_of h) p) = true) ->
  forall i, cont (Nat.iter i (next_of h) p) = true.
Proof.
  intros Hn Hc.
  set (q i := Nat.iter i (next_of h) p).
  set (la := (fun i => default 1%positive (q i)) <$> seq 0 n).
  assert (Hnd : ~ NoDup la).
  { intros Hnd.
    assert (Hsub : list_to_set la ⊆ dom h).
    { intros a Ha. apply elem_of_list_to_set in Ha.
      apply list_elem_of_fmap in Ha as (i & -> & Hi). apply elem_of_seq in Hi.
      destruct (cont_block _ (Hc i ltac:(lia))) as (a & Ea & Hin).
      unfold q. rewrite Ea. by apply elem_of_dom. }
    apply subseteq_size in Hsub. rewrite size_list_to_set, size_dom in Hsub by done.
    unfold la in Hsub. rewrite length_fmap, length_seq in Hsub. lia. }
  apply repeated_lookup in Hnd as (i & j & a & Hij & Hi & Hj).
  unfold la in Hi, Hj. rewrite list_lookup_fmap in Hi, Hj.
  assert (Hjn : (j < n)%nat).
  { destruct (seq 0 n !! j) eqn:E; [|done]. apply lookup_lt_Some in E.
    by rewrite length_seq in E. }
  rewrite lookup_seq_lt in Hi, Hj by lia. simpl in Hi, Hj.
  assert (E : q i = q j).
  { destruct (cont_block _ (Hc i ltac:(lia))) as (ai & Ei & _).
    destruct (cont_block _ (Hc j ltac:(lia))) as (aj & Ej & _).
    fold (q i) in Ei. fold (q j) in Ej. rewrite Ei, Ej in *. simpl in *. congruence. }
  intros m. destruct (iter_periodic (next_of h) p i j Hij E m) as (m' & Hm' & ->).
  apply Hc. lia.
Qed.

(** A loop that walks a chain: it stops where [cont] does not hold, and goes
    on from [next_of h p] where it does. *)
Context {A : Type}.
Variable loop : nat -> ptr -> outcome A.
Variable stop : ptr -> outcome A.
Variable post : ptr -> outcome A -> outcome A.
Hypothesis loop_O : forall p, loop O p = Diverge.
Hypothesis loop_S : forall n p,
  loop (S n) p = if cont p then post p (loop n (next_of h p)) else stop p.
Hypothesis stop_halts : forall p, cont p = false -> stop p <> Diverge.
Hypothesis post_diverge : forall p o, post p o = Diverge <-> o = Diverge.

Lemma loop_more n : forall p, loop n p <> Diverge -> loop (S n) p = loop n p.
Proof.
  induction n as [|n IH]; intros p Hp; [by destruct Hp|].
  rewrite (loop_S (S n) p), (loop_S n p). rewrite (loop_S n p) in Hp.
  destruct (cont p); [|done]. rewrite IH; [done|].
  intros E. apply Hp. by apply post_diverge.
Qed.

Lemma loop_diverge n : forall p,
  loop n p = Diverge <->
  forall i, (i < n)%nat -> cont (Nat.iter i (next_of h) p) = true.
Proof.
  induction n as [|n IH]; intros p.
  - split; [intros _ i Hi; lia|intros _; apply loop_O].
  - rewrite loop_S. split.
    + intros Hd. destruct (cont p) eqn:Ec; [|by apply stop_halts in Ec].
      apply post_diverge in Hd. pose proof (proj1 (IH _) Hd) as Hc.
      intros [|i] Hi; [done|]. rewrite Nat.iter_succ_r. apply Hc. lia.
    + intros Hc. pose proof (Hc 0%nat ltac:(lia)) as H0. simpl in H0. rewrite H0.
      apply post_diverge. apply IH.
      intros i Hi. rewrite <- Nat.iter_succ_r. apply Hc. lia.
Qed.

(** The outcome of the loop is the same for every bound above the number of
    blocks of the heap. *)
Lemma loop_bound n m p :
  (size h < n)%nat -> (n <= m)%nat -> loop m p = loop n p.
Proof.
  intros Hn Hm.
  assert (Hd : loop n p = Diverge \/ loop n p <> Diverge)
    by (destruct (loop n p); [right|right|left]; done).
  destruct Hd as [Hd|Hd].
  - rewrite Hd. apply loop_diverge. intros i _.
    apply (walk_cycle p n Hn). by apply loop_diverge.
  - induction Hm as [|m Hm IH]; [done|]. rewrite <- IH. apply loop_more. by rewrite IH.
Qed.

(** A loop that has not stopped within that bound never stops. *)
Lemma loop_cycle n p :
  (size h < n)%nat -> loop n p = Diverge -> forall m, loop m p = Diverge.
Proof.
  intros Hn Hd m. apply loop_diverge. intros i _.
  apply (walk_cycle p n Hn). by apply loop_diverge.
Qed.
End Walk.

(** ** Computations without a loop *)

Lemma halts_ret {A} (a : A) : halts (ret a).
Proof. done. Qed.

Lemma halts_bind {A B} (c : M A) (k : A -> M B) :
  halts c -> (forall a, halts (k a)) -> halts (bind c k).
Proof.
  intros Hc Hk s. unfold bind. specialize (Hc s).
  destruct (c s) as [a s1| |]; [apply Hk|done..].
Qed.

Lemma halts_malloc b : halts (malloc b).
Proof. intros s. unfold malloc. by destruct (mallocs s) as [|[] ?]. Qed.

Lemma halts_free p : halts (free p).
Proof. intros s. unfold free. destruct p as [a|]; [|done]. by destruct (heap s !! a). Qed.

Lemma halts_load_entry p : halts (load_entry p).
Proof.
  intros s. unfold load_entry. destruct p as [a|]; [|done].
  by destruct (heap s !! a) as [[]|].
Qed.

Lemma halts_store_entry p e : halts (store_entry p e).
Proof.
  intros s. unfold store_entry. destruct p as [a|]; [|done].
  by destruct (heap s !! a) as [[]|].
Qed.

Lemma halts_strcpy p src : halts (strcpy p src).
Proof.
  intros s. unfold strcpy. destruct p as [a|]; [|done].
  destruct (heap s !! a) as [[|sz ?]|]; try done. by destruct (_ <=? _).
Qed.

Ltac halts_step :=
  first
    [ apply halts_ret | apply halts_malloc | apply halts_free | apply halts_load_entry
    | apply halts_store_entry | apply halts_strcpy
    | apply halts_bind; [|intros ?]
    | match goal with
      | |- halts (match ?x with _ => _ end) => destruct x
      end ].

Lemma halts_get_key p : halts (get_key p).
Proof. unfold get_key. repeat halts_step. Qed.
Lemma halts_get_value p : halts (get_value p).
Proof. unfold get_value. repeat halts_step. Qed.
Lemma halts_get_next p : halts (get_next p).
Proof. unfold get_next. repeat halts_step. Qed.
Lemma halts_set_key p q : halts (set_key p q).
Proof. unfold set_key. repeat halts_step. Qed.
Lemma halts_set_value p q : halts (set_value p q).
Proof. unfold set_value. repeat halts_step. Qed.
Lemma halts_set_next p q : halts (set_next p q).
Proof. unfold set_next. repeat halts_step. Qed.

Ltac halts_all :=
  repeat first
    [ apply halts_get_key | apply halts_get_value | apply halts_get_next
    | apply halts_set_key | apply halts_set_value | apply halts_set_next
    | halts_step ].

Lemma halts_ht_create_entry k v : halts (ht_create_entry k v).
Proof. unfold ht_create_entry. halts_all. Qed.

Lemma halts_ht_set_replace p v : halts (ht_set_replace p v).
Proof. unfold ht_set_replace. halts_all. Qed.

Lemma halts_ht_set_append p k v : halts (ht_set_append p k v).
Proof. unfold ht_set_append. halts_all. Qed.

(** ** The loops *)

Lemma get_continues_block k h q :
  get_continues k h q = true -> exists a, q = Some a /\ is_Some (h !! a).
Proof.
  unfold get_continues. destruct q as [a|]; [|done].
  destruct (h !! a) eqn:E; [|done]. intros _. exists a. split; [done|]. rewrite E. by eexists.
Qed.

Lemma set_continues_block k h q :
  set_continues k h q = true -> exists a, q = Some a /\ is_Some (h !! a).
Proof. unfold set_continues. intros [? _]%andb_true_iff. by eapply get_continues_block. Qed.

Lemma print_continues_block h q :
  print_continues h q = true -> exists a, q = Some a /\ is_Some (h !! a).
Proof.
  unfold print_continues, pair_at. destruct q as [a|]; [|done].
  destruct (h !! a) eqn:E; [|done]. intros _. exists a. split; [done|]. rewrite E. by eexists.
Qed.

(** Runs the reads of one step of a loop, given the blocks they find. *)
Ltac run_reads :=
  unfold get_key, get_value, get_next, load_entry, load_string, bind, ret;
  repeat first
    [ match goal with H : heap _ !! _ = _ |- _ => rewrite H end
    | match goal with H : key _ = _ |- _ => rewrite H end
    | match goal with H : value _ = _ |- _ => rewrite H end
    | match goal with H : next _ = _ |- _ => rewrite H end
    | match goal with H : (strcmp _ _ =? 0) = _ |- _ => rewrite H end
    | progress cbn beta iota ].

Lemma ht_get_loop_S n k p s :
  ht_get_loop (S n) k p s
  = if get_continues k (heap s) p then ht_get_loop n k (next_of (heap s) p) s
    else ht_get_loop 1 k p s.
Proof.
  cbn [ht_get_loop]. unfold get_continues, next_of. destruct p as [a|]; [|done].
  destruct (heap s !! a) as [[e|]|] eqn:Ea; [|by run_reads..].
  destruct (key e) as [ka|] eqn:Ek; [|by run_reads].
  destruct (heap s !! ka) as [[|sz str]|] eqn:Eka; [by run_reads| |by run_reads].
  destruct (strcmp str k =? 0) eqn:Ec; by run_reads.
Qed.

Lemma ht_get_loop_stop k p s :
  get_continues k (heap s) p = false -> ht_get_loop 1 k p s <> Diverge.
Proof.
  cbn [ht_get_loop]. unfold get_continues. destruct p as [a|]; [|done].
  destruct (heap s !! a) as [[e|]|] eqn:Ea; [|by run_reads..].
  destruct (key e) as [ka|] eqn:Ek; [|by run_reads].
  destruct (heap s !! ka) as [[|sz str]|] eqn:Eka; [by run_reads| |by run_reads].
  destruct (strcmp str k =? 0) eqn:Ec; by run_reads.
Qed.

Lemma ht_set_loop_S n k v p s :
  ht_set_loop (S n) k v p s
  = if set_continues k (heap s) p then ht_set_loop n k v (next_of (heap s) p) s
    else ht_set_loop 1 k v p s.
Proof.
  cbn [ht_set_loop]. unfold set_continues, get_continues, next_of.
  destruct p as [a|]; [|done].
  destruct (heap s !! a) as [[e|]|] eqn:Ea; [|by run_reads..].
  destruct (key e) as [ka|] eqn:Ek; [|by run_reads].
  destruct (heap s !! ka) as [[|sz str]|] eqn:Eka; [by run_reads| |by run_reads].
  destruct (strcmp str k =? 0) eqn:Ec; [by run_reads|].
  destruct (next e) eqn:En; by run_reads.
Qed.

Lemma ht_set_loop_stop k v p s :
  set_continues k (heap s) p = false -> ht_set_loop 1 k v p s <> Diverge.
Proof.
  cbn [ht_set_loop]. unfold set_continues, get_continues, next_of.
  destruct p as [a|]; [|done].
  destruct (heap s !! a) as [[e|]|] eqn:Ea; [|by run_reads..].
  destruct (key e) as [ka|] eqn:Ek; [|by run_reads].
  destruct (heap s !! ka) as [[|sz str]|] eqn:Eka; [by run_reads| |by run_reads].
  destruct (strcmp str k =? 0) eqn:Ec.
  - intros _. run_reads. apply halts_ht_set_replace.
  - destruct (next e) eqn:En; [done|]. intros _. run_reads. apply halts_ht_set_append.
Qed.

Lemma print_chain_S n p s :
  print_chain (S n) p s
  = if print_continues (heap s) p
    then print_post (heap s) p (print_chain n (next_of (heap s) p) s)
    else print_chain 1 p s.
Proof.
  cbn [print_chain]. unfold print_continues, print_post, pair_at, next_of.
  destruct p as [a|]; [|done].
  destruct (heap s !! a) as [[e|]|] eqn:Ea; [|by run_reads..].
  destruct (key e) as [ka|] eqn:Ek; [|by run_reads].
  destruct (heap s !! ka) as [[|sz str]|] eqn:Eka; [by run_reads| |by run_reads].
  destruct (value e) as [va|] eqn:Ev; [|by run_reads].
  destruct (heap s !! va) as [[|sz' str']|] eqn:Eva; by run_reads.
Qed.

Lemma print_chain_stop p s :
  print_continues (heap s) p = false -> print_chain 1 p s <> Diverge.
Proof.
  cbn [print_chain]. unfold print_continues, pair_at. destruct p as [a|]; [|done].
  destruct (heap s !! a) as [[e|]|] eqn:Ea; [|by run_reads..].
  destruct (key e) as [ka|] eqn:Ek; [|by run_reads].
  destruct (heap s !! ka) as [[|sz str]|] eqn:Eka; [by run_reads| |by run_reads].
  destruct (value e) as [va|] eqn:Ev; [|by run_reads].
  destruct (heap s !! va) as [[|sz' str']|] eqn:Eva; by run_reads.
Qed.

Lemma print_post_diverge h p o : print_post h p o = Diverge <-> o = Diverge.
Proof. by destruct o. Qed.


(** The three loops are walks. *)
Lemma ht_get_loop_bound k p s n m :
  (size (heap s) < n)%nat -> (n <= m)%nat -> ht_get_loop m k p s = ht_get_loop n k p s.
Proof.
  apply (loop_bound (heap s) (get_continues k (heap s)) (get_continues_block k (heap s))
           (fun n p => ht_get_loop n k p s) (fun p => ht_get_loop 1 k p s) (fun _ o => o));
    try done; [|intros; by apply ht_get_loop_stop].
  intros; apply ht_get_loop_S.
Qed.

Lemma ht_get_loop_cycle n k p s :
  (size (heap s) < n)%nat -> ht_get_loop n k p s = Diverge ->
  forall m, ht_get_loop m k p s = Diverge.
Proof.
  apply (loop_cycle (heap s) (get_continues k (heap s)) (get_continues_block k (heap s))
           (fun n p => ht_get_loop n k p s) (fun p => ht_get_loop 1 k p s) (fun _ o => o));
    try done; [|intros; by apply ht_get_loop_stop].
  intros; apply ht_get_loop_S.
Qed.

Lemma ht_set_loop_bound k v p s n m :
  (size (heap s) < n)%nat -> (n <= m)%nat ->
  ht_set_loop m k v p s = ht_set_loop n k v p s.
Proof.
  apply (loop_bound (heap s) (set_continues k (heap s)) (set_continues_block k (heap s))
           (fun n p => ht_set_loop n k v p s) (fun p => ht_set_loop 1 k v p s) (fun _ o => o));
    try done; [|intros; by apply ht_set_loop_stop].
  intros; apply ht_set_loop_S.
Qed.

Lemma ht_set_loop_cycle n k v p s :
  (size (heap s) < n)%nat -> ht_set_loop n k v p s = Diverge ->
  forall m, ht_set_loop m k v p s = Diverge.
Proof.
  apply (loop_cycle (heap s) (set_continues k (heap s)) (set_continues_block k (heap s))
           (fun n p => ht_set_loop n k v p s) (fun p => ht_set_loop 1 k v p s) (fun _ o => o));
    try done; [|intros; by apply ht_set_loop_stop].
  intros; apply ht_set_loop_S.
Qed.

Lemma print_chain_bound p s n m :
  (size (heap s) < n)%nat -> (n <= m)%nat -> print_chain m p s = print_chain n p s.
Proof.
  apply (loop_bound (heap s) (print_continues (heap s)) (print_continues_block (heap s))
           (fun n p => print_chain n p s) (fun p => print_chain 1 p s) (print_post (heap s)));
    try done; [|intros; by apply print_chain_stop|apply print_post_diverge].
  intros; apply print_chain_S.
Qed.

Lemma print_chain_cycle n p s :
  (size (heap s) < n)%nat -> print_chain n p s = Diverge ->
  forall m, print_chain m p s = Diverge.
Proof.
  apply (loop_cycle (heap s) (print_continues (heap s)) (print_continues_block (heap s))
           (fun n p => print_chain n p s) (fun p => print_chain 1 p s) (print_post (heap s)));
    try done; [|intros; by apply print_chain_stop|apply print_post_diverge].
  intros; apply print_chain_S.
Qed.

(** ** The program [main] *)

(** Where every call succeeded and no key comes twice, the latest value of a
    key is the value of its call. *)
Lemma latest_all_succeeded ops : forall rs k v,
  Forall (fun r => r <> NULL) rs -> length rs = length ops -> NoDup ops.*1 ->
  latest k (history ops rs) = Some v <-> (k, v) ∈ ops.
Proof.
  induction ops as [|[k0 v0] ops IH]; intros rs k v Hrs Hlen Hnd.
  - destruct rs; [|done]. simpl. by rewrite elem_of_nil.
  - destruct rs as [|r rs]; [done|].
    apply Forall_cons in Hrs as [Hr Hrs]. injection Hlen as Hlen.
    rewrite fmap_cons in Hnd. apply NoDup_cons in Hnd as [Hk0 Hnd]. cbn [fst] in Hk0.
    change (history ((k0, v0) :: ops) (r :: rs)) with ((k0, v0, r) :: history ops rs).
    cbn [latest]. unfold succeeded, call_key, call_value. cbn [fst snd].
    destruct r as [e|]; [|done]. rewrite elem_of_cons. cbn [andb].
    destruct (latest k (history ops rs)) as [w|] eqn:El.
    + pose proof (proj1 (IH rs k w Hrs Hlen Hnd) El) as Hw. split.
      * intros [= ->]. by right.
      * intros [[= -> ->]|Hin].
        -- destruct Hk0. apply list_elem_of_fmap. by exists (k0, w).
        -- apply (IH rs) in Hin; [congruence|done..].
    + case_bool_decide as Ek.
      * subst k0. split; [intros [= ->]; by left|].
        intros [[= ->]|Hin]; [done|]. apply (IH rs) in Hin; [congruence|done..].
      * split; [done|]. intros [[= ? ?]|Hin]; [done|].
        apply (IH rs) in Hin; [congruence|done..].
Qed.

Section Program.
Context `{Platform}.

(** The calls of [ht_set] one after the other, their results dropped. *)
Lemma run_sets_seq {B} ops (K : M B) : forall s,
  fold_right (fun op k => bind (ht_set (fst op) (snd op)) (fun _ => k)) K ops s
  = bind (run_sets ops) (fun _ => K) s.
Proof.
  induction ops as [|[k v] ops IH]; intros s; [done|].
  cbn [fold_right run_sets fst snd]. unfold bind at 1 3 4.
  destruct (ht_set k v s) as [r s1| |]; [|done..]. rewrite IH. unfold bind.
  by destruct (run_sets ops s1).
Qed.

Lemma bind_ext {A B} (c : M A) (k1 k2 : A -> M B) s :
  (forall a s', k1 a s' = k2 a s') -> bind c k1 s = bind c k2 s.
Proof. intros Hk. unfold bind. by destruct (c s). Qed.

Lemma main_unfold s :
  main s
  = bind ht_init (fun _ =>
      bind (run_sets main_calls) (fun _ =>
        bind print_hashtable (fun out => ret (0, out)))) s.
Proof.
  unfold main. apply bind_ext. intros _ s'. rewrite <- run_sets_seq.
  unfold main_calls. cbn [fold_right map fst snd]. reflexivity.
Qed.
End Program.

Lemma main_calls_keys : keys_ok main_calls = true /\ NoDup main_calls.*1.
Proof.
  split; [vm_compute; reflexivity|].
  apply (bool_decide_unpack _). vm_compute. reflexivity.
Qed.

Section ProgramRuns.
Context `{Platform}.

(** The lines that [print_hashtable] writes for a table. *)
Lemma table_enumeration s cells :
  ht_repr s cells ->
  exists lines,
    print_hashtable s = Ret lines s /\
    NoDup ((fun t => snd (fst t)) <$> triples lines) /\
    forall i k v, (i, k, v) ∈ triples lines <->
                  i = hash k /\ c_val <$> find_cell k cells = Some v.
Proof.
  intros Hr. eexists. split; [by apply print_hashtable_repr|].
  rewrite triples_table_lines, Z2Nat.id by done. split.
  { apply enumeration_keys_NoDup; [apply Hr|apply NoDup_seqZ]. }
  intros i k v. rewrite list_elem_of_bind. split.
  - intros (j & Hin & Hj). unfold slot_triples, slot_cells in Hin.
    apply list_elem_of_fmap in Hin as (c & [= -> -> ->] & Hc).
    apply list_elem_of_filter in Hc as [Hh Hc]. split; [done|].
    assert (find_cell (c_key c) cells = Some c) as ->; [|done].
    destruct (find_cell (c_key c) cells) as [c'|] eqn:Ec.
    + apply find_cell_Some in Ec as [Hc' E]. f_equal.
      by apply (cells_key_inj cells); [apply Hr|..].
    + apply find_cell_None in Ec. destruct Ec. by apply list_elem_of_fmap_2.
  - intros [-> Hv]. destruct (find_cell k cells) as [c|] eqn:Ec; [|done].
    injection Hv as <-. apply find_cell_Some in Ec as [Hc <-].
    exists (hash (c_key c)). split.
    + unfold slot_triples, slot_cells. apply (list_elem_of_fmap_2' _ _ c); [|done].
      by apply list_elem_of_filter.
    + apply elem_of_seqZ. pose proof (hash_range (c_key c)). lia.
Qed.

Lemma run_sets_halts ops : forall s cells,
  ht_repr s cells -> Forall (fun op => is_cstring (fst op)) ops ->
  run_sets ops s <> Diverge.
Proof.
  induction ops as [|[k v] ops IH]; intros s cells Hr Hops; [done|].
  apply Forall_cons in Hops as [Hk Hops]. cbn [run_sets fst] in *.
  unfold bind at 1. destruct (ht_set k v s) as [r s1| |] eqn:Hset; [|done|].
  - destruct (ht_set_sim _ _ _ _ _ _ Hr Hk Hset) as (cells1 & Hr1 & _).
    unfold bind. specialize (IH s1 cells1 Hr1 Hops). by destruct (run_sets ops s1).
  - by destruct (proj1 (ht_set_outcome s cells k v Hr Hk)).
Qed.

End ProgramRuns.

(** ** Collisions of the hash function *)

Section Collisions.
Context `{Platform}.


End Collisions.

(** ** Arguments that point into the memory *)

(** One step of a computation that reads an argument. *)
Ltac exec_at :=
  first
    [ exec_step
    | unfold strlen_at, strcpy_at, strcmp_at, hash_at ];
  cbn [heap entries mallocs key value next].

Lemma ht_create_entry_at_eq kp vp nk nv k v s :
  heap s !! kp = Some (Buf nk k) -> heap s !! vp = Some (Buf nv v) ->
  ht_create_entry_at (Some kp) (Some vp) s = ht_create_entry k v s.
Proof.
  intros Hkp Hvp.
  pose proof (fresh_lookup (heap s)) as F1.
  set (a1 := fresh (dom (heap s))) in *.
  assert (Nk1 : kp <> a1) by congruence. assert (Nv1 : vp <> a1) by congruence.
  destruct (malloc_ok (mallocs s)) eqn:O1; cycle 1.
  { rewrite ht_create_entry_fault by done. unfold ht_create_entry_at.
    unfold bind at 1. rewrite malloc_eq, O1.
    repeat exec_at.
    unfold bind at 1. rewrite malloc_eq. cbn [heap entries mallocs].
    destruct (malloc_ok (tail (mallocs s))); reflexivity. }
  destruct (malloc_ok (tail (mallocs s))) eqn:O2;
    [destruct (malloc_ok (tail (tail (mallocs s)))) eqn:O3|].
  - rewrite ht_create_entry_some by done.
    destruct (new_cell_fresh (heap s) k v) as (_ & F2 & F3 & N12 & N13 & N23).
    unfold new_cell in *. cbn [c_node c_kaddr c_vaddr c_key c_val] in *. fold a1 in F2, F3, N12, N13, N23 |- *.
    set (a2 := fresh ({[a1]} ∪ dom (heap s))) in *.
    set (a3 := fresh ({[a2]} ∪ ({[a1]} ∪ dom (heap s)))) in *.
    assert (Nk2 : kp <> a2) by congruence. assert (Nv2 : vp <> a2) by congruence.
    assert (Nk3 : kp <> a3) by congruence. assert (Nv3 : vp <> a3) by congruence.
    unfold ht_create_entry_at.
    unfold bind at 1. rewrite malloc_eq, O1. fold a1.
    repeat exec_at.
    unfold bind at 1. rewrite malloc_eq. cbn [heap entries mallocs]. rewrite O2.
    rewrite dom_insert_L. fold a2.
    repeat exec_at.
    unfold bind at 1. rewrite malloc_eq. cbn [heap entries mallocs]. rewrite O3.
    rewrite !dom_insert_L.
    replace ({[a1]} ∪ ({[a2]} ∪ ({[a1]} ∪ dom (heap s)))) with ({[a2]} ∪ ({[a1]} ∪ dom (heap s)))
      by set_solver.
    fold a3.
    repeat exec_at.
    unfold ret. f_equal. f_equal.
    + unfold cell_blocks. cbn [c_node c_kaddr c_vaddr c_key c_val].
      apply map_eq. intros i.
      destruct (decide (i = a1)) as [->|]; [heap_lookup|].
      destruct (decide (i = a2)) as [->|]; [heap_lookup|].
      destruct (decide (i = a3)) as [->|]; heap_lookup.
    + by destruct (mallocs s) as [|? [|? [|? ?]]].
  - rewrite ht_create_entry_null by (by rewrite ?O2, ?O3).
    assert (Hl : tail (tail (tail (mallocs s))) = drop 3 (mallocs s))
      by (by destruct (mallocs s) as [|? [|? [|? ?]]]).
    unfold ht_create_entry_at.
    unfold bind at 1. rewrite malloc_eq, O1. fold a1.
    repeat exec_at.
    unfold bind at 1. rewrite malloc_eq. cbn [heap entries mallocs]. rewrite O2.
    match goal with |- context [fresh (dom ?h)] =>
      pose proof (fresh_lookup h) as F2; set (a2 := fresh (dom h)) in * end.
    apply lookup_insert_None in F2 as [F2 N12].
    assert (Nk2 : kp <> a2) by congruence. assert (Nv2 : vp <> a2) by congruence.
    repeat exec_at.
    unfold bind at 1. rewrite malloc_eq. cbn [heap entries mallocs]. rewrite O3.
    repeat exec_at.
    unfold ret. rewrite Hl. f_equal. f_equal.
    apply map_eq. intros i.
    destruct (decide (i = a1)) as [->|]; [heap_lookup|].
    destruct (decide (i = a2)) as [->|]; heap_lookup.
  - rewrite ht_create_entry_null by (by rewrite ?O2).
    assert (Hl : tail (tail (tail (mallocs s))) = drop 3 (mallocs s))
      by (by destruct (mallocs s) as [|? [|? [|? ?]]]).
    unfold ht_create_entry_at.
    unfold bind at 1. rewrite malloc_eq, O1. fold a1.
    repeat exec_at.
    unfold bind at 1. rewrite malloc_eq. cbn [heap entries mallocs]. rewrite O2.
    repeat exec_at.
    unfold bind at 1. rewrite malloc_eq. cbn [heap entries mallocs].
    destruct (malloc_ok (tail (tail (mallocs s)))) eqn:O3.
    + match goal with |- context [fresh (dom ?h)] =>
        pose proof (fresh_lookup h) as F3; set (a3 := fresh (dom h)) in * end.
      apply lookup_insert_None in F3 as [F3 N13].
      apply lookup_insert_None in F3 as [F3 _].
      repeat exec_at.
      unfold ret. rewrite Hl. f_equal. f_equal.
      apply map_eq. intros i.
      destruct (decide (i = a1)) as [->|]; [heap_lookup|].
      destruct (decide (i = a3)) as [->|]; heap_lookup.
    + repeat exec_at.
      unfold ret. rewrite Hl. f_equal. f_equal.
      apply map_eq. intros i.
      destruct (decide (i = a1)) as [->|]; heap_lookup.
Qed.

Lemma ht_set_replace_at_eq c nxt vp nv v s :
  cell_in (heap s) c nxt -> NoDup (cell_addrs c) ->
  heap s !! vp = Some (Buf nv v) ->
  vp <> c_vaddr c \/ malloc_ok (mallocs s) = false ->
  ht_set_replace_at (Some (c_node c)) (Some vp) s = ht_set_replace (Some (c_node c)) v s.
Proof.
  intros Hci Hnd Hvp Hor.
  destruct (malloc_ok (mallocs s)) eqn:O1.
  - destruct Hor as [Hne|?]; [|done].
    rewrite (ht_set_replace_some c nxt v s Hci Hnd O1).
    destruct Hci as (Hn & Hk & Hv).
    unfold cell_addrs in Hnd. apply NoDup_cons in Hnd as [N1 Hnd].
    apply NoDup_cons in Hnd as [N2 _].
    apply not_elem_of_cons in N1 as [N12 N1]. apply not_elem_of_cons in N1 as [N13 _].
    apply not_elem_of_cons in N2 as [N23 _].
    pose proof (fresh_lookup (heap s)) as F.
    unfold new_value, cell_blocks. cbn [c_node c_kaddr c_vaddr c_key c_val].
    set (a := fresh (dom (heap s))) in *.
    pose proof (lookup_None_Some_ne _ _ _ _ F Hn) as Na1.
    pose proof (lookup_None_Some_ne _ _ _ _ F Hk) as Na2.
    pose proof (lookup_None_Some_ne _ _ _ _ F Hv) as Na3.
    pose proof (lookup_None_Some_ne _ _ _ _ F Hvp) as Na4.
    assert (Nv1 : vp <> c_node c) by congruence.
    unfold ht_set_replace_at. repeat exec_at.
    unfold bind at 1. rewrite malloc_eq, O1. fold a.
    repeat exec_at.
    unfold ret. f_equal. f_equal.
    apply map_eq. intros i.
    destruct (decide (i = a)) as [->|]; [heap_lookup|].
    destruct (decide (i = c_node c)) as [->|]; [heap_lookup|].
    destruct (decide (i = c_kaddr c)) as [->|]; [heap_lookup|].
    destruct (decide (i = c_vaddr c)) as [->|]; heap_lookup.
  - rewrite ht_set_replace_null by done.
    unfold ht_set_replace_at. repeat exec_at.
    unfold bind at 1. by rewrite malloc_eq, O1.
Qed.

(** The argument is the array that the call frees: [strcpy] reads it after
    [free]. *)
Lemma ht_set_replace_at_alias c nxt s :
  cell_in (heap s) c nxt -> NoDup (cell_addrs c) ->
  malloc_ok (mallocs s) = true ->
  ht_set_replace_at (Some (c_node c)) (Some (c_vaddr c)) s = Fault.
Proof.
  intros (Hn & Hk & Hv) Hnd O1.
  unfold cell_addrs in Hnd. apply NoDup_cons in Hnd as [N1 Hnd].
  apply NoDup_cons in Hnd as [N2 _].
  apply not_elem_of_cons in N1 as [N12 N1]. apply not_elem_of_cons in N1 as [N13 _].
  apply not_elem_of_cons in N2 as [N23 _].
  pose proof (fresh_lookup (heap s)) as F.
  set (a := fresh (dom (heap s))) in *.
  pose proof (lookup_None_Some_ne _ _ _ _ F Hn) as Na1.
  pose proof (lookup_None_Some_ne _ _ _ _ F Hk) as Na2.
  pose proof (lookup_None_Some_ne _ _ _ _ F Hv) as Na3.
  unfold ht_set_replace_at. repeat exec_at.
  unfold bind at 1. rewrite malloc_eq, O1. fold a.
  repeat exec_at.
  unfold bind at 1, load_string. cbn [heap entries mallocs].
  rewrite !lookup_insert_ne by done. by rewrite lookup_delete_eq.
Qed.

Lemma strcmp_at_buf s a b n1 n2 s1 s2 :
  heap s !! a = Some (Buf n1 s1) -> heap s !! b = Some (Buf n2 s2) ->
  strcmp_at (Some a) (Some b) s = Ret (strcmp s1 s2) s.
Proof.
  intros Ha Hb. unfold strcmp_at.
  rewrite (bind_ret _ _ _ _ _ (load_string_buf _ _ _ _ Ha)).
  by rewrite (bind_ret _ _ _ _ _ (load_string_buf _ _ _ _ Hb)).
Qed.

Lemma ht_set_append_at_eq p kp vp nk nv k v s :
  heap s !! kp = Some (Buf nk k) -> heap s !! vp = Some (Buf nv v) ->
  ht_set_append_at p (Some kp) (Some vp) s = ht_set_append p k v s.
Proof.
  intros Hkp Hvp. unfold ht_set_append_at, ht_set_append. unfold bind at 1 3.
  by rewrite (ht_create_entry_at_eq kp vp nk nv k v s).
Qed.

Lemma ht_set_loop_at_chain kp nk k (vp : ptr) cs : forall fuel a s,
  chain (heap s) (Some a) cs ->
  Forall (fun c => is_cstring (c_key c)) cs -> is_cstring k ->
  heap s !! kp = Some (Buf nk k) ->
  (length cs <= fuel)%nat ->
  ht_set_loop_at fuel (Some kp) vp (Some a) s =
  match find_cell k cs with
  | Some c => ht_set_replace_at (Some (c_node c)) vp s
  | None => ht_set_append_at (c_node <$> last cs) (Some kp) vp s
  end.
Proof.
  induction cs as [|c cs IH]; intros fuel a s Hc Hcs Hkey Hkp Hfuel; [done|].
  destruct fuel as [|fuel]; [simpl in Hfuel; lia|].
  destruct Hc as (Ha & nxt & (Hn & Hk & Hv) & Hc). injection Ha as ->.
  apply Forall_cons in Hcs as [Hck Hcs].
  cbn [ht_set_loop_at].
  rewrite (bind_ret _ _ _ _ _ (get_key_node _ _ _ Hn)). cbn [key].
  rewrite (bind_ret _ _ _ _ _ (strcmp_at_buf _ _ _ _ _ _ _ Hk Hkp)).
  rewrite strcmp_eqb by done. unfold find_cell. cbn [List.find].
  case_bool_decide; [done|].
  rewrite (bind_ret _ _ _ _ _ (get_next_node _ _ _ Hn)). cbn [next].
  destruct nxt as [a'|].
  - rewrite (IH fuel a' s) by (try done; simpl in Hfuel; lia).
    destruct cs as [|c' cs]; [done|]. done.
  - apply chain_null in Hc. subst cs. done.
Qed.

(** A NULL [value] is read by [strlen], whatever [malloc] answers. *)
Lemma ht_create_entry_at_null_value kp nk k s :
  heap s !! kp = Some (Buf nk k) -> ht_create_entry_at (Some kp) NULL s = Fault.
Proof.
  intros Hkp.
  destruct (new_cell_fresh (heap s) k k) as (F1 & _ & _ & N12 & _ & _).
  unfold new_cell in *. cbn [c_node c_kaddr c_vaddr c_key c_val] in *.
  set (a1 := fresh (dom (heap s))) in *.
  set (a2 := fresh ({[a1]} ∪ dom (heap s))) in *.
  assert (Nk1 : kp <> a1) by congruence.
  unfold ht_create_entry_at.
  unfold bind at 1. rewrite malloc_eq. fold a1.
  destruct (malloc_ok (mallocs s)) eqn:O1.
  - repeat exec_at.
    unfold bind at 1. rewrite malloc_eq. cbn [heap entries mallocs].
    rewrite dom_insert_L. fold a2.
    destruct (malloc_ok (tail (mallocs s))) eqn:O2; by repeat exec_at.
  - repeat exec_at.
    unfold bind at 1. rewrite malloc_eq. cbn [heap entries mallocs].
    by destruct (malloc_ok (tail (mallocs s))).
Qed.

(** [ht_get] with a pointer to a string, on any memory. *)
Lemma ht_get_loop_at_eq kp nk k s : forall fuel entry,
  heap s !! kp = Some (Buf nk k) ->
  ht_get_loop_at fuel (Some kp) entry s = ht_get_loop fuel k entry s.
Proof.
  induction fuel as [|fuel IH]; intros entry Hkp; [done|].
  cbn [ht_get_loop_at ht_get_loop]. destruct entry as [a|]; [|done].
  unfold bind at 1 4. destruct (get_key (Some a) s) as [ekey s1| |] eqn:Ek; [|done..].
  pose proof (readonly_get_key _ _ _ _ Ek) as ->.
  unfold strcmp_at, bind, ret.
  destruct (load_string ekey s) as [str s1| |] eqn:Es; [|done..].
  pose proof (readonly_load_string _ _ _ _ Es) as ->.
  rewrite (load_string_buf _ _ _ _ Hkp).
  destruct (strcmp str k =? 0); [done|].
  destruct (get_next (Some a) s) as [nxt s1| |] eqn:En; [|done..].
  pose proof (readonly_get_next _ _ _ _ En) as ->. by apply IH.
Qed.

Section Arguments.
Context `{Platform}.

Lemma ht_get_at_eq kp nk k s :
  heap s !! kp = Some (Buf nk k) -> ht_get_at (Some kp) s = ht_get k s.
Proof.
  intros Hkp. unfold ht_get_at, ht_get, hash_at.
  unfold bind, ret. rewrite (load_string_buf _ _ _ _ Hkp).
  destruct (get_slot (hash k) s) as [e s1| |] eqn:Eg; [|done..].
  pose proof (readonly_get_slot _ _ _ _ Eg) as ->.
  by apply (ht_get_loop_at_eq kp nk).
Qed.

(** [ht_set] on a table: the statements it comes to. *)
Lemma ht_set_run s cells k v :
  ht_repr s cells -> is_cstring k ->
  ht_set k v s =
  match find_cell k cells with
  | Some c => ht_set_replace (Some (c_node c)) v s
  | None =>
      match entries s !! hash k with
      | Some _ => ht_set_append (c_node <$> last (slot_cells (hash k) cells)) k v s
      | None => bind (ht_create_entry k v)
                  (fun e => bind (set_slot (hash k) e) (fun _ => get_slot (hash k))) s
      end
  end.
Proof.
  intros Hr Hk.
  pose proof (repr_chain _ _ Hr _ (hash_range k)) as Hc.
  pose proof (find_cell_slot k cells) as Hf.
  unfold ht_set. rewrite (bind_ret _ _ _ _ _ (get_slot_hash k s)).
  destruct (entries s !! hash k) as [a|] eqn:Ea.
  - rewrite (ht_set_loop_chain k v (slot_cells (hash k) cells)); try done.
    + rewrite Hf. by destruct (find_cell k cells).
    + apply Forall_forall. intros x Hx. apply slot_cells_subseteq in Hx.
      by apply (proj1 (Forall_forall _ _) (repr_cstring _ _ Hr)).
    + pose proof (slot_cells_length s cells (hash k) Hr (hash_range k)). lia.
  - apply chain_null in Hc. rewrite Hc in Hf. simpl in Hf. by rewrite <- Hf.
Qed.

Lemma ht_set_at_run s cells kp (vp : ptr) nk k :
  ht_repr s cells -> is_cstring k -> heap s !! kp = Some (Buf nk k) ->
  ht_set_at (Some kp) vp s =
  match find_cell k cells with
  | Some c => ht_set_replace_at (Some (c_node c)) vp s
  | None =>
      match entries s !! hash k with
      | Some _ =>
          ht_set_append_at (c_node <$> last (slot_cells (hash k) cells)) (Some kp) vp s
      | None => bind (ht_create_entry_at (Some kp) vp)
                  (fun e => bind (set_slot (hash k) e) (fun _ => get_slot (hash k))) s
      end
  end.
Proof.
  intros Hr Hk Hkp.
  pose proof (repr_chain _ _ Hr _ (hash_range k)) as Hc.
  pose proof (find_cell_slot k cells) as Hf.
  unfold ht_set_at, hash_at.
  rewrite bind_assoc, (bind_ret _ _ _ _ _ (load_string_buf _ _ _ _ Hkp)), bind_ret_l.
  rewrite (bind_ret _ _ _ _ _ (get_slot_hash k s)).
  destruct (entries s !! hash k) as [a|] eqn:Ea.
  - rewrite (ht_set_loop_at_chain kp nk k vp (slot_cells (hash k) cells)); try done.
    + rewrite Hf. by destruct (find_cell k cells).
    + apply Forall_forall. intros x Hx. apply slot_cells_subseteq in Hx.
      by apply (proj1 (Forall_forall _ _) (repr_cstring _ _ Hr)).
    + pose proof (slot_cells_length s cells (hash k) Hr (hash_range k)). lia.
  - apply chain_null in Hc. rewrite Hc in Hf. simpl in Hf. by rewrite <- Hf.
Qed.

End Arguments.

(** ** The properties *)

(** X1: for a key of less than [2^32] bytes, [hash] is the value of a
    polynomial in 37: the sum of the [char]s of the key, the one at index [i]
    of [n] multiplied by [37^(n-1-i)], reduced modulo [2^64] and then modulo
    [TABLE_SIZE]. *)
Theorem hash_is_polynomial `{Platform} (key : cstring) :
  strlen key < 2 ^ 32 ->
  hash key = weighted_sum key mod 2 ^ 64 mod TABLE_SIZE.
Proof. apply hash_weighted_sum. Qed.

Lemma hash_is_polynomial_witness :
  strlen (list_byte_of_string "cataluña") < 2 ^ 32 /\
  @hash signed_char (list_byte_of_string "cataluña")
  = @weighted_sum signed_char (list_byte_of_string "cataluña") mod 2 ^ 64 mod TABLE_SIZE.
Proof.
  assert (Hlen : strlen (list_byte_of_string "cataluña") < 2 ^ 32)
    by (vm_compute; reflexivity).
  split; [exact Hlen|]. exact (hash_is_polynomial (H := signed_char) _ Hlen).
Defined.

(** X2: [hash] reads the first [strlen(key) mod 2^32] bytes of the key and no
    other, its loop bound being an [unsigned int]; so every key whose length is
    a multiple of [2^32] has the hash 0. *)
Theorem hash_reads_length_mod_2_32 `{Platform} (key : cstring) :
  hash key = hash (take (Z.to_nat (strlen key mod 2 ^ 32)) key) /\
  (strlen key mod 2 ^ 32 = 0 -> hash key = 0).
Proof.
  split; [|apply hash_whole_words].
  rewrite hash_take. rewrite (hash_take (take _ key)). unfold to_uint.
  change (2 ^ UINT_BITS) with (2 ^ 32).
  pose proof (Z.mod_pos_bound (strlen key) (2 ^ 32) ltac:(done)) as Hb.
  pose proof (Z.mod_le (strlen key) (2 ^ 32) ltac:(unfold strlen; lia) ltac:(done)) as Hl.
  assert (E : strlen (take (Z.to_nat (strlen key mod 2 ^ 32)) key) = strlen key mod 2 ^ 32).
  { unfold strlen in *. rewrite length_take. lia. }
  rewrite E, (Z.mod_small (strlen key mod 2 ^ 32)) by done.
  by rewrite take_take, Nat.min_id.
Qed.

Lemma hash_reads_length_mod_2_32_witness :
  strlen long_key mod 2 ^ 32 = 0 /\ @hash signed_char long_key = 0.
Proof.
  assert (Hlen : strlen long_key mod 2 ^ 32 = 0).
  { unfold strlen, long_key. rewrite length_replicate, Nat2Z.inj_pow. reflexivity. }
  split; [exact Hlen|].
  exact (proj2 (hash_reads_length_mod_2_32 (H := signed_char) long_key) Hlen).
Defined.

(** X3: [ht_init] returns in every memory, also on a table that has entries:
    every slot is then [NULL] and [print_hashtable] writes nothing, but the
    heap is what it was, no block is freed; and a second [ht_init] changes
    nothing. *)
Theorem ht_init_frees_nothing s :
  exists s1,
    ht_init s = Ret tt s1 /\
    heap s1 = heap s /\ mallocs s1 = mallocs s /\
    (forall j, 0 <= j < TABLE_SIZE -> entries s1 !! j = None) /\
    print_hashtable s1 = Ret [] s1 /\
    ht_init s1 = Ret tt s1.
Proof.
  destruct (ht_init_entries s) as (e1 & Hinit & He1).
  destruct (ht_init_repr (H := signed_char) _ _ Hinit) as (Hr & _).
  exists (State (heap s) e1 (mallocs s)). split; [exact Hinit|]. clear Hinit.
  split; [done|]. split; [done|]. split.
  { intros j Hj. cbn [entries]. rewrite He1. by apply decide_True. }
  split.
  { by rewrite (print_hashtable_repr _ [] Hr), table_lines_nil. }
  destruct (ht_init_entries (State (heap s) e1 (mallocs s))) as (e2 & Hinit2 & He2).
  cbn [heap entries mallocs] in *. rewrite Hinit2. f_equal. f_equal.
  apply map_eq. intros j. rewrite He2. case_decide as Hj; [|done].
  rewrite He1. by rewrite decide_True.
Qed.

(** X4: when its three calls of [malloc] succeed, [ht_create_entry] returns a
    new entry: three blocks that were not in the heap, the entry with its
    [next] pointer [NULL], and two arrays of [strlen + 1] bytes that hold
    copies of the key and of the value; every other block and the slots are
    what they were. *)
Theorem create_entry_copies (k v : cstring) s :
  malloc_ok (mallocs s) = true ->
  malloc_ok (tail (mallocs s)) = true ->
  malloc_ok (tail (tail (mallocs s))) = true ->
  exists e kp vp s',
    ht_create_entry k v s = Ret (Some e) s' /\
    heap s !! e = None /\ heap s !! kp = None /\ heap s !! vp = None /\
    NoDup [e; kp; vp] /\
    heap s' !! e = Some (Node (Entry_t (Some kp) (Some vp) NULL)) /\
    heap s' !! kp = Some (Buf (strlen k + 1) k) /\
    heap s' !! vp = Some (Buf (strlen v + 1) v) /\
    (forall a, a ∉ [e; kp; vp] -> heap s' !! a = heap s !! a) /\
    entries s' = entries s /\ mallocs s' = drop 3 (mallocs s).
Proof.
  intros O1 O2 O3.
  destruct (new_cell_fresh (heap s) k v) as (F1 & F2 & F3 & N12 & N13 & N23).
  pose proof (new_cell_NoDup (heap s) k v) as Hnd.
  destruct (cell_blocks_cell_in (new_cell (heap s) k v) NULL (heap s) Hnd) as (Hn & Hk & Hv).
  exists (c_node (new_cell (heap s) k v)), (c_kaddr (new_cell (heap s) k v)),
    (c_vaddr (new_cell (heap s) k v)).
  eexists. split; [by apply ht_create_entry_some|].
  cbn [heap entries mallocs]. split_and!; try done.
  intros a Ha. by apply cell_blocks_lookup_ne.
Qed.

Lemma create_entry_copies_witness :
  exists e kp vp s',
    ht_create_entry key_aa value_1 (memory []) = Ret (Some e) s' /\
    heap (memory []) !! e = None /\ heap (memory []) !! kp = None /\
    heap (memory []) !! vp = None /\
    NoDup [e; kp; vp] /\
    heap s' !! e = Some (Node (Entry_t (Some kp) (Some vp) NULL)) /\
    heap s' !! kp = Some (Buf (strlen key_aa + 1) key_aa) /\
    heap s' !! vp = Some (Buf (strlen value_1 + 1) value_1) /\
    (forall a, a ∉ [e; kp; vp] -> heap s' !! a = heap (memory []) !! a) /\
    entries s' = entries (memory []) /\ mallocs s' = drop 3 (mallocs (memory [])).
Proof.
  apply (create_entry_copies key_aa value_1 (memory [])); reflexivity.
Defined.

(** X5: when the [malloc] of the entry succeeds and the [malloc] of the key
    or of the value fails, [ht_create_entry] returns [NULL] after it has freed
    what it got: the heap is what it was.  [malloc] has been called three
    times, also when the second call failed. *)
Theorem create_entry_failure_frees (k v : cstring) s :
  malloc_ok (mallocs s) = true ->
  malloc_ok (tail (mallocs s)) && malloc_ok (tail (tail (mallocs s))) = false ->
  ht_create_entry k v s = Ret NULL (State (heap s) (entries s) (drop 3 (mallocs s))).
Proof. apply ht_create_entry_null. Qed.

Lemma create_entry_failure_frees_witness :
  ht_create_entry key_zz value_2 (aa_table [true; false; true]) = Ret NULL (aa_table []) /\
  ht_create_entry key_zz value_2 (aa_table [true; true; false]) = Ret NULL (aa_table []).
Proof.
  split.
  - apply (create_entry_failure_frees key_zz value_2 (aa_table [true; false; true]));
      reflexivity.
  - apply (create_entry_failure_frees key_zz value_2 (aa_table [true; true; false]));
      reflexivity.
Defined.



(** X7: after [ht_init] and any sequence of calls of [ht_set] that returns,
    the heap has the blocks it had before [ht_init], every one with its
    content, and three more for every key that was inserted: an update frees
    the array of the old value, a failed call frees what it got, and nothing
    else is allocated or freed. *)
Theorem session_heap_accounting `{Platform} ops s0 rs s :
  Forall (fun op => is_cstring (fst op)) ops ->
  ht_session ops s0 = Ret rs s ->
  size (heap s) = (size (heap s0) + 3 * length (inserted_keys (history ops rs)))%nat /\
  (forall a b, heap s0 !! a = Some b -> heap s !! a = Some b).
Proof.
  intros Hops Hrun.
  destruct (ht_session_inv _ _ _ _ Hops Hrun) as (cells & Hr & Hkv & Ho & _). clear Hrun.
  split.
  - rewrite (heap_owned_size _ _ _ Hr Ho). by rewrite (session_cells_length ops rs cells).
  - intros a b Ha. destruct Ho as [Ho1 Ho2]. rewrite Ho1; [done|].
    intros Hin. apply Ho2 in Hin. congruence.
Qed.

Lemma session_heap_accounting_witness :
  length (inserted_keys (history update_calls update_results)) = 19%nat /\
  size (heap update_final)
  = (size (heap (memory [])) + 3 * length (inserted_keys (history update_calls update_results)))%nat.
Proof.
  split; [vm_compute; reflexivity|].
  exact (proj1 (session_heap_accounting (H := signed_char) update_calls (memory [])
                  update_results update_final
                  (keys_ok_spec update_calls eq_refl) update_calls_run)).
Defined.

(** X8: a successful [ht_set] of a key that the table has frees the array of
    the old value: the pointer that [ht_get] returned for the key before the
    call points to no block after it, and [ht_get] now returns another
    pointer, to the new value. *)
Theorem update_frees_old_value `{Platform} ops s0 rs s k v p e s' :
  Forall (fun op => is_cstring (fst op)) ops -> is_cstring k ->
  ht_session ops s0 = Ret rs s ->
  ht_get k s = Ret (Some p) s ->
  ht_set k v s = Ret (Some e) s' ->
  heap s' !! p = None /\
  load_string (Some p) s' = Fault /\
  exists p', ht_get k s' = Ret (Some p') s' /\ p' <> p /\
             load_string (Some p') s' = Ret v s'.
Proof.
  intros Hops Hk Hrun Hget Hset.
  destruct (ht_session_sim _ _ _ _ Hops Hrun) as (cells & Hr & _). clear Hrun.
  rewrite (ht_get_repr s cells k Hr Hk) in Hget.
  destruct (find_cell k cells) as [c|] eqn:Ec; [|done]. injection Hget as <-.
  destruct (ht_set_found_freed _ _ _ _ _ _ _ Hr Hk Ec Hset) as (Hfree & Hr' & Ec').
  split; [done|]. split; [unfold load_string; by rewrite Hfree|].
  exists (fresh (dom (heap s))). split_and!.
  - by rewrite (ht_get_repr s' _ k Hr' Hk), Ec'.
  - intros E. destruct (find_cell_Some _ _ _ Ec) as [Hin _].
    destruct (repr_cell_in _ _ _ Hr Hin) as (nxt & _ & _ & Hvb).
    pose proof (fresh_lookup (heap s)) as Hf. rewrite E in Hf. congruence.
  - destruct (find_cell_Some _ _ _ Ec') as [Hin' _].
    destruct (repr_cell_in _ _ _ Hr' Hin') as (nxt & _ & _ & Hvb).
    unfold new_value in Hvb. cbn [c_vaddr c_val] in Hvb.
    by rewrite (load_string_buf _ _ _ _ Hvb).
Qed.

Lemma update_frees_old_value_witness :
  ht_get (H := signed_char) key_aa (aa_table []) = Ret (Some 3%positive) (aa_table []) /\
  ht_set (H := signed_char) key_aa value_2 (aa_table []) = Ret (Some 1%positive) aa_updated /\
  load_string (Some 3%positive) aa_updated = Fault.
Proof.
  assert (Hg : ht_get (H := signed_char) key_aa (aa_table [])
               = Ret (Some 3%positive) (aa_table [])) by (vm_compute; reflexivity).
  assert (Hs : ht_set (H := signed_char) key_aa value_2 (aa_table [])
               = Ret (Some 1%positive) aa_updated) by (vm_compute; reflexivity).
  split; [exact Hg|]. split; [exact Hs|].
  exact (proj1 (proj2 (update_frees_old_value (H := signed_char) aa_calls _ aa_results _
                         key_aa value_2 _ _ _
                         (keys_ok_spec aa_calls eq_refl) (is_cstring_bytes key_aa eq_refl)
                         (aa_calls_run []) Hg Hs))).
Defined.

(** X9: a call of [ht_set] on a key leaves the value pointers of the other
    keys as they were: for every other key, [ht_get] returns the same pointer
    before and after the call, and the pointer reads the same string. *)
Theorem other_keys_keep_pointers `{Platform} ops s0 rs s k v r s' k' :
  Forall (fun op => is_cstring (fst op)) ops -> is_cstring k -> is_cstring k' ->
  ht_session ops s0 = Ret rs s ->
  ht_set k v s = Ret r s' ->
  k' <> k ->
  exists p,
    ht_get k' s = Ret p s /\ ht_get k' s' = Ret p s' /\
    (p <> NULL -> exists w, load_string p s = Ret w s /\ load_string p s' = Ret w s').
Proof.
  intros Hops Hk Hk' Hrun Hset Hne.
  destruct (ht_session_sim _ _ _ _ Hops Hrun) as (cells & Hr & _). clear Hrun.
  destruct (ht_set_step _ _ _ _ _ _ Hr Hk Hset) as (Hr' & _).
  pose proof (find_cell_after_ne (heap s) k v r cells k' Hne) as Ef.
  exists (c_vaddr <$> find_cell k' cells). split_and!.
  - by apply ht_get_repr.
  - rewrite (ht_get_repr s' _ k' Hr' Hk'). by rewrite Ef.
  - intros Hp. destruct (find_cell k' cells) as [c|] eqn:Ec; [|done].
    exists (c_val c). cbn [fmap option_fmap option_map].
    destruct (find_cell_Some _ _ _ Ec) as [Hin _].
    destruct (find_cell_Some _ _ _ Ef) as [Hin' _].
    destruct (repr_cell_in _ _ _ Hr Hin) as (nxt & _ & _ & Hvb).
    destruct (repr_cell_in _ _ _ Hr' Hin') as (nxt' & _ & _ & Hvb').
    by rewrite (load_string_buf _ _ _ _ Hvb), (load_string_buf _ _ _ _ Hvb').
Qed.

Lemma other_keys_keep_pointers_witness :
  ht_set (H := signed_char) key_b value_1 (aa_table []) = Ret (Some 4%positive) b_once /\
  exists p,
    ht_get (H := signed_char) key_aa (aa_table []) = Ret p (aa_table []) /\
    ht_get (H := signed_char) key_aa b_once = Ret p b_once /\
    (p <> NULL -> exists w, load_string p (aa_table []) = Ret w (aa_table []) /\
                            load_string p b_once = Ret w b_once).
Proof.
  assert (Hs : ht_set (H := signed_char) key_b value_1 (aa_table [])
               = Ret (Some 4%positive) b_once) by (vm_compute; reflexivity).
  split; [exact Hs|].
  apply (other_keys_keep_pointers (H := signed_char) aa_calls _ aa_results _
           key_b value_1 _ _ key_aa
           (keys_ok_spec aa_calls eq_refl) (is_cstring_bytes key_b eq_refl)
           (is_cstring_bytes key_aa eq_refl) (aa_calls_run []) Hs).
  apply (bool_decide_unpack _). vm_compute. reflexivity.
Defined.

(** X10: the entries that the calls of a session returned stay valid: at the
    end of the session an entry that a call on the key [k] returned has a key
    that reads [k] and a value that reads the latest value of [k], and its
    value pointer is the pointer that [ht_get] returns for [k]. *)
Theorem returned_entries_stay_valid `{Platform} ops s0 rs s k v e :
  Forall (fun op => is_cstring (fst op)) ops ->
  ht_session ops s0 = Ret rs s ->
  (k, v, Some e) ∈ history ops rs ->
  exists kp vp w,
    get_key (Some e) s = Ret (Some kp) s /\ load_string (Some kp) s = Ret k s /\
    get_value (Some e) s = Ret (Some vp) s /\ load_string (Some vp) s = Ret w s /\
    ht_get k s = Ret (Some vp) s /\ latest k (history ops rs) = Some w.
Proof.
  intros Hops Hrun Hin.
  destruct (ht_session_inv _ _ _ _ Hops Hrun) as (cells & Hr & Hkv & _ & Hmem). clear Hrun.
  specialize (Hmem k v e Hin).
  destruct (find_cell k cells) as [c|] eqn:Ec; [|done]. injection Hmem as <-.
  destruct (find_cell_Some _ _ _ Ec) as [Hc Hck].
  destruct (repr_cell_in _ _ _ Hr Hc) as (nxt & Hn & Hkb & Hvb).
  assert (Hk : is_cstring k).
  { rewrite <- Hck. by apply (proj1 (Forall_forall _ _) (repr_cstring _ _ Hr)). }
  exists (c_kaddr c), (c_vaddr c), (c_val c). split_and!.
  - by rewrite (get_key_node _ _ _ Hn).
  - rewrite (load_string_buf _ _ _ _ Hkb). by rewrite Hck.
  - by rewrite (get_value_node _ _ _ Hn).
  - by rewrite (load_string_buf _ _ _ _ Hvb).
  - by rewrite (ht_get_repr s cells k Hr Hk), Ec.
  - by rewrite (session_latest ops rs cells), Ec.
Qed.

Lemma returned_entries_stay_valid_witness :
  history update_calls update_results !! 0%nat
  = Some (key_madrid, key_madrid, Some 1%positive) /\
  exists kp vp w,
    get_key (Some 1%positive) update_final = Ret (Some kp) update_final /\
    load_string (Some kp) update_final = Ret key_madrid update_final /\
    get_value (Some 1%positive) update_final = Ret (Some vp) update_final /\
    load_string (Some vp) update_final = Ret w update_final /\
    ht_get (H := signed_char) key_madrid update_final = Ret (Some vp) update_final /\
    latest key_madrid (history update_calls update_results) = Some w.
Proof.
  assert (Hl : history update_calls update_results !! 0%nat
               = Some (key_madrid, key_madrid, Some 1%positive)) by (vm_compute; reflexivity).
  split; [exact Hl|].
  exact (returned_entries_stay_valid (H := signed_char) update_calls (memory [])
           update_results update_final key_madrid key_madrid 1%positive
           (keys_ok_spec update_calls eq_refl) update_calls_run
           (list_elem_of_lookup_2 _ _ _ Hl)).
Defined.

(** X11: in a session two successful calls of [ht_set] return the same entry
    if and only if they have the same key: an entry is made once for a key,
    and no two keys share one. *)
Theorem returned_entry_names_key `{Platform} ops s0 rs s k1 v1 e1 k2 v2 e2 :
  Forall (fun op => is_cstring (fst op)) ops ->
  ht_session ops s0 = Ret rs s ->
  (k1, v1, Some e1) ∈ history ops rs ->
  (k2, v2, Some e2) ∈ history ops rs ->
  e1 = e2 <-> k1 = k2.
Proof.
  intros Hops Hrun Hin1 Hin2.
  destruct (ht_session_inv _ _ _ _ Hops Hrun) as (cells & Hr & Hkv & _ & Hmem). clear Hrun.
  pose proof (Hmem _ _ _ Hin1) as H1. pose proof (Hmem _ _ _ Hin2) as H2.
  destruct (find_cell k1 cells) as [c1|] eqn:E1; [|done]. injection H1 as <-.
  destruct (find_cell k2 cells) as [c2|] eqn:E2; [|done]. injection H2 as <-.
  destruct (find_cell_Some _ _ _ E1) as [Hc1 <-].
  destruct (find_cell_Some _ _ _ E2) as [Hc2 <-].
  split.
  - intros E. f_equal.
    apply (cells_addrs_disjoint cells c1 c2 (c_node c1)); [apply Hr|done..| |].
    + unfold cell_addrs. set_solver.
    + rewrite E. unfold cell_addrs. set_solver.
  - intros E. rewrite E in E1. congruence.
Qed.

Lemma returned_entry_names_key_witness :
  history update_calls update_results !! 0%nat
  = Some (key_madrid, key_madrid, Some 1%positive) /\
  history update_calls update_results !! 1%nat
  = Some (list_byte_of_string "cataluña", list_byte_of_string "barcelona", Some 4%positive) /\
  (1%positive = 4%positive <-> key_madrid = list_byte_of_string "cataluña").
Proof.
  assert (H0 : history update_calls update_results !! 0%nat
               = Some (key_madrid, key_madrid, Some 1%positive)) by (vm_compute; reflexivity).
  assert (H1 : history update_calls update_results !! 1%nat
               = Some (list_byte_of_string "cataluña", list_byte_of_string "barcelona",
                       Some 4%positive)) by (vm_compute; reflexivity).
  split; [exact H0|]. split; [exact H1|].
  exact (returned_entry_names_key (H := signed_char) update_calls (memory [])
           update_results update_final _ _ _ _ _ _
           (keys_ok_spec update_calls eq_refl) update_calls_run
           (list_elem_of_lookup_2 _ _ _ H0) (list_elem_of_lookup_2 _ _ _ H1)).
Defined.

(** X12: two calls of [ht_set] on two different keys can be made in either
    order: when the calls succeed in both orders, every lookup finds the same
    in the two tables, and the two tables are enumerated alike when the keys
    are in different slots. *)
Theorem sets_of_two_keys_commute `{Platform}
    ops s0 rs s k1 v1 k2 v2 e1 e2 e1' e2' s1 s12 s2 s21 :
  Forall (fun op => is_cstring (fst op)) ops -> is_cstring k1 -> is_cstring k2 ->
  ht_session ops s0 = Ret rs s ->
  k1 <> k2 ->
  ht_set k1 v1 s = Ret (Some e1) s1 -> ht_set k2 v2 s1 = Ret (Some e2) s12 ->
  ht_set k2 v2 s = Ret (Some e2') s2 -> ht_set k1 v1 s2 = Ret (Some e1') s21 ->
  (forall k, is_cstring k ->
     exists r, lookup_value k s12 = Ret r s12 /\ lookup_value k s21 = Ret r s21) /\
  (hash k1 <> hash k2 ->
     exists l, enumerate s12 = Ret l s12 /\ enumerate s21 = Ret l s21).
Proof.
  intros Hops Hk1 Hk2 Hrun Hne Ha1 Ha2 Hb2 Hb1.
  destruct (ht_session_sim _ _ _ _ Hops Hrun) as (cells & Hr & _). clear Hrun.
  destruct (ht_set_sim _ _ _ _ _ _ Hr Hk1 Ha1) as (ca1 & Hra1 & Hkva1 & _).
  destruct (ht_set_sim _ _ _ _ _ _ Hra1 Hk2 Ha2) as (ca2 & Hra2 & Hkva2 & _).
  destruct (ht_set_sim _ _ _ _ _ _ Hr Hk2 Hb2) as (cb2 & Hrb2 & Hkvb2 & _).
  destruct (ht_set_sim _ _ _ _ _ _ Hrb2 Hk1 Hb1) as (cb1 & Hrb1 & Hkvb1 & _).
  rewrite Hkva1 in Hkva2. rewrite Hkvb2 in Hkvb1. split.
  - intros k Hk. exists (pairs_lookup k (cell_kv <$> ca2)). split.
    + rewrite (lookup_value_repr _ _ _ Hra2 Hk). by rewrite pairs_lookup_cells.
    + rewrite (lookup_value_repr _ _ _ Hrb1 Hk). rewrite <- pairs_lookup_cells.
      rewrite Hkva2, Hkvb1, !pairs_lookup_set. repeat case_decide; congruence.
  - intros Hh. exists (seqZ 0 TABLE_SIZE ≫= slot_triples ca2). split.
    + rewrite (enumerate_repr _ _ Hra2). f_equal.
      by rewrite triples_table_lines, Z2Nat.id.
    + rewrite (enumerate_repr _ _ Hrb1). f_equal.
      rewrite triples_table_lines, Z2Nat.id by done.
      apply list_bind_ext; [|done]. intros i.
      rewrite !slot_triples_pairs, Hkva2, Hkvb1. f_equal.
      symmetry. by apply pairs_set_swap_filter.
Qed.

Lemma sets_of_two_keys_commute_witness :
  (ht_set (H := signed_char) key_b value_1 (aa_table []) = Ret (Some 4%positive) b_once /\
   ht_set (H := signed_char) key_zz value_2 b_once = Ret (Some 7%positive) b_then_zz /\
   ht_set (H := signed_char) key_zz value_2 (aa_table []) = Ret (Some 4%positive) zz_once /\
   ht_set (H := signed_char) key_b value_1 zz_once = Ret (Some 7%positive) zz_then_b) /\
  exists l, enumerate b_then_zz = Ret l b_then_zz /\ enumerate zz_then_b = Ret l zz_then_b.
Proof.
  assert (Ha1 : ht_set (H := signed_char) key_b value_1 (aa_table [])
                = Ret (Some 4%positive) b_once) by (vm_compute; reflexivity).
  assert (Ha2 : ht_set (H := signed_char) key_zz value_2 b_once
                = Ret (Some 7%positive) b_then_zz) by (vm_compute; reflexivity).
  assert (Hb2 : ht_set (H := signed_char) key_zz value_2 (aa_table [])
                = Ret (Some 4%positive) zz_once) by (vm_compute; reflexivity).
  assert (Hb1 : ht_set (H := signed_char) key_b value_1 zz_once
                = Ret (Some 7%positive) zz_then_b) by (vm_compute; reflexivity).
  assert (Hne : key_b <> key_zz) by (apply (bool_decide_unpack _); vm_compute; reflexivity).
  assert (Hh : @hash signed_char key_b <> @hash signed_char key_zz)
    by (apply (bool_decide_unpack _); vm_compute; reflexivity).
  split; [by repeat split|].
  exact (proj2 (sets_of_two_keys_commute (H := signed_char) aa_calls _ aa_results _
                  key_b value_1 key_zz value_2 _ _ _ _ _ _ _ _
                  (keys_ok_spec aa_calls eq_refl) (is_cstring_bytes key_b eq_refl)
                  (is_cstring_bytes key_zz eq_refl) (aa_calls_run []) Hne Ha1 Ha2 Hb2 Hb1)
               Hh).
Defined.

(** X13: after [ht_init] and any sequence of calls of [ht_set] that returns,
    the enumeration lists a key with a value, in a slot, exactly when the slot
    is the hash of the key and the value is that of the most recent successful
    [ht_set] of the key: every stored pair is written, and nothing else. *)
Theorem enumeration_lists_latest `{Platform} ops s0 rs s :
  Forall (fun op => is_cstring (fst op)) ops ->
  ht_session ops s0 = Ret rs s ->
  exists l, enumerate s = Ret l s /\
    forall i k v, (i, k, v) ∈ l <-> i = hash k /\ latest k (history ops rs) = Some v.
Proof.
  intros Hops Hrun.
  destruct (ht_session_sim _ _ _ _ Hops Hrun) as (cells & Hr & Hkv & _). clear Hrun.
  destruct (table_enumeration s cells Hr) as (lines & Hp & _ & Hin).
  exists (triples lines). split.
  - unfold enumerate. by rewrite (bind_ret _ _ _ _ _ Hp).
  - intros i k v. by rewrite Hin, (session_latest ops rs cells k Hkv).
Qed.

Lemma enumeration_lists_latest_witness :
  exists l, enumerate update_final = Ret l update_final /\
    forall i k v, (i, k, v) ∈ l <->
      i = @hash signed_char k /\ latest k (history update_calls update_results) = Some v.
Proof.
  exact (enumeration_lists_latest (H := signed_char) update_calls (memory [])
           update_results update_final
           (keys_ok_spec update_calls eq_refl) update_calls_run).
Defined.

(** X14: in every memory where it returns, [print_hashtable] writes one line
    for every slot of the array that is not [NULL] and for no other, the lines
    in the ascending order of the slots, and no line without a pair. *)
Theorem print_hashtable_lines s lines s' :
  print_hashtable s = Ret lines s' ->
  (forall j, j ∈ lines.*1 <-> 0 <= j < TABLE_SIZE /\ is_Some (entries s !! j)) /\
  StronglySorted Z.lt lines.*1 /\
  Forall (fun l : line => snd l <> []) lines.
Proof.
  rewrite print_hashtable_unfold. intros Hrun.
  apply print_slots_lines in Hrun as (Hin & Hrest).
  split; [|exact Hrest]. intros j. rewrite Hin, Z2Nat.id by done.
  split; intros [? ?]; (split; [lia|done]).
Qed.

Lemma print_hashtable_lines_witness :
  print_hashtable (aa_table []) = Ret [(3686, [(key_aa, value_1)])] (aa_table []) /\
  StronglySorted Z.lt [(3686, [(key_aa, value_1)])].*1 /\
  Forall (fun l : line => snd l <> []) [(3686, [(key_aa, value_1)])].
Proof.
  assert (Hp : print_hashtable (aa_table []) = Ret [(3686, [(key_aa, value_1)])] (aa_table []))
    by (vm_compute; reflexivity).
  split; [exact Hp|]. exact (proj2 (print_hashtable_lines _ _ _ Hp)).
Defined.

(** X15: the loops of [ht_get], [ht_set] and [print_hashtable] walk a chain
    and leave it as it is, so a walk that has not ended after more steps than
    the heap has blocks has come back to an entry and never ends: the outcome
    of a loop is the same for every bound from [walk_bound] on, and a loop
    that has not stopped at that bound stops at no bound. *)
Theorem walk_bound_suffices (k v : cstring) (p : ptr) s :
  (forall n, (walk_bound s <= n)%nat ->
     ht_get_loop n k p s = ht_get_loop (walk_bound s) k p s /\
     ht_set_loop n k v p s = ht_set_loop (walk_bound s) k v p s /\
     print_chain n p s = print_chain (walk_bound s) p s) /\
  (ht_get_loop (walk_bound s) k p s = Diverge -> forall n, ht_get_loop n k p s = Diverge) /\
  (ht_set_loop (walk_bound s) k v p s = Diverge ->
     forall n, ht_set_loop n k v p s = Diverge) /\
  (print_chain (walk_bound s) p s = Diverge -> forall n, print_chain n p s = Diverge).
Proof.
  assert (Hb : (size (heap s) < walk_bound s)%nat) by (unfold walk_bound; lia).
  split_and!.
  - intros n Hn. split_and!.
    + by apply ht_get_loop_bound.
    + by apply ht_set_loop_bound.
    + by apply print_chain_bound.
  - intros Hd n. by apply (ht_get_loop_cycle (walk_bound s)).
  - intros Hd n. by apply (ht_set_loop_cycle (walk_bound s)).
  - intros Hd n. by apply (print_chain_cycle (walk_bound s)).
Qed.

Lemma walk_bound_suffices_witness :
  ((walk_bound (aa_table []) <= 10)%nat /\
   ht_get_loop 10 key_b (Some 1%positive) (aa_table [])
   = ht_get_loop (walk_bound (aa_table [])) key_b (Some 1%positive) (aa_table [])) /\
  (ht_get_loop (walk_bound cyclic_table) key_b (Some 1%positive) cyclic_table = Diverge /\
   ht_get_loop 1000 key_b (Some 1%positive) cyclic_table = Diverge).
Proof.
  assert (Hb : (walk_bound (aa_table []) <= 10)%nat) by (vm_compute; lia).
  assert (Hd : ht_get_loop (walk_bound cyclic_table) key_b (Some 1%positive) cyclic_table
               = Diverge) by (vm_compute; reflexivity).
  split; split; [exact Hb| |exact Hd|].
  - exact (proj1 (proj1 (walk_bound_suffices key_b value_1 (Some 1%positive) (aa_table []))
                    10%nat Hb)).
  - exact (proj1 (proj2 (walk_bound_suffices key_b value_1 (Some 1%positive) cyclic_table))
             Hd 1000%nat).
Defined.

(** X16: [main] never loops for ever; and where every [malloc] succeeds it
    returns 0 after [print_hashtable] has written the nineteen pairs of its
    calls of [ht_set], every pair once, in some order, every pair in the slot
    of the hash of its key, whether [char] is signed or not. *)
Theorem main_prints_every_pair `{Platform} s0 :
  main s0 <> Diverge /\
  (Forall (fun b => b = true) (mallocs s0) ->
   exists lines s,
     main s0 = Ret (0, lines) s /\
     (fun t => (snd (fst t), snd t)) <$> triples lines ≡ₚ main_calls /\
     forall i k v, (i, k, v) ∈ triples lines -> i = hash k).
Proof.
  destruct main_calls_keys as [Hops%keys_ok_spec Hnd].
  rewrite main_unfold.
  destruct (ht_init_clear s0) as (e' & Hinit & _).
  destruct (ht_init_repr _ _ Hinit) as (Hr0 & _ & Hm0).
  rewrite (bind_ret _ _ _ _ _ Hinit). clear Hinit. split.
  - pose proof (run_sets_halts main_calls _ [] Hr0 Hops) as Hh.
    unfold bind at 1.
    destruct (run_sets main_calls _) as [rs s| |] eqn:Hrun; [|done..].
    destruct (run_sets_sim _ _ _ _ _ Hr0 Hops Hrun) as (cells & Hr & _).
    destruct (table_enumeration s cells Hr) as (lines & Hp & _).
    by rewrite (bind_ret _ _ _ _ _ Hp).
  - intros Hm. rewrite <- Hm0 in Hm.
    destruct (run_sets_returns main_calls _ [] Hr0 Hops Hm) as (rs & s & Hrun & Hrs).
    destruct (run_sets_sim _ _ _ _ _ Hr0 Hops Hrun) as (cells & Hr & Hkv & Hlen).
    destruct (table_enumeration s cells Hr) as (lines & Hp & Hnk & Hin).
    rewrite (bind_ret _ _ _ _ _ Hrun), (bind_ret _ _ _ _ _ Hp).
    exists lines, s. split; [done|]. split; [|by intros i k v [? _]%Hin].
    apply NoDup_Permutation.
    + apply (NoDup_fmap_1 fst). by rewrite <- list_fmap_compose.
    + by apply (NoDup_fmap_1 fst).
    + intros [k v]. rewrite <- (latest_all_succeeded main_calls rs k v Hrs Hlen Hnd).
      rewrite (session_latest main_calls rs cells k Hkv). rewrite list_elem_of_fmap. split.
      * intros ([[i k'] v'] & [= -> ->] & Ht). by apply Hin in Ht as [_ ?].
      * intros Hv. exists (hash k, k, v). split; [done|]. by apply Hin.
Qed.

Lemma main_prints_every_pair_witness :
  exists lines s,
    main (H := signed_char) (memory []) = Ret (0, lines) s /\
    (fun t => (snd (fst t), snd t)) <$> triples lines ≡ₚ main_calls /\
    forall i k v, (i, k, v) ∈ triples lines -> i = @hash signed_char k.
Proof.
  apply (proj2 (main_prints_every_pair (H := signed_char) (memory []))).
  simpl. constructor.
Defined.



(** X18: [ht_set] reads its argument [value] once more after it has freed the
    old value of the key.  When [value] is the pointer that [ht_get] returns
    for the same key, and [malloc] succeeds, the call reads an array that it
    has freed: [ht_set(h, k, ht_get(h, k))] has undefined behaviour.  For
    every other pair of arguments that point to strings in the memory, into
    the table or not, the call does what [ht_set] does with the two
    strings. *)
Theorem value_argument_in_table `{Platform} ops s0 rs s kp vp nk nv k v :
  Forall (fun op => is_cstring (fst op)) ops -> is_cstring k ->
  ht_session ops s0 = Ret rs s ->
  heap s !! kp = Some (Buf nk k) -> heap s !! vp = Some (Buf nv v) ->
  (ht_get k s = Ret (Some vp) s -> malloc_ok (mallocs s) = true ->
   ht_set_at (Some kp) (Some vp) s = Fault) /\
  (ht_get k s <> Ret (Some vp) s \/ malloc_ok (mallocs s) = false ->
   ht_set_at (Some kp) (Some vp) s = ht_set k v s).
Proof.
  intros Hops Hk Hrun Hkp Hvp.
  destruct (ht_session_sim _ _ _ _ Hops Hrun) as (cells & Hr & _). clear Hrun.
  rewrite (ht_get_repr s cells k Hr Hk).
  rewrite (ht_set_at_run s cells kp (Some vp) nk k Hr Hk Hkp), (ht_set_run s cells k v Hr Hk).
  destruct (find_cell k cells) as [c|] eqn:Ec; cbn [fmap option_fmap option_map].
  - destruct (find_cell_Some _ _ _ Ec) as [Hin _].
    destruct (repr_cell_in _ _ _ Hr Hin) as (nxt & Hci).
    pose proof (cells_addrs_NoDup _ _ (repr_addrs _ _ Hr) Hin) as Hnd.
    split.
    + intros [= <-] O1. by apply (ht_set_replace_at_alias c nxt).
    + intros Hor. apply (ht_set_replace_at_eq c nxt vp nv v s Hci Hnd Hvp).
      destruct Hor as [Hne|O1]; [left|by right]. intros ->. by apply Hne.
  - split; [done|]. intros _.
    destruct (entries s !! hash k).
    + by apply (ht_set_append_at_eq _ kp vp nk nv).
    + unfold bind at 1 4. by rewrite (ht_create_entry_at_eq kp vp nk nv k v s).
Qed.

Lemma value_argument_in_table_witness :
  (heap (aa_table []) !! 2%positive = Some (Buf 3 key_aa) /\
   heap (aa_table []) !! 3%positive = Some (Buf 2 value_1) /\
   ht_get (H := signed_char) key_aa (aa_table []) = Ret (Some 3%positive) (aa_table [])) /\
  ht_set_at (H := signed_char) (Some 2%positive) (Some 3%positive) (aa_table []) = Fault.
Proof.
  assert (Hkp : heap (aa_table []) !! 2%positive = Some (Buf 3 key_aa))
    by (vm_compute; reflexivity).
  assert (Hvp : heap (aa_table []) !! 3%positive = Some (Buf 2 value_1))
    by (vm_compute; reflexivity).
  assert (Hg : ht_get (H := signed_char) key_aa (aa_table [])
               = Ret (Some 3%positive) (aa_table [])) by (vm_compute; reflexivity).
  split; [by repeat split|].
  exact (proj1 (value_argument_in_table (H := signed_char) aa_calls _ aa_results _
                  2%positive 3%positive 3 2 key_aa value_1
                  (keys_ok_spec aa_calls eq_refl) (is_cstring_bytes key_aa eq_refl)
                  (aa_calls_run []) Hkp Hvp) Hg eq_refl).
Defined.

(** X19: [ht_set] and [ht_get] do not test their arguments.  With a NULL key
    each of them reads through it at once, [hash] calls [strlen] on it:
    undefined behaviour on every memory.  On a table, [ht_set] with a key
    string and a NULL [value] has undefined behaviour as well, whether the key
    is in the table or not and whatever [malloc] answers.  With a pointer to
    a string, [ht_get] does on every memory what it does with the string. *)
Theorem null_arguments `{Platform} ops s0 rs s (kp : addr) nk k :
  Forall (fun op => is_cstring (fst op)) ops -> is_cstring k ->
  ht_session ops s0 = Ret rs s ->
  heap s !! kp = Some (Buf nk k) ->
  (forall value s', ht_set_at NULL value s' = Fault) /\
  (forall s', ht_get_at NULL s' = Fault) /\
  ht_set_at (Some kp) NULL s = Fault /\
  (forall s' (kp' : addr),
     heap s' !! kp' = Some (Buf nk k) -> ht_get_at (Some kp') s' = ht_get k s').
Proof.
  intros Hops Hk Hrun Hkp.
  destruct (ht_session_sim _ _ _ _ Hops Hrun) as (cells & Hr & _). clear Hrun.
  split; [done|]. split; [done|]. split.
  - rewrite (ht_set_at_run s cells kp NULL nk k Hr Hk Hkp).
    destruct (find_cell k cells) as [c|]; [done|].
    destruct (entries s !! hash k).
    + unfold ht_set_append_at, bind at 1.
      by rewrite (ht_create_entry_at_null_value kp nk k).
    + unfold bind at 1. by rewrite (ht_create_entry_at_null_value kp nk k).
  - intros s' kp' Hkp'. by apply (ht_get_at_eq kp' nk).
Qed.

Lemma null_arguments_witness :
  heap (aa_table []) !! 2%positive = Some (Buf 3 key_aa) /\
  ht_set_at (H := signed_char) (Some 2%positive) NULL (aa_table []) = Fault.
Proof.
  assert (Hkp : heap (aa_table []) !! 2%positive = Some (Buf 3 key_aa))
    by (vm_compute; reflexivity).
  split; [exact Hkp|].
  exact (proj1 (proj2 (proj2 (null_arguments (H := signed_char) aa_calls _ aa_results _
                  2%positive 3 key_aa
                  (keys_ok_spec aa_calls eq_refl) (is_cstring_bytes key_aa eq_refl)
                  (aa_calls_run []) Hkp)))).
Defined.
